(** * TodoManager: a shallow embedding of [todolist_server.py]

    The development models the [TodoManager] class: its cache, the backing
    file, the backup directory, validation, the query pipeline of
    [list_todos] and the mutating operations.

    Conventions.
    - A task record is a Python [dict]; it is a [gmap string pyval].  A key
      can be missing, or present with the value [None]: the two differ, and
      [dict.get] tells them apart.
    - Python integers are unbounded: [Z].  Strings are [string]; one [ascii]
      stands for one character.
    - Code that can raise returns an [outcome]; code that also reads or
      writes the manager object, the file system or the clock lives in the
      monad [M], a state monad over [world] with exceptions.  What is
      written before an exception is raised stays written.
    - The operating system and the Python library are an [environment]:
      the successive readings of the clock, the formatting functions of
      [datetime], whether the one read, the one write and each copy of
      an operation fail, and what a write or a copy that fails leaves
      behind.  Every manager operation opens the backing file at
      most once for reading and at most once for writing, and copies it at
      most once per backup path, so a fixed answer per kind of access
      describes any run of a single operation.
    - The lists returned by the loader are copies ([list.copy]); no
      operation mutates a record dict that the cache also holds
      ([update_todo] works on [dict.copy]).  Lists and dicts are therefore
      plain values here. *)

From Stdlib Require Import ZArith Lia Ascii String.
From stdpp Require Import base option list gmap strings pretty.

Local Open Scope string_scope.
Local Open Scope list_scope.
Local Open Scope Z_scope.

(** ** Python values and exceptions *)

Inductive pyval :=
  | PNone
  | PInt (z : Z)
  | PStr (s : string)
  | PList (l : list string).

#[global] Instance pyval_eq_dec : EqDecision pyval.
Proof. solve_decision. Defined.

Inductive exn :=
  | TypeError
  | KeyError
  | IndexError
  | AttributeError
  | OSError
  | JSONDecodeError.

#[global] Instance exn_eq_dec : EqDecision exn.
Proof. solve_decision. Defined.

Inductive outcome (A : Type) :=
  | Ok (a : A)
  | Raised (e : exn).
Arguments Ok {A} a.
Arguments Raised {A} e.

Definition obind {A B} (m : outcome A) (k : A -> outcome B) : outcome B :=
  match m with
  | Ok a => k a
  | Raised e => Raised e
  end.

Notation "'let?' x := m 'in' k" := (obind m (fun x => k))
  (at level 10, x name, m at level 100, k at level 200, only parsing).

(** A task record, as the code has it: a [dict] from field names to values. *)
Abbreviation todo := (gmap string pyval).

(** [bool(v)]: what [if v:] and [not v] test. *)
Definition truthy (v : pyval) : bool :=
  match v with
  | PNone => false
  | PInt z => negb (z =? 0)
  | PStr s => negb (String.eqb s "")
  | PList l => match l with [] => false | _ => true end
  end.

(** [a == b] never raises on these values. *)
Definition py_eq (a b : pyval) : bool := bool_decide (a = b).

(** Lexicographic order of two lists of strings, as [list.__lt__]. *)
Fixpoint list_ltb (x y : list string) : bool :=
  match x, y with
  | _, [] => false
  | [], _ :: _ => true
  | a :: x', b :: y' => if String.eqb a b then list_ltb x' y' else String.ltb a b
  end.

(** [a < b]: defined inside one type, [TypeError] across types and on
    [None]. *)
Definition py_lt (a b : pyval) : outcome bool :=
  match a, b with
  | PInt x, PInt y => Ok (x <? y)
  | PStr x, PStr y => Ok (String.ltb x y)
  | PList x, PList y => Ok (list_ltb x y)
  | _, _ => Raised TypeError
  end.

Definition py_gt (a b : pyval) : outcome bool := py_lt b a.

(** [len(v)]. *)
Definition py_len (v : pyval) : outcome Z :=
  match v with
  | PStr s => Ok (Z.of_nat (String.length s))
  | PList l => Ok (Z.of_nat (length l))
  | _ => Raised TypeError
  end.

(** [d[k]] and [d.get(k, default)]; [d.get(k)] is [dict_get d k PNone]. *)
Definition getitem (d : todo) (k : string) : outcome pyval :=
  match d !! k with
  | Some v => Ok v
  | None => Raised KeyError
  end.

Definition dict_get (d : todo) (k : string) (default : pyval) : pyval :=
  match d !! k with
  | Some v => v
  | None => default
  end.

(** [[f(x) for x in l]] and [[x for x in l if p(x)]] where [f], [p] can
    raise. *)
Fixpoint omap_list {A B} (f : A -> outcome B) (l : list A) : outcome (list B) :=
  match l with
  | [] => Ok []
  | x :: r =>
      let? y := f x in
      let? ys := omap_list f r in
      Ok (y :: ys)
  end.

Fixpoint ofilter {A} (p : A -> outcome bool) (l : list A) : outcome (list A) :=
  match l with
  | [] => Ok []
  | x :: r =>
      let? b := p x in
      let? ys := ofilter p r in
      Ok (if b then x :: ys else ys)
  end.

(** [max(l, default=d)]: the default only serves the empty list; otherwise
    the items are scanned left to right with [item > maxitem]. *)
Fixpoint py_max_from (cur : pyval) (l : list pyval) : outcome pyval :=
  match l with
  | [] => Ok cur
  | x :: r =>
      let? b := py_gt x cur in
      py_max_from (if b then x else cur) r
  end.

Definition py_max (l : list pyval) (default : pyval) : outcome pyval :=
  match l with
  | [] => Ok default
  | x :: r => py_max_from x r
  end.

(** [v + 1]. *)
Definition py_add1 (v : pyval) : outcome pyval :=
  match v with
  | PInt z => Ok (PInt (z + 1))
  | _ => Raised TypeError
  end.

(** [str(n)] of an integer, as an f-string prints it. *)
Definition str_of_int (z : Z) : string := pretty z.

(** [sep.join(l)]. *)
Fixpoint join (sep : string) (l : list string) : string :=
  match l with
  | [] => ""
  | [x] => x
  | x :: r => x +:+ sep +:+ join sep r
  end.

(** [s.lower()] on ASCII text: one [ascii] is one byte here, and only the
    letters A to Z are folded.  Python also folds the letters outside
    ASCII; the model of the search filter is that of the code on ASCII
    titles, descriptions and search strings only. *)
Definition lower_ascii (c : ascii) : ascii :=
  let n := Ascii.nat_of_ascii c in
  if ((65 <=? n) && (n <=? 90))%nat then Ascii.ascii_of_nat (n + 32) else c.

Fixpoint lower (s : string) : string :=
  match s with
  | EmptyString => EmptyString
  | String c r => String (lower_ascii c) (lower r)
  end.

(** [sub in s] on strings. *)
Fixpoint prefixb (p s : string) : bool :=
  match p, s with
  | EmptyString, _ => true
  | String a p', String b s' => Ascii.eqb a b && prefixb p' s'
  | String _ _, EmptyString => false
  end.

Fixpoint substringb (sub s : string) : bool :=
  prefixb sub s ||
  match s with
  | EmptyString => false
  | String _ s' => substringb sub s'
  end.

(** [l[a:b]] with Python's treatment of negative and oversized bounds. *)
Definition clamp_index (n i : Z) : Z :=
  if i <? 0 then Z.max (i + n) 0 else Z.min i n.

Definition py_slice {A} (l : list A) (a b : Z) : list A :=
  let n := Z.of_nat (length l) in
  let lo := clamp_index n a in
  let hi := clamp_index n b in
  take (Z.to_nat (hi - lo)) (drop (Z.to_nat lo) l).

(** ** The outside world *)

(** What the backing file holds: a text that [json.loads] turns into the
    list of records [todos] (and that [json.dumps] writes for it), or a text
    that [json.loads] rejects with [JSONDecodeError]. *)
Inductive file_content :=
  | Json (todos : list todo)
  | Garbage (raw : string).

(** How the write of [_save_todos] ends: the document is written; or
    [open] fails and the file is as before; or the file was opened (and so
    truncated) and the write stopped, leaving the unparseable text [raw]. *)
Inductive write_outcome :=
  | WriteOk
  | WriteRefused
  | WriteTorn (raw : string).

Record environment := {
  now_at : nat -> Z;              (* n-th reading of the clock, microseconds *)
  isoformat : Z -> string;        (* datetime.isoformat() *)
  strftime_stamp : Z -> string;   (* strftime("%Y%m%d_%H%M%S") *)
  today_iso : Z -> string;        (* date.today().isoformat() *)
  strptime_ok : string -> bool;   (* strptime(s, "%Y-%m-%d") does not raise *)
  read_fails : bool;              (* opening or reading the file raises *)
  write_result : write_outcome;
  copy_fails : string -> bool;    (* makedirs/copy2 to this path raises *)
  copy_residue : string -> option file_content
    (* what a copy that raises leaves at this path: nothing, or the empty,
       partial or complete file that copy2 had created when it raised *)
}.

(** The manager object ([self]), the files it owns, and the number of clock
    readings made so far. *)
Record world := {
  file_path : string;
  backup_dir : string;
  _todos_cache : option (list todo);
  _last_load_time : option Z;
  file : option file_content;
  backups : gmap string file_content;
  tick : nat
}.

Definition set_cache (c : option (list todo)) (w : world) : world :=
  {| file_path := file_path w; backup_dir := backup_dir w;
     _todos_cache := c; _last_load_time := _last_load_time w;
     file := file w; backups := backups w; tick := tick w |}.

Definition set_last_load_time (t : option Z) (w : world) : world :=
  {| file_path := file_path w; backup_dir := backup_dir w;
     _todos_cache := _todos_cache w; _last_load_time := t;
     file := file w; backups := backups w; tick := tick w |}.

Definition set_file (f : option file_content) (w : world) : world :=
  {| file_path := file_path w; backup_dir := backup_dir w;
     _todos_cache := _todos_cache w; _last_load_time := _last_load_time w;
     file := f; backups := backups w; tick := tick w |}.

Definition set_backups (b : gmap string file_content) (w : world) : world :=
  {| file_path := file_path w; backup_dir := backup_dir w;
     _todos_cache := _todos_cache w; _last_load_time := _last_load_time w;
     file := file w; backups := b; tick := tick w |}.

Definition set_tick (n : nat) (w : world) : world :=
  {| file_path := file_path w; backup_dir := backup_dir w;
     _todos_cache := _todos_cache w; _last_load_time := _last_load_time w;
     file := file w; backups := backups w; tick := n |}.

(** ** The monad of manager code *)

Definition M (A : Type) : Type := world -> outcome A * world.

Definition ret {A} (a : A) : M A := fun w => (Ok a, w).

Definition raise {A} (e : exn) : M A := fun w => (Raised e, w).

Definition bind {A B} (m : M A) (k : A -> M B) : M B :=
  fun w =>
    match m w with
    | (Ok a, w') => k a w'
    | (Raised e, w') => (Raised e, w')
    end.

(** [try: m  except Exception: h]. *)
Definition try_except {A} (m : M A) (h : exn -> M A) : M A :=
  fun w =>
    match m w with
    | (Ok a, w') => (Ok a, w')
    | (Raised e, w') => h e w'
    end.

Definition lift {A} (o : outcome A) : M A := fun w => (o, w).

Definition gets {A} (f : world -> A) : M A := fun w => (Ok (f w), w).

Definition modify (f : world -> world) : M unit := fun w => (Ok tt, f w).

Notation "'let*' x := m 'in' k" := (bind m (fun x => k))
  (at level 10, x name, m at level 100, k at level 200, only parsing).
Notation "m ;; k" := (bind m (fun _ => k))
  (at level 100, k at level 200, right associativity, only parsing).

(** [os.path.join(a, b)] for a relative [b]. *)
Fixpoint ends_with_slash (s : string) : bool :=
  match s with
  | EmptyString => false
  | String c EmptyString => Ascii.eqb c "/"%char
  | String _ r => ends_with_slash r
  end.

Definition path_join (a b : string) : string :=
  if String.eqb a "" then b
  else if ends_with_slash a then a +:+ b
  else a +:+ "/" +:+ b.

Definition VALID_STATUSES : list string :=
  ["pending"; "in_progress"; "done"; "cancelled"].

Definition VALID_PRIORITIES : list string :=
  ["low"; "medium"; "high"; "critical"].

(** [x in l] for a string [x] and a list of strings. *)
Definition str_in (x : string) (l : list string) : bool :=
  existsb (String.eqb x) l.

Section Manager.

Variable E : environment.

(** [datetime.now()]: the next reading of the clock. *)
Definition datetime_now : M Z :=
  fun w => (Ok (now_at E (tick w)), set_tick (S (tick w)) w).

(** [os.path.exists(self.file_path)]. *)
Definition path_exists : M bool :=
  gets (fun w => match file w with Some _ => true | None => false end).

(** [async with aiofiles.open(self.file_path, mode="r") as f: await f.read()]. *)
Definition read_file : M file_content :=
  fun w =>
    match file w with
    | None => (Raised OSError, w)
    | Some c => if read_fails E then (Raised OSError, w) else (Ok c, w)
    end.

(** [json.loads(content)]. *)
Definition json_loads (c : file_content) : M (list todo) :=
  match c with
  | Json todos => ret todos
  | Garbage _ => raise JSONDecodeError
  end.

(** [async with aiofiles.open(self.file_path, mode="w") as f:
       await f.write(json.dumps(todos, indent=2))]. *)
Definition write_file (todos : list todo) : M unit :=
  fun w =>
    match write_result E with
    | WriteOk => (Ok tt, set_file (Some (Json todos)) w)
    | WriteRefused => (Raised OSError, w)
    | WriteTorn raw => (Raised OSError, set_file (Some (Garbage raw)) w)
    end.

(** [os.makedirs(self.backup_dir, exist_ok=True);
     shutil.copy2(self.file_path, backup_path)].  [copy2] creates its
    destination before it writes to it: a copy that raises may have left
    nothing, an empty file, a part of the content or all of it at
    [backup_path], as the environment says. *)
Definition copy_file (backup_path : string) : M unit :=
  fun w =>
    match file w with
    | None => (Raised OSError, w)
    | Some c =>
        if copy_fails E backup_path then
          (Raised OSError,
           match copy_residue E backup_path with
           | Some rest => set_backups (<[backup_path := rest]> (backups w)) w
           | None => w
           end)
        else (Ok tt, set_backups (<[backup_path := c]> (backups w)) w)
    end.

Definition backup_filename (timestamp : string) (suffix : option string) : string :=
  let suffix_str :=
    match suffix with
    | Some s => if String.eqb s "" then "" else "_" +:+ s
    | None => ""
    end in
  "todos_backup_" +:+ timestamp +:+ suffix_str +:+ ".json".

(** [TodoManager._create_backup]: the path of the copy, or [None]. *)
Definition _create_backup (suffix : option string) : M (option string) :=
  let* ex := path_exists in
  if negb ex then ret None
  else
    let* t := datetime_now in
    let timestamp := strftime_stamp E t in
    let* dir := gets backup_dir in
    let backup_path := path_join dir (backup_filename timestamp suffix) in
    try_except
      (copy_file backup_path ;; ret (Some backup_path))
      (fun _ => ret None).

(** The [try:] block of [_load_todos]: the read of the backing file, with
    its two handlers. *)
Definition _load_from_disk (current_time : Z) : M (list todo) :=
  try_except
    (let* ex := path_exists in
     if negb ex then
       modify (set_cache (Some [])) ;;
       modify (set_last_load_time (Some current_time)) ;;
       ret []
     else
       let* content := read_file in
       try_except
         (let* todos := json_loads content in
          modify (set_cache (Some todos)) ;;
          modify (set_last_load_time (Some current_time)) ;;
          ret todos)
         (fun e =>
            match e with
            | JSONDecodeError =>
                _create_backup (Some "corrupted") ;;
                modify (set_cache (Some [])) ;;
                modify (set_last_load_time (Some current_time)) ;;
                ret []
            | _ => raise e
            end))
    (fun _ =>
       modify (set_cache (Some [])) ;;
       modify (set_last_load_time (Some current_time)) ;;
       ret []).

(** [TodoManager._load_todos]. *)
Definition _load_todos (force_reload : bool) : M (list todo) :=
  let* current_time := datetime_now in
  let* cache := gets _todos_cache in
  let* last := gets _last_load_time in
  match force_reload, cache, last with
  | false, Some c, Some t =>
      if current_time - t <? 5000000 then ret c
      else _load_from_disk current_time
  | _, _, _ => _load_from_disk current_time
  end.

(** [TodoManager._save_todos]. *)
Definition _save_todos (todos : list todo) : M bool :=
  try_except
    (_create_backup None ;;
     write_file todos ;;
     modify (set_cache (Some todos)) ;;
     let* t := datetime_now in
     modify (set_last_load_time (Some t)) ;;
     ret true)
    (fun _ => ret false).

(** ** Validation and serialisation *)

(** [TodoManager._validate_date]: [strptime] raises [TypeError] on a value
    that is not a string; only [ValueError] is caught. *)
Definition _validate_date (date_str : pyval) : outcome bool :=
  if negb (truthy date_str) then Ok true
  else
    match date_str with
    | PStr s => Ok (strptime_ok E s)
    | _ => Raised TypeError
    end.

(** [v not in VALID] for a list of strings [VALID]. *)
Definition not_in_strings (v : pyval) (valid : list string) : bool :=
  match v with
  | PStr s => negb (str_in s valid)
  | _ => true
  end.

Definition is_list (v : pyval) : bool :=
  match v with
  | PList _ => true
  | _ => false
  end.

(** [TodoManager._validate_todo]. *)
Definition _validate_todo (t : todo) : outcome (list string) :=
  let? e_title :=
    if negb (truthy (dict_get t "title" PNone)) then Ok ["Title is required"]
    else
      let? n := py_len (dict_get t "title" (PStr "")) in
      Ok (if 100 <? n then ["Title must be less than 100 characters"] else []) in
  let? n := py_len (dict_get t "description" (PStr "")) in
  let e_description :=
    if 1000 <? n then ["Description must be less than 1000 characters"] else [] in
  let? e_due :=
    if truthy (dict_get t "due_date" PNone) then
      let? ok := _validate_date (dict_get t "due_date" PNone) in
      Ok (if negb ok then ["Due date must be in YYYY-MM-DD format"] else [])
    else Ok [] in
  let e_status :=
    if truthy (dict_get t "status" PNone)
       && not_in_strings (dict_get t "status" PNone) VALID_STATUSES
    then ["Status must be one of: " +:+ join ", " VALID_STATUSES] else [] in
  let e_priority :=
    if truthy (dict_get t "priority" PNone)
       && not_in_strings (dict_get t "priority" PNone) VALID_PRIORITIES
    then ["Priority must be one of: " +:+ join ", " VALID_PRIORITIES] else [] in
  let e_tags :=
    if truthy (dict_get t "tags" PNone) && negb (is_list (dict_get t "tags" PNone))
    then ["Tags must be a list"] else [] in
  Ok (e_title ++ e_description ++ e_due ++ e_status ++ e_priority ++ e_tags)%list.

(** [TodoManager._serialize_todo]. *)
Definition _serialize_todo (t : todo) : outcome todo :=
  let? id := getitem t "id" in
  let? title := getitem t "title" in
  Ok (<["id" := id]>
     (<["title" := title]>
     (<["description" := dict_get t "description" (PStr "")]>
     (<["due_date" := dict_get t "due_date" PNone]>
     (<["status" := dict_get t "status" (PStr "pending")]>
     (<["priority" := dict_get t "priority" (PStr "medium")]>
     (<["tags" := dict_get t "tags" (PList [])]>
     (<["created_at" := dict_get t "created_at" PNone]>
     (<["updated_at" := dict_get t "updated_at" PNone]> ∅))))))))).

(** The uniform result of a manager operation. *)
Inductive result :=
  | SuccessTodo (t : todo)
  | SuccessMessage (message : string)
  | SuccessList (todos : list todo) (total_count limit offset : Z)
  | SuccessBackup (backup_path : string)
  | Failure (errors : list string).

(** An [Optional[str]] argument as a Python value. *)
Definition opt_str (o : option string) : pyval :=
  match o with
  | Some s => PStr s
  | None => PNone
  end.

(** ** add_todo *)

Definition add_todo (title description : string) (due_date : option string)
    (status priority : string) (tags : option (list string)) : M result :=
  let* created := datetime_now in
  let* updated := datetime_now in
  let t : todo :=
    <["title" := PStr title]>
    (<["description" := PStr description]>
    (<["due_date" := opt_str due_date]>
    (<["status" := PStr status]>
    (<["priority" := PStr priority]>
    (<["tags" := PList (default [] tags)]>
    (<["created_at" := PStr (isoformat E created)]>
    (<["updated_at" := PStr (isoformat E updated)]> ∅))))))) in
  let* validation_errors := lift (_validate_todo t) in
  match validation_errors with
  | _ :: _ => ret (Failure validation_errors)
  | [] =>
      let* todos := _load_todos true in
      let* ids := lift (omap_list (fun x => getitem x "id") todos) in
      let* m := lift (py_max ids (PInt 0)) in
      let* todo_id := lift (py_add1 m) in
      let t := <["id" := todo_id]> t in
      let todos := (todos ++ [t])%list in
      let* saved := _save_todos todos in
      if saved then
        let* s := lift (_serialize_todo t) in
        ret (SuccessTodo s)
      else ret (Failure ["Failed to save todo"])
  end.

(** ** list_todos *)

(** [list.sort(key=..., reverse=...)].  CPython sorts with a stable merge
    sort that compares keys with [<] only, and for [reverse=True] reverses
    the list, sorts it, and reverses the result.  What a caller can observe
    is the stably sorted list, or the [TypeError] of a comparison between
    keys that have no order; a sort of two or more items compares every key
    at least once.  The insertion sort below has the same result and raises
    in the same cases. *)
Fixpoint insert_keyed {A} (k : pyval) (x : A) (s : list (pyval * A))
    : outcome (list (pyval * A)) :=
  match s with
  | [] => Ok [(k, x)]
  | (k', y) :: r =>
      let? b := py_lt k' k in
      if b then
        let? r' := insert_keyed k x r in
        Ok ((k', y) :: r')
      else Ok ((k, x) :: (k', y) :: r)
  end.

Fixpoint sort_keyed {A} (l : list (pyval * A)) : outcome (list (pyval * A)) :=
  match l with
  | [] => Ok []
  | (k, x) :: r =>
      let? s := sort_keyed r in
      insert_keyed k x s
  end.

Definition list_sort {A} (key : A -> pyval) (reverse : bool) (l : list A)
    : outcome (list A) :=
  let keyed := (fun x => (key x, x)) <$> l in
  let? s := sort_keyed (if reverse then list.reverse keyed else keyed) in
  Ok (snd <$> (if reverse then list.reverse s else s)).

(** [if arg:] for an [Optional[str]] argument. *)
Definition given (o : option string) : option string :=
  match o with
  | Some s => if String.eqb s "" then None else Some s
  | None => None
  end.

(** [v.lower()]: only strings have the method. *)
Definition py_lower (v : pyval) : outcome string :=
  match v with
  | PStr s => Ok (lower s)
  | _ => Raised AttributeError
  end.

(** [tag in v]. *)
Definition py_contains (v : pyval) (tag : string) : outcome bool :=
  match v with
  | PList l => Ok (str_in tag l)
  | PStr s => Ok (substringb tag s)
  | _ => Raised TypeError
  end.

Definition matches_search (search_lower : string) (t : todo) : outcome bool :=
  let? title := py_lower (dict_get t "title" (PStr "")) in
  if substringb search_lower title then Ok true
  else
    let? description := py_lower (dict_get t "description" (PStr "")) in
    Ok (substringb search_lower description).

Definition is_overdue (today : string) (t : todo) : outcome bool :=
  if truthy (dict_get t "due_date" PNone)
  then py_lt (dict_get t "due_date" PNone) (PStr today)
  else Ok false.

Definition is_upcoming (today : string) (t : todo) : outcome bool :=
  if truthy (dict_get t "due_date" PNone)
  then py_gt (dict_get t "due_date" PNone) (PStr today)
  else Ok false.

Definition valid_sort_fields : list string :=
  ["id"; "title"; "due_date"; "status"; "priority"; "created_at"; "updated_at"].

(** A computation that either goes on with a value or returns early from
    the enclosing function with a result. *)
Definition filter_step (o : option string)
    (step : string -> list todo -> M (list todo + result))
    (l : list todo) : M (list todo + result) :=
  match given o with
  | Some s => step s l
  | None => ret (inl l)
  end.

Definition by_status (status : string) (l : list todo) : M (list todo + result) :=
  if negb (str_in status VALID_STATUSES) then
    ret (inr (Failure ["Invalid status. Must be one of: " +:+ join ", " VALID_STATUSES]))
  else ret (inl (filter (fun t => py_eq (dict_get t "status" PNone) (PStr status) = true) l)).

Definition by_priority (priority : string) (l : list todo) : M (list todo + result) :=
  if negb (str_in priority VALID_PRIORITIES) then
    ret (inr (Failure ["Invalid priority. Must be one of: " +:+ join ", " VALID_PRIORITIES]))
  else ret (inl (filter (fun t => py_eq (dict_get t "priority" PNone) (PStr priority) = true) l)).

Definition by_search (search : string) (l : list todo) : M (list todo + result) :=
  let* r := lift (ofilter (matches_search (lower search)) l) in
  ret (inl r).

Definition by_tag (tag : string) (l : list todo) : M (list todo + result) :=
  let* r := lift (ofilter (fun t => py_contains (dict_get t "tags" (PList [])) tag) l) in
  ret (inl r).

Definition by_due_date (due_date_filter : string) (l : list todo)
    : M (list todo + result) :=
  let* now := datetime_now in
  let today := today_iso E now in
  if String.eqb due_date_filter "overdue" then
    let* r := lift (ofilter (is_overdue today) l) in ret (inl r)
  else if String.eqb due_date_filter "today" then
    ret (inl (filter (fun t => py_eq (dict_get t "due_date" PNone) (PStr today) = true) l))
  else if String.eqb due_date_filter "upcoming" then
    let* r := lift (ofilter (is_upcoming today) l) in ret (inl r)
  else if String.eqb due_date_filter "no_date" then
    ret (inl (filter (fun t => negb (truthy (dict_get t "due_date" PNone)) = true) l))
  else
    ret (inr (Failure
      ["Invalid due_date_filter. Must be one of: overdue, today, upcoming, no_date"])).

(** Run the next step unless an earlier one already returned. *)
Definition and_then (m : M (list todo + result))
    (k : list todo -> M (list todo + result)) : M (list todo + result) :=
  let* r := m in
  match r with
  | inl l => k l
  | inr res => ret (inr res)
  end.

(** The filters of [list_todos], in the order of the source. *)
Definition apply_filters (status priority search tag due_date_filter : option string)
    (todos : list todo) : M (list todo + result) :=
  and_then (and_then (and_then (and_then
    (filter_step status by_status todos)
    (filter_step priority by_priority))
    (filter_step search by_search))
    (filter_step tag by_tag))
    (filter_step due_date_filter by_due_date).

(** The sort of [list_todos]: [filtered_todos.sort(key=lambda x:
    x.get(sort_by, ""), reverse=reverse)]. *)
Definition sort_todos (sort_by sort_order : string) (l : list todo)
    : outcome (list todo) :=
  let reverse := String.eqb (lower sort_order) "desc" in
  list_sort (fun x => dict_get x sort_by (PStr "")) reverse l.

Definition list_todos (status priority search tag due_date_filter : option string)
    (sort_by sort_order : string) (limit offset : Z) : M result :=
  let* todos := _load_todos false in
  let* filtered := apply_filters status priority search tag due_date_filter todos in
  match filtered with
  | inr res => ret res
  | inl filtered_todos =>
      if negb (str_in sort_by valid_sort_fields) then
        ret (Failure ["Invalid sort_by. Must be one of: " +:+ join ", " valid_sort_fields])
      else
        let* sorted := lift (sort_todos sort_by sort_order filtered_todos) in
        let total_count := Z.of_nat (length sorted) in
        let paginated_todos := py_slice sorted offset (offset + limit) in
        let* serialized_todos := lift (omap_list _serialize_todo paginated_todos) in
        ret (SuccessList serialized_todos total_count limit offset)
  end.

(** ** update_todo, complete_todo *)

(** The loop that looks for the first record whose id equals [todo_id]. *)
Fixpoint find_index (todo_id : Z) (todos : list todo) (i : nat) : outcome (option nat) :=
  match todos with
  | [] => Ok None
  | t :: r =>
      let? v := getitem t "id" in
      if py_eq v (PInt todo_id) then Ok (Some i) else find_index todo_id r (S i)
  end.

(** [if arg is not None: d[k] = arg]. *)
Definition set_if_given (k : string) (arg : option pyval) (d : todo) : todo :=
  match arg with
  | Some v => <[k := v]> d
  | None => d
  end.

Definition update_todo (todo_id : Z) (title description due_date status priority : option string)
    (tags : option (list string)) : M result :=
  let* todos := _load_todos true in
  let* todo_index := lift (find_index todo_id todos 0) in
  match todo_index with
  | None => ret (Failure ["Todo " +:+ str_of_int todo_id +:+ " not found"])
  | Some i =>
      match todos !! i with
      | None => raise IndexError
      | Some old =>
          let updated_todo :=
            set_if_given "tags" (PList <$> tags)
            (set_if_given "priority" (PStr <$> priority)
            (set_if_given "status" (PStr <$> status)
            (set_if_given "due_date" (PStr <$> due_date)
            (set_if_given "description" (PStr <$> description)
            (set_if_given "title" (PStr <$> title) old))))) in
          let* now := datetime_now in
          let updated_todo := <["updated_at" := PStr (isoformat E now)]> updated_todo in
          let* validation_errors := lift (_validate_todo updated_todo) in
          match validation_errors with
          | _ :: _ => ret (Failure validation_errors)
          | [] =>
              let todos := <[i := updated_todo]> todos in
              let* saved := _save_todos todos in
              if saved then
                let* s := lift (_serialize_todo updated_todo) in
                ret (SuccessTodo s)
              else ret (Failure ["Failed to save todo"])
          end
      end
  end.

Definition complete_todo (todo_id : Z) : M result :=
  update_todo todo_id None None None (Some "done") None None.

(** ** delete_todo, batch_delete_todos, create_backup *)

Definition delete_todo (todo_id : Z) : M result :=
  let* todos := _load_todos true in
  let original_length := length todos in
  let* new_todos :=
    lift (ofilter (fun t => let? v := getitem t "id" in
                            Ok (negb (py_eq v (PInt todo_id)))) todos) in
  if Nat.eqb (length new_todos) original_length then
    ret (Failure ["Todo " +:+ str_of_int todo_id +:+ " not found"])
  else
    let* saved := _save_todos new_todos in
    if saved then ret (SuccessMessage ("Todo " +:+ str_of_int todo_id +:+ " deleted"))
    else ret (Failure ["Failed to save todos"]).

(** [v in todo_ids] for a list of integers. *)
Definition in_ids (v : pyval) (todo_ids : list Z) : bool :=
  existsb (fun z => py_eq v (PInt z)) todo_ids.

Definition batch_delete_todos (todo_ids : list Z) : M result :=
  let* todos := _load_todos true in
  let original_length := Z.of_nat (length todos) in
  let* new_todos :=
    lift (ofilter (fun t => let? v := getitem t "id" in
                            Ok (negb (in_ids v todo_ids))) todos) in
  let deleted_count := original_length - Z.of_nat (length new_todos) in
  if deleted_count =? 0 then ret (Failure ["No matching todos found"])
  else
    let* saved := _save_todos new_todos in
    if saved then ret (SuccessMessage (str_of_int deleted_count +:+ " todos deleted"))
    else ret (Failure ["Failed to save todos"]).

Definition create_backup : M result :=
  let* backup_path := _create_backup (Some "manual") in
  match backup_path with
  | Some p => if String.eqb p "" then ret (Failure ["Failed to create backup"])
              else ret (SuccessBackup p)
  | None => ret (Failure ["Failed to create backup"])
  end.

(** ** Vocabulary of the statements *)

(** What a read of the backing file yields: its records, or nothing when
    the file is missing, unreadable or unparseable. *)
Definition disk_todos (w : world) : list todo :=
  match file w with
  | Some (Json l) => if read_fails E then [] else l
  | _ => []
  end.

(** The load is served from the cache. *)
Definition cache_hit (force_reload : bool) (w : world) : bool :=
  match force_reload, _todos_cache w, _last_load_time w with
  | false, Some _, Some t => now_at E (tick w) - t <? 5000000
  | _, _, _ => false
  end.

(** The record that [update_todo] builds from the stored one. *)
Definition merged (old : todo) (now : Z)
    (title description due_date status priority : option string)
    (tags : option (list string)) : todo :=
  <["updated_at" := PStr (isoformat E now)]>
    (set_if_given "tags" (PList <$> tags)
    (set_if_given "priority" (PStr <$> priority)
    (set_if_given "status" (PStr <$> status)
    (set_if_given "due_date" (PStr <$> due_date)
    (set_if_given "description" (PStr <$> description)
    (set_if_given "title" (PStr <$> title) old)))))).

End Manager.

(** A field that holds a value: the key is there and the value is not
    [None]. *)
Definition has_value (o : option pyval) : Prop :=
  exists v, o = Some v /\ v <> PNone.

(** The ids of a list of records, as stored ([None] for a record without
    the key). *)
Definition record_ids (l : list todo) : list (option pyval) :=
  (fun t : todo => t !! "id") <$> l.

(** No two records share an id. *)
Definition ids_unique (l : list todo) : Prop := NoDup (record_ids l).

(** The uniqueness invariant of the store: it holds of the records in the
    backing file and of the records in the cache. *)
Definition store_unique (w : world) : Prop :=
  (forall l, file w = Some (Json l) -> ids_unique l) /\
  (forall l, _todos_cache w = Some l -> ids_unique l).

(** The path of the backup that a load takes of a corrupted file. *)
Definition corrupted_backup_path (E : environment) (w : world) : string :=
  path_join (backup_dir w)
    ("todos_backup_" +:+ strftime_stamp E (now_at E (S (tick w))) +:+ "_corrupted.json").

(** [max(zs, default=d)] on integers. *)
Definition max_default (zs : list Z) (d : Z) : Z :=
  match zs with
  | [] => d
  | z :: r => fold_left Z.max r z
  end.

(** ** Sample data *)

Definition sample_env : environment := {|
  now_at := fun n => Z.of_nat n * 1000000;
  isoformat := fun z => "T" +:+ str_of_int z;
  strftime_stamp := fun z => "S" +:+ str_of_int z;
  today_iso := fun _ => "2025-01-01";
  strptime_ok := fun s => Nat.eqb (String.length s) 10;
  read_fails := false;
  write_result := WriteOk;
  copy_fails := fun _ => false;
  copy_residue := fun _ => None |}.

(** The same machine with a disk that refuses writes. *)
Definition readonly_env : environment := {|
  now_at := now_at sample_env;
  isoformat := isoformat sample_env;
  strftime_stamp := strftime_stamp sample_env;
  today_iso := today_iso sample_env;
  strptime_ok := strptime_ok sample_env;
  read_fails := false;
  write_result := WriteRefused;
  copy_fails := fun _ => false;
  copy_residue := fun _ => None |}.

(** The same machine with a backup directory on a full disk: every copy
    raises after it has created an empty file at the destination. *)
Definition torn_copy_env : environment := {|
  now_at := now_at sample_env;
  isoformat := isoformat sample_env;
  strftime_stamp := strftime_stamp sample_env;
  today_iso := today_iso sample_env;
  strptime_ok := strptime_ok sample_env;
  read_fails := false;
  write_result := WriteOk;
  copy_fails := fun _ => true;
  copy_residue := fun _ => Some (Garbage "") |}.

(** A fresh manager: no file yet, nothing cached. *)
Definition fresh_world : world := {|
  file_path := "todos.json";
  backup_dir := "backups";
  _todos_cache := None;
  _last_load_time := None;
  file := None;
  backups := ∅;
  tick := 0 |}.

(** The same manager in front of a file that is not JSON. *)
Definition corrupted_world : world := set_file (Some (Garbage "{oops")) fresh_world.

(** A manager that loaded an empty store at time 0 and is asked again one
    clock reading later. *)
Definition warm_world : world :=
  set_tick 1 (set_last_load_time (Some 0) (set_cache (Some []) fresh_world)).

(** The store after two plain [add_todo] calls, neither with a due date. *)
Definition two_todos_world : world :=
  snd (add_todo sample_env "b" "" None "pending" "medium" None
    (snd (add_todo sample_env "a" "" None "pending" "medium" None fresh_world))).

(** [m] keeps the uniqueness invariant, however it ends, and a value it
    returns satisfies [Q]. *)
Definition keeps_unique {A} (m : M A) (Q : A -> Prop) : Prop :=
  forall w, store_unique w ->
    store_unique (snd (m w)) /\ forall a, fst (m w) = Ok a -> Q a.

(** The record and the state that a third [add_todo] on [two_todos_world]
    produces. *)
Definition third_run : outcome result * world :=
  add_todo sample_env "c" "" None "pending" "medium" None two_todos_world.

Definition third_todo : todo :=
  match fst third_run with
  | Ok (SuccessTodo t) => t
  | _ => ∅
  end.

(** The runs used as examples of [complete_todo] and [update_todo]. *)
Definition complete_run : outcome result * world :=
  complete_todo sample_env 2 two_todos_world.

Definition completed_todo : todo :=
  match fst complete_run with
  | Ok (SuccessTodo t) => t
  | _ => ∅
  end.

Definition retitle_run : outcome result * world :=
  update_todo sample_env 1 (Some "x") None None None None None two_todos_world.

(** A store with one record that has a due date, and the update that
    passes the empty string for it. *)
Definition dated_world : world :=
  snd (add_todo sample_env "a" "" (Some "2025-06-01") "pending" "medium" None
         fresh_world).

Definition undate_run : outcome result * world :=
  update_todo sample_env 1 None None (Some "") None None None dated_world.

(** The titles that [list_todos] returns for the [no_date] filter. *)
Definition no_date_titles (w : world) : option (list (option pyval)) :=
  match fst (list_todos sample_env None None None None (Some "no_date")
               "created_at" "asc" 100 0 w) with
  | Ok (SuccessList out _ _ _) => Some ((fun t : todo => t !! "title") <$> out)
  | _ => None
  end.

(** A filter that returns early returns a failure result. *)
Definition fails_only (step : list todo -> M (list todo + result)) : Prop :=
  forall l w res w', step l w = (Ok (inr res), w') -> exists errs, res = Failure errs.

(** The items whose key is [v], in order. *)
Definition with_key {A} (v : pyval) (s : list (pyval * A)) : list (pyval * A) :=
  filter (fun p => p.1 = v) s.

(** A listing of the sample store by status, descending: both records are
    [pending]. *)
Definition desc_run : outcome result * world :=
  list_todos sample_env None None None None None "status" "desc" 100 0
    two_todos_world.

Definition desc_page : list todo :=
  match fst desc_run with
  | Ok (SuccessList out _ _ _) => out
  | _ => []
  end.

(** ** get_todo, get_statistics *)

(** The loop of [get_todo]: the first record whose id is [todo_id],
    serialised. *)
Fixpoint get_loop (todo_id : Z) (todos : list todo) : outcome result :=
  match todos with
  | [] => Ok (Failure ["Todo " +:+ str_of_int todo_id +:+ " not found"])
  | t :: r =>
      let? v := getitem t "id" in
      if py_eq v (PInt todo_id) then
        let? s := _serialize_todo t in
        Ok (SuccessTodo s)
      else get_loop todo_id r
  end.

Definition get_todo (E : environment) (todo_id : Z) : M result :=
  let* todos := _load_todos E false in
  lift (get_loop todo_id todos).

(** [len([t for t in todos if p(t)])]. *)
Definition count_where (p : todo -> bool) (todos : list todo) : Z :=
  Z.of_nat (length (filter (fun t => p t = true) todos)).

(** The items that [set.update(v)] adds: the elements of a list, the
    characters of a string; other values are not iterable. *)
Fixpoint chars (s : string) : list string :=
  match s with
  | EmptyString => []
  | String c r => String c EmptyString :: chars r
  end.

Definition py_iter (v : pyval) : outcome (list string) :=
  match v with
  | PList l => Ok l
  | PStr s => Ok (chars s)
  | _ => Raised TypeError
  end.

(** The loop that collects [all_tags]. *)
Fixpoint collect_tags (todos : list todo) (all_tags : gset string)
    : outcome (gset string) :=
  match todos with
  | [] => Ok all_tags
  | t :: r =>
      let? items := py_iter (dict_get t "tags" (PList [])) in
      collect_tags r (list_to_set items ∪ all_tags)
  end.

(** The payload of [get_statistics]; its [success] flag is always true.
    The two dicts filled from the constant lists are association lists in
    insertion order; [tag_counts], filled while iterating over a set, is a
    map. *)
Record statistics := {
  total_count : Z;
  status_counts : list (string * Z);
  priority_counts : list (string * Z);
  overdue_count : Z;
  due_today_count : Z;
  upcoming_count : Z;
  no_date_count : Z;
  tag_counts : gmap string Z
}.

Definition get_statistics (E : environment) : M statistics :=
  let* todos := _load_todos E false in
  let status_counts :=
    (fun status =>
       (status, count_where (fun t => py_eq (dict_get t "status" PNone) (PStr status)) todos))
      <$> VALID_STATUSES in
  let priority_counts :=
    (fun priority =>
       (priority, count_where (fun t => py_eq (dict_get t "priority" PNone) (PStr priority)) todos))
      <$> VALID_PRIORITIES in
  let* now := datetime_now E in
  let today := today_iso E now in
  let* overdue := lift (ofilter (is_overdue today) todos) in
  let due_today :=
    count_where (fun t => py_eq (dict_get t "due_date" PNone) (PStr today)) todos in
  let* upcoming := lift (ofilter (is_upcoming today) todos) in
  let no_date := count_where (fun t => negb (truthy (dict_get t "due_date" PNone))) todos in
  let* all_tags := lift (collect_tags todos ∅) in
  let* counts :=
    lift (omap_list
            (fun tag =>
               let? with_tag :=
                 ofilter (fun t => py_contains (dict_get t "tags" (PList [])) tag) todos in
               Ok (tag, Z.of_nat (length with_tag)))
            (elements all_tags)) in
  ret {| total_count := Z.of_nat (length todos);
         status_counts := status_counts;
         priority_counts := priority_counts;
         overdue_count := Z.of_nat (length overdue);
         due_today_count := due_today;
         upcoming_count := Z.of_nat (length upcoming);
         no_date_count := no_date;
         tag_counts := list_to_map counts |}.

(** ** Vocabulary of the further statements *)

(** The path that [_create_backup] copies to when it is called in [w]. *)
Definition backup_path (E : environment) (suffix : option string) (w : world) : string :=
  path_join (backup_dir w)
    (backup_filename (strftime_stamp E (now_at E (tick w))) suffix).

(** The backup directory after a copy of [c] to [path] was attempted: the
    copy, or what the failed copy left there. *)
Definition backups_after_copy (E : environment) (path : string) (c : file_content)
    (b : gmap string file_content) : gmap string file_content :=
  if copy_fails E path then
    match copy_residue E path with
    | Some rest => <[path := rest]> b
    | None => b
    end
  else <[path := c]> b.

(** [m] leaves the backing file as it is, however it ends. *)
Definition keeps_file {A} (m : M A) : Prop :=
  forall w, file (snd (m w)) = file w.

(** The record that [add_todo] builds from its arguments before it is
    given an id. *)
Definition candidate (E : environment) (title description : string)
    (due_date : option string) (status priority : string)
    (tags : option (list string)) (created updated : Z) : todo :=
  <["title" := PStr title]>
  (<["description" := PStr description]>
  (<["due_date" := opt_str due_date]>
  (<["status" := PStr status]>
  (<["priority" := PStr priority]>
  (<["tags" := PList (default [] tags)]>
  (<["created_at" := PStr (isoformat E created)]>
  (<["updated_at" := PStr (isoformat E updated)]> ∅))))))).

(** The arguments that the validation of [add_todo] lets through: a title
    of 1 to 100 characters, a description of at most 1000, a due date that
    is missing, empty or well formed, and a status and a priority that are
    empty or among the valid values. *)
Definition acceptable (E : environment) (title description : string)
    (due_date : option string) (status priority : string) : bool :=
  negb (String.eqb title "")
  && (String.length title <=? 100)%nat
  && (String.length description <=? 1000)%nat
  && match due_date with
     | Some d => String.eqb d "" || strptime_ok E d
     | None => true
     end
  && (String.eqb status "" || str_in status VALID_STATUSES)
  && (String.eqb priority "" || str_in priority VALID_PRIORITIES).

(** The record has the id [todo_id]. *)
Definition has_id (todo_id : Z) (t : todo) : Prop :=
  t !! "id" = Some (PInt todo_id).

#[global] Instance has_id_dec (todo_id : Z) (t : todo) : Decision (has_id todo_id t).
Proof. unfold has_id. apply _. Defined.

(** The records that [delete_todo] and [batch_delete_todos] keep. *)
Definition without_id (todo_id : Z) (l : list todo) : list todo :=
  filter (fun t => ~ has_id todo_id t) l.

Definition without_ids (todo_ids : list Z) (l : list todo) : list todo :=
  filter (fun t => ~ Exists (fun z => has_id z t) todo_ids) l.

(** ** The tool layer *)

(** The tools registered with [@mcp.tool()] that return the uniform result:
    each forwards its arguments to the manager method of the same name. *)
Inductive call :=
  | AddTodo (title description : string) (due_date : option string)
      (status priority : string) (tags : option (list string))
  | ListTodos (status priority search tag due_date_filter : option string)
      (sort_by sort_order : string) (limit offset : Z)
  | GetTodo (todo_id : Z)
  | UpdateTodo (todo_id : Z) (title description due_date status priority : option string)
      (tags : option (list string))
  | CompleteTodo (todo_id : Z)
  | DeleteTodo (todo_id : Z)
  | BatchDeleteTodos (todo_ids : list Z)
  | CreateBackup.

Definition run_call (E : environment) (c : call) : M result :=
  match c with
  | AddTodo title description due_date status priority tags =>
      add_todo E title description due_date status priority tags
  | ListTodos status priority search tag due_date_filter sort_by sort_order limit offset =>
      list_todos E status priority search tag due_date_filter sort_by sort_order
        limit offset
  | GetTodo todo_id => get_todo E todo_id
  | UpdateTodo todo_id title description due_date status priority tags =>
      update_todo E todo_id title description due_date status priority tags
  | CompleteTodo todo_id => complete_todo E todo_id
  | DeleteTodo todo_id => delete_todo E todo_id
  | BatchDeleteTodos todo_ids => batch_delete_todos E todo_ids
  | CreateBackup => create_backup E
  end.

(** The tools that write the backing file. *)
Definition mutating (c : call) : bool :=
  match c with
  | AddTodo _ _ _ _ _ _ | UpdateTodo _ _ _ _ _ _ _ | CompleteTodo _
  | DeleteTodo _ | BatchDeleteTodos _ => true
  | _ => false
  end.

(** The [success] field of a result. *)
Definition is_success (r : result) : bool :=
  match r with
  | Failure _ => false
  | _ => true
  end.

(** The outcome of a call is a success result. *)
Definition succeeded (r : outcome result) : Prop :=
  exists x, r = Ok x /\ is_success x = true.

(** The backing file in [w'] is the one in [w], or what a torn write left. *)
Definition file_kept (w w' : world) : Prop :=
  file w' = file w \/ exists raw, file w' = Some (Garbage raw).

(** The statistics of the sample store. *)
Definition sample_statistics : statistics :=
  match fst (get_statistics sample_env two_todos_world) with
  | Ok s => s
  | Raised _ =>
      {| total_count := 0; status_counts := []; priority_counts := [];
         overdue_count := 0; due_today_count := 0; upcoming_count := 0;
         no_date_count := 0; tag_counts := ∅ |}
  end.

(** A page of the sample store: one record, skipping one. *)
Definition page_run : outcome result * world :=
  list_todos sample_env None None None None None "id" "asc" 1 1 two_todos_world.

Definition page_out : list todo :=
  match fst page_run with
  | Ok (SuccessList out _ _ _) => out
  | _ => []
  end.

(** The conditions that the status, priority and tag filters of a
    [list_todos] call put on a stored record. *)
Definition passes_filters (status priority tag : option string) (t : todo) : Prop :=
  (forall s, given status = Some s -> dict_get t "status" PNone = PStr s) /\
  (forall p, given priority = Some p -> dict_get t "priority" PNone = PStr p) /\
  (forall g, given tag = Some g ->
     py_contains (dict_get t "tags" (PList [])) g = Ok true).

(** Every item of the list is in relation [R] with the next one. *)
Fixpoint adjacent {A} (R : A -> A -> Prop) (l : list A) : Prop :=
  match l with
  | a :: r =>
      match r with
      | b :: _ => R a b
      | [] => True
      end /\ adjacent R r
  | [] => True
  end.

(** [b] does not sort before [a]: the comparison [b < a] is defined and
    false. *)
Definition not_after (key : todo -> pyval) (a b : todo) : Prop :=
  py_lt (key b) (key a) = Ok false.

(** A listing of the sample store with the status filter. *)
Definition pending_run : outcome result * world :=
  list_todos sample_env (Some "pending") None None None None "id" "asc" 100 0
    two_todos_world.

Definition pending_out : list todo :=
  match fst pending_run with
  | Ok (SuccessList out _ _ _) => out
  | _ => []
  end.

(** The sample records sorted by id, descending. *)
Definition sample_desc_sorted : list todo :=
  match sort_todos "id" "DESC" (disk_todos sample_env two_todos_world) with
  | Ok sorted => sorted
  | Raised _ => []
  end.

(** The sample machine with a file that cannot be read. *)
Definition unreadable_env : environment := {|
  now_at := now_at sample_env;
  isoformat := isoformat sample_env;
  strftime_stamp := strftime_stamp sample_env;
  today_iso := today_iso sample_env;
  strptime_ok := strptime_ok sample_env;
  read_fails := true;
  write_result := WriteOk;
  copy_fails := fun _ => false;
  copy_residue := fun _ => None |}.

(** The tags of a record whose [tags] field is a list. *)
Definition tags_of (t : todo) : list string :=
  match dict_get t "tags" (PList []) with
  | PList ls => ls
  | _ => []
  end.

(** The [tags] field of the record is a list. *)
Definition list_tags (t : todo) : Prop :=
  is_list (dict_get t "tags" (PList [])) = true.

(** A store with tags: one record tagged [home] and [urgent], one tagged
    [home], and its statistics. *)
Definition tagged_world : world :=
  snd (add_todo sample_env "b" "" None "pending" "medium" (Some ["home"])
    (snd (add_todo sample_env "a" "" None "pending" "medium"
            (Some ["home"; "urgent"]) fresh_world))).

Definition tagged_statistics : statistics :=
  match fst (get_statistics sample_env tagged_world) with
  | Ok s => s
  | Raised _ => sample_statistics
  end.

(** The sum of the counts of an association list. *)
Definition sum_counts (counts : list (string * Z)) : Z :=
  foldr (fun p acc => p.2 + acc) 0 counts.

(** The value is one of the given strings. *)
Definition in_strings (v : pyval) (valid : list string) : bool :=
  negb (not_in_strings v valid).

(** On keyed items: the second does not sort before the first. *)
Definition keyed_le {A} (p q : pyval * A) : Prop := py_lt q.1 p.1 = Ok false.

(** * Properties *)

(** ** What the internal steps do to the world *)

Arguments _create_backup : simpl never.
Arguments _load_todos : simpl never.
Arguments _save_todos : simpl never.

Ltac unfold_monad :=
  unfold bind, ret, raise, try_except, lift, gets, modify in *.

Section Steps.

Variable E : environment.

(** A backup never raises and only touches the backup directory and the
    clock. *)
Lemma _create_backup_frame (suffix : option string) (w : world) :
  exists r w',
    _create_backup E suffix w = (Ok r, w') /\
    file w' = file w /\
    _todos_cache w' = _todos_cache w /\
    _last_load_time w' = _last_load_time w /\
    backup_dir w' = backup_dir w /\
    file_path w' = file_path w.
Proof.
  unfold _create_backup, path_exists, datetime_now, copy_file.
  unfold_monad.
  destruct (file w) as [c|] eqn:Hf; simpl.
  - rewrite Hf.
    destruct (copy_fails E _); simpl; [|eauto 10].
    destruct (copy_residue E _); simpl; eauto 10.
  - eauto 10.
Qed.

(** Without a backing file a backup does nothing and returns [None]. *)
Lemma _create_backup_no_file (suffix : option string) (w : world) :
  file w = None -> _create_backup E suffix w = (Ok None, w).
Proof.
  intros Hf.
  unfold _create_backup, path_exists. unfold_monad.
  now rewrite Hf.
Qed.

Lemma _load_todos_hit (w : world) (c : list todo) :
  cache_hit E false w = true ->
  _todos_cache w = Some c ->
  _load_todos E false w = (Ok c, set_tick (S (tick w)) w).
Proof.
  unfold cache_hit, _load_todos, datetime_now. unfold_monad.
  intros Hhit Hc. simpl. rewrite Hc in *.
  destruct (_last_load_time w) as [t|]; [|discriminate].
  now rewrite Hhit.
Qed.

(** A load that is not served from the cache is the read of the backing
    file, with the time read at the start of the load. *)
Lemma _load_todos_miss_eq (force_reload : bool) (w : world) :
  cache_hit E force_reload w = false ->
  _load_todos E force_reload w
    = _load_from_disk E (now_at E (tick w)) (set_tick (S (tick w)) w).
Proof.
  intros Hmiss.
  unfold _load_todos, datetime_now. unfold bind at 1 2 3, gets. simpl.
  unfold cache_hit in Hmiss.
  destruct force_reload, (_todos_cache w), (_last_load_time w); try reflexivity.
  now rewrite Hmiss.
Qed.

(** A load that goes to the disk never raises; it returns what the disk
    yields, sets the cache to it and stamps it with the time read at the
    start of the load. *)
Lemma _load_todos_miss (force_reload : bool) (w : world) :
  cache_hit E force_reload w = false ->
  exists w',
    _load_todos E force_reload w = (Ok (disk_todos E w), w') /\
    file w' = file w /\
    _todos_cache w' = Some (disk_todos E w) /\
    _last_load_time w' = Some (now_at E (tick w)).
Proof.
  intros Hmiss. rewrite (_load_todos_miss_eq _ _ Hmiss).
  unfold _load_from_disk, disk_todos, path_exists, read_file, json_loads.
  unfold_monad. simpl.
  destruct (file w) as [[l|raw]|] eqn:Hf; simpl; rewrite ?Hf; simpl.
  - destruct (read_fails E); simpl; rewrite ?Hf; eauto 10.
  - destruct (read_fails E); simpl; rewrite ?Hf; eauto 10.
    destruct (_create_backup_frame (Some "corrupted")
                (set_tick (S (tick w)) w)) as (r & w1 & -> & Hf1 & _).
    simpl. eexists; split; [reflexivity|]. simpl. now rewrite Hf1.
  - eauto 10.
Qed.

(** In every case a load returns a list and leaves the backing file as it
    was. *)
Lemma _load_todos_total (force_reload : bool) (w : world) :
  exists l w',
    _load_todos E force_reload w = (Ok l, w') /\
    file w' = file w /\
    (cache_hit E force_reload w = true /\ _todos_cache w = Some l /\
       _todos_cache w' = _todos_cache w /\ _last_load_time w' = _last_load_time w
     \/
     cache_hit E force_reload w = false /\ l = disk_todos E w /\
       _todos_cache w' = Some l).
Proof.
  destruct (cache_hit E force_reload w) eqn:Hhit.
  - assert (force_reload = false) as ->.
    { unfold cache_hit in Hhit. now destruct force_reload. }
    destruct (_todos_cache w) as [c|] eqn:Hc.
    + exists c, (set_tick (S (tick w)) w).
      rewrite (_load_todos_hit w c Hhit Hc). simpl. rewrite Hc. auto 10.
    + unfold cache_hit in Hhit. now rewrite Hc in Hhit.
  - destruct (_load_todos_miss force_reload w Hhit) as (w' & H1 & H2 & H3 & H4).
    exists (disk_todos E w), w'. auto 10.
Qed.

End Steps.

Section Save.

Variable E : environment.

(** A save never raises.  It succeeds exactly when the write does; then the
    file and the cache hold the new records.  When the write fails the
    cache and its time stamp are as before, and the file is as before or
    torn. *)
Lemma _save_todos_spec (todos : list todo) (w : world) :
  exists b w',
    _save_todos E todos w = (Ok b, w') /\
    (b = true /\ write_result E = WriteOk /\
       file w' = Some (Json todos) /\ _todos_cache w' = Some todos
     \/
     b = false /\ write_result E <> WriteOk /\
       _todos_cache w' = _todos_cache w /\
       _last_load_time w' = _last_load_time w /\
       (file w' = file w \/ exists raw, file w' = Some (Garbage raw))).
Proof.
  unfold _save_todos.
  destruct (_create_backup_frame E None w) as (r & w1 & Hb & Hf & Hc & Hl & _).
  unfold try_except, bind at 1. rewrite Hb.
  unfold write_file, datetime_now. unfold_monad.
  destruct (write_result E) as [| |raw] eqn:Hw; simpl.
  - exists true. eexists. split; [reflexivity|]. left. auto.
  - exists false. eexists. split; [reflexivity|]. right.
    repeat split; auto; discriminate.
  - exists false. eexists. split; [reflexivity|]. right. simpl.
    repeat split; eauto; discriminate.
Qed.

End Save.

(** ** Persist, load and backup *)

(** C3.  When the write of the persist step fails (the disk refuses the
    write or tears the file), [_save_todos] returns its failure value
    [False], and the cache and the cached load time are exactly what they
    were before the call, for every list of records and every state. *)
Theorem save_failure_keeps_cache (E : environment) (todos : list todo) (w : world) :
  write_result E <> WriteOk ->
  exists w',
    _save_todos E todos w = (Ok false, w') /\
    _todos_cache w' = _todos_cache w /\
    _last_load_time w' = _last_load_time w.
Proof.
  intros Hfail.
  destruct (_save_todos_spec E todos w) as (b & w' & Hrun & [H|H]).
  - destruct H as (_ & Hok & _). contradiction.
  - destruct H as (-> & _ & Hc & Hl & _). eauto.
Qed.

Lemma save_failure_keeps_cache_witness :
  write_result readonly_env <> WriteOk /\
  exists w',
    _save_todos readonly_env [] warm_world = (Ok false, w') /\
    _todos_cache w' = _todos_cache warm_world /\
    _last_load_time w' = _last_load_time warm_world.
Proof.
  split; [discriminate|].
  apply (save_failure_keeps_cache readonly_env [] warm_world). discriminate.
Defined.

(** C4.  A load that goes to the disk and reads a file whose content is not
    JSON runs [_create_backup] with the suffix [corrupted] (the state it
    leaves is the state the load continues from; when the copy goes through,
    the backup directory holds the unparseable text under a name ending in
    [_corrupted.json]), then sets the cache to the empty list and returns
    the empty list as a normal value: nothing is raised.  The corrupted
    file itself stays in place. *)
Theorem load_corrupted_recovers (E : environment) (force_reload : bool)
    (w : world) (raw : string) :
  cache_hit E force_reload w = false ->
  file w = Some (Garbage raw) ->
  read_fails E = false ->
  exists r w1 w',
    _create_backup E (Some "corrupted") (set_tick (S (tick w)) w) = (Ok r, w1) /\
    w' = set_last_load_time (Some (now_at E (tick w))) (set_cache (Some []) w1) /\
    _load_todos E force_reload w = (Ok [], w') /\
    _todos_cache w' = Some [] /\
    file w' = Some (Garbage raw) /\
    (copy_fails E (corrupted_backup_path E w) = false ->
       r = Some (corrupted_backup_path E w) /\
       backups w' !! corrupted_backup_path E w = Some (Garbage raw)).
Proof.
  intros Hmiss Hf Hread.
  destruct (_create_backup_frame E (Some "corrupted") (set_tick (S (tick w)) w))
    as (r & w1 & Hb & Hf1 & _).
  exists r, w1. eexists. split; [exact Hb|]. split; [reflexivity|].
  split; [|split; [reflexivity|split]].
  - rewrite (_load_todos_miss_eq E _ _ Hmiss).
    unfold _load_from_disk, path_exists, read_file, json_loads. unfold_monad.
    repeat (simpl; rewrite ?Hf, ?Hread). now rewrite Hb.
  - simpl. now rewrite Hf1.
  - intros Hcopy. revert Hb.
    unfold _create_backup, path_exists, datetime_now, copy_file. unfold_monad.
    simpl. rewrite Hf. simpl. rewrite Hf.
    change (path_join (backup_dir w)
              (backup_filename (strftime_stamp E (now_at E (S (tick w))))
                 (Some "corrupted")))
      with (corrupted_backup_path E w).
    rewrite Hcopy. intros [= <- <-]. simpl.
    split; [reflexivity|]. apply lookup_insert_eq.
Qed.

Lemma load_corrupted_recovers_witness :
  exists r w1 w',
    _create_backup sample_env (Some "corrupted")
      (set_tick (S (tick corrupted_world)) corrupted_world) = (Ok r, w1) /\
    w' = set_last_load_time (Some (now_at sample_env (tick corrupted_world)))
           (set_cache (Some []) w1) /\
    _load_todos sample_env false corrupted_world = (Ok [], w') /\
    _todos_cache w' = Some [] /\
    file w' = Some (Garbage "{oops") /\
    (copy_fails sample_env (corrupted_backup_path sample_env corrupted_world) = false ->
       r = Some (corrupted_backup_path sample_env corrupted_world) /\
       backups w' !! corrupted_backup_path sample_env corrupted_world
         = Some (Garbage "{oops")).
Proof.
  apply (load_corrupted_recovers sample_env false corrupted_world "{oops");
    reflexivity.
Defined.

(** C7, as the code has it.  A load is served from the cache exactly when
    it is not forced, a copy is cached and the load time is less than 5 s
    before the time read at the start of the load.  Such a load returns the
    cached records and leaves the cache and the cached load time untouched.
    Every other load goes to the disk: it returns the records read there,
    caches them, and sets the load time to the time read at the start of
    the load.  No load changes the backing file. *)
Theorem load_time_after_load (E : environment) (force_reload : bool) (w : world) :
  let r := _load_todos E force_reload w in
  (cache_hit E force_reload w = true <->
     force_reload = false /\
     exists c t, _todos_cache w = Some c /\ _last_load_time w = Some t /\
                 now_at E (tick w) - t < 5000000) /\
  (cache_hit E force_reload w = true ->
     exists c, _todos_cache w = Some c /\
       fst r = Ok c /\
       _todos_cache (snd r) = _todos_cache w /\
       _last_load_time (snd r) = _last_load_time w) /\
  (cache_hit E force_reload w = false ->
     fst r = Ok (disk_todos E w) /\
     _todos_cache (snd r) = Some (disk_todos E w) /\
     _last_load_time (snd r) = Some (now_at E (tick w))) /\
  _last_load_time (snd r) =
    (if cache_hit E force_reload w then _last_load_time w
     else Some (now_at E (tick w))) /\
  file (snd r) = file w.
Proof.
  simpl. split; [|split; [|split; [|split]]].
  - unfold cache_hit.
    destruct force_reload, (_todos_cache w) as [c|], (_last_load_time w) as [t|];
      try (split; [discriminate|intros (? & ? & ? & ? & ? & _); discriminate]).
    rewrite Z.ltb_lt. split.
    + intros Hlt. split; [reflexivity|]. exists c, t. auto.
    + intros (_ & c' & t' & _ & [= <-] & Hlt). exact Hlt.
  - intros Hhit.
    destruct (_load_todos_total E force_reload w) as (l & w' & Hrun & _ & [H|H]).
    + destruct H as (_ & Hl & Hc & Ht). rewrite Hrun. simpl. eauto.
    + destruct H as (Hmiss & _). rewrite Hhit in Hmiss. discriminate.
  - intros Hmiss.
    destruct (_load_todos_miss E force_reload w Hmiss) as (w2 & Hrun & _ & Hc & Hl).
    rewrite Hrun. simpl. auto.
  - destruct (_load_todos_total E force_reload w) as (l & w' & Hrun & _ & [H|H]).
    + destruct H as (Hhit & _ & Hc & Hl). rewrite Hrun, Hhit. simpl. auto.
    + destruct H as (Hmiss & _ & _).
      destruct (_load_todos_miss E force_reload w Hmiss) as (w2 & Hrun2 & _ & _ & Hl).
      rewrite Hrun2, Hmiss. simpl. exact Hl.
  - destruct (_load_todos_total E force_reload w) as (l & w' & Hrun & Hf & _).
    rewrite Hrun. exact Hf.
Qed.

Lemma load_time_after_load_witness :
  cache_hit sample_env false warm_world = true /\
  exists c, _todos_cache warm_world = Some c /\
    fst (_load_todos sample_env false warm_world) = Ok c /\
    _todos_cache (snd (_load_todos sample_env false warm_world))
      = _todos_cache warm_world /\
    _last_load_time (snd (_load_todos sample_env false warm_world))
      = _last_load_time warm_world.
Proof.
  assert (Hhit : cache_hit sample_env false warm_world = true) by reflexivity.
  split; [exact Hhit|].
  exact (proj1 (proj2 (load_time_after_load sample_env false warm_world)) Hhit).
Defined.

(** C7 fails as stated: the manager loaded at time 0 and is asked again at
    time 1 s; the load is a cache hit and the load time stays 0. *)
Lemma cache_hit_does_not_refresh_time :
  cache_hit sample_env false warm_world = true /\
  _last_load_time (snd (_load_todos sample_env false warm_world))
    <> Some (now_at sample_env (tick warm_world)).
Proof.
  split; [reflexivity|]. vm_compute. discriminate.
Qed.

(** C8, as the code has it.  With no backing file, [_create_backup] does
    nothing and returns [None] whatever the suffix; the manual operation
    [create_backup] also changes nothing, but it reports the failure result
    with the message "Failed to create backup". *)
Theorem backup_without_file (E : environment) (suffix : option string) (w : world) :
  file w = None ->
  _create_backup E suffix w = (Ok None, w) /\
  create_backup E w = (Ok (Failure ["Failed to create backup"]), w).
Proof.
  intros Hf. split.
  - now apply _create_backup_no_file.
  - unfold create_backup. unfold bind.
    now rewrite (_create_backup_no_file E (Some "manual") w Hf).
Qed.

Lemma backup_without_file_witness :
  file fresh_world = None /\
  _create_backup sample_env (Some "manual") fresh_world = (Ok None, fresh_world) /\
  create_backup sample_env fresh_world
    = (Ok (Failure ["Failed to create backup"]), fresh_world).
Proof.
  split; [reflexivity|].
  apply (backup_without_file sample_env (Some "manual") fresh_world). reflexivity.
Defined.

(** C8 fails as stated: without a backing file the manual backup returns an
    error result. *)
Lemma manual_backup_without_file_is_failure :
  file fresh_world = None /\
  fst (create_backup sample_env fresh_world)
    = Ok (Failure ["Failed to create backup"]).
Proof. split; reflexivity. Qed.

(** ** Running a sequence of steps *)

Lemma bind_Ok_inv {A B} (m : M A) (k : A -> M B) (w w' : world) (b : B) :
  bind m k w = (Ok b, w') ->
  exists a w1, m w = (Ok a, w1) /\ k a w1 = (Ok b, w').
Proof.
  unfold bind. destruct (m w) as [[a|e] w1]; [eauto|discriminate].
Qed.

Lemma lift_Ok_inv {A} (o : outcome A) (w w' : world) (a : A) :
  lift o w = (Ok a, w') -> o = Ok a /\ w' = w.
Proof. unfold lift. now intros [= -> ->]. Qed.

Lemma obind_Ok_inv {A B} (m : outcome A) (k : A -> outcome B) (b : B) :
  obind m k = Ok b -> exists a, m = Ok a /\ k a = Ok b.
Proof. destruct m; simpl; [eauto|discriminate]. Qed.

(** Peel the next step off a run that ended normally. *)
Tactic Notation "step_in" hyp(H) "as" ident(x) ident(Hm) :=
  let w1 := fresh "w" in
  apply bind_Ok_inv in H; destruct H as (x & w1 & Hm & H).

Tactic Notation "pure_in" hyp(H) "as" ident(x) ident(Hm) :=
  let w1 := fresh "w" in
  let Hw := fresh "Hw" in
  apply bind_Ok_inv in H; destruct H as (x & w1 & Hm & H);
  apply lift_Ok_inv in Hm; destruct Hm as (Hm & Hw); subst w1.

(** ** Id assignment *)

Lemma omap_getitem_ids (l : list todo) (ids : list pyval) :
  omap_list (fun x : todo => getitem x "id") l = Ok ids ->
  record_ids l = Some <$> ids.
Proof.
  unfold record_ids.
  revert ids. induction l as [|t l IH]; intros ids; simpl.
  - now intros [= <-].
  - unfold getitem at 1. destruct (t !! "id") as [v|] eqn:Hv; simpl; [|discriminate].
    destruct (omap_list _ l) as [ys|]; simpl; [|discriminate].
    intros [= <-]. rewrite fmap_cons. f_equal. now apply IH.
Qed.

Lemma py_lt_Ok_int_l (z : Z) (x : pyval) (b : bool) :
  py_lt (PInt z) x = Ok b -> exists y, x = PInt y /\ b = (z <? y).
Proof. destruct x; simpl; try discriminate. intros [= <-]. eauto. Qed.

Lemma py_lt_Ok_int_r (x : pyval) (z : Z) (b : bool) :
  py_lt x (PInt z) = Ok b -> exists y, x = PInt y /\ b = (y <? z).
Proof. destruct x; simpl; try discriminate. intros [= <-]. eauto. Qed.

(** If the scan of [max] ends on a value to which 1 can be added, every
    item was an integer and the value is their maximum. *)
Lemma py_max_from_int (l : list pyval) (cur v v' : pyval) :
  py_max_from cur l = Ok v ->
  py_add1 v = Ok v' ->
  exists z0 zs,
    cur = PInt z0 /\ l = PInt <$> zs /\ v = PInt (fold_left Z.max zs z0).
Proof.
  revert cur. induction l as [|x l IH]; intros cur; simpl.
  - intros [= ->] Hadd. destruct v; try discriminate.
    exists z, []. auto.
  - intros Hrun Hadd.
    apply obind_Ok_inv in Hrun. destruct Hrun as (b & Hgt & Hrun).
    destruct (IH _ Hrun Hadd) as (z' & zs & Hcur & -> & ->).
    unfold py_gt in Hgt.
    destruct b.
    + subst x. apply py_lt_Ok_int_r in Hgt. destruct Hgt as (c & -> & Hlt).
      exists c, (z' :: zs). repeat split. simpl. f_equal. f_equal.
      symmetry in Hlt. apply Z.ltb_lt in Hlt. lia.
    + subst cur. apply py_lt_Ok_int_l in Hgt. destruct Hgt as (y & -> & Hlt).
      exists z', (y :: zs). repeat split. simpl. f_equal. f_equal.
      symmetry in Hlt. apply Z.ltb_ge in Hlt. lia.
Qed.

Lemma py_max_int (ids : list pyval) (m v' : pyval) :
  py_max ids (PInt 0) = Ok m ->
  py_add1 m = Ok v' ->
  exists zs, ids = PInt <$> zs /\ v' = PInt (max_default zs 0 + 1).
Proof.
  destruct ids as [|x ids]; simpl.
  - intros [= <-] [= <-]. now exists [].
  - intros Hrun Hadd.
    destruct (py_max_from_int _ _ _ _ Hrun Hadd) as (z0 & zs & -> & -> & ->).
    simpl in Hadd. injection Hadd as <-. now exists (z0 :: zs).
Qed.

Lemma fold_left_max_ge (zs : list Z) (z0 : Z) :
  z0 <= fold_left Z.max zs z0 /\ Forall (fun z => z <= fold_left Z.max zs z0) zs.
Proof.
  revert z0. induction zs as [|z zs IH]; intros z0; simpl.
  - split; [lia|constructor].
  - destruct (IH (Z.max z0 z)) as [H1 H2]. split; [lia|].
    constructor; [lia|exact H2].
Qed.

Lemma max_default_ge (zs : list Z) (d : Z) :
  Forall (fun z => z <= max_default zs d) zs.
Proof.
  destruct zs as [|z zs]; simpl; [constructor|].
  destruct (fold_left_max_ge zs z) as [H1 H2]. now constructor.
Qed.

Lemma datetime_now_inv (E : environment) (w w' : world) (t : Z) :
  datetime_now E w = (Ok t, w') ->
  t = now_at E (tick w) /\ w' = set_tick (S (tick w)) w.
Proof. unfold datetime_now. now intros [= <- <-]. Qed.

Lemma _load_todos_forced (E : environment) (w w' : world) (l : list todo) :
  _load_todos E true w = (Ok l, w') ->
  l = disk_todos E w /\ file w' = file w /\ _todos_cache w' = Some l.
Proof.
  intros Hrun.
  destruct (_load_todos_miss E true w eq_refl) as (w2 & Hrun2 & Hf & Hc & _).
  rewrite Hrun in Hrun2. injection Hrun2 as -> ->. auto.
Qed.

Lemma _save_todos_true (E : environment) (todos : list todo) (w w' : world) :
  _save_todos E todos w = (Ok true, w') ->
  file w' = Some (Json todos) /\ _todos_cache w' = Some todos.
Proof.
  intros Hrun.
  destruct (_save_todos_spec E todos w) as (b & w2 & Hrun2 & [H|H]);
    rewrite Hrun in Hrun2; injection Hrun2 as <- <-.
  - tauto.
  - destruct H as (H & _). discriminate.
Qed.

Lemma _serialize_todo_id (t s : todo) :
  _serialize_todo t = Ok s -> s !! "id" = t !! "id".
Proof.
  unfold _serialize_todo, getitem.
  destruct (t !! "id") as [v|]; simpl; [|discriminate].
  destruct (t !! "title") as [v'|]; simpl; [|discriminate].
  intros [= <-]. apply lookup_insert_eq.
Qed.

Section AddTodo.

Variable E : environment.

(** What a successful [add_todo] did: every stored id was an integer, the
    new record got their maximum (0 for an empty store) plus one, and it was
    appended to the records read from the disk. *)
Lemma add_todo_success_inv (title description : string) (due_date : option string)
    (status priority : string) (tags : option (list string))
    (w w' : world) (t : todo) :
  add_todo E title description due_date status priority tags w
    = (Ok (SuccessTodo t), w') ->
  exists zs stored,
    record_ids (disk_todos E w) = (fun z => Some (PInt z)) <$> zs /\
    stored !! "id" = Some (PInt (max_default zs 0 + 1)) /\
    t !! "id" = Some (PInt (max_default zs 0 + 1)) /\
    file w' = Some (Json (disk_todos E w ++ [stored])) /\
    _todos_cache w' = Some (disk_todos E w ++ [stored]).
Proof.
  intros H. unfold add_todo in H.
  step_in H as t1 Ht1. apply datetime_now_inv in Ht1. destruct Ht1 as [-> ->].
  step_in H as t2 Ht2. apply datetime_now_inv in Ht2. destruct Ht2 as [-> ->].
  pure_in H as errs Hval.
  destruct errs as [|err errs]; [|discriminate].
  step_in H as l Hload. apply _load_todos_forced in Hload.
  destruct Hload as (-> & _ & _).
  change (disk_todos E (set_tick _ (set_tick _ w))) with (disk_todos E w) in H.
  pure_in H as ids Hids.
  pure_in H as m Hmax.
  pure_in H as nid Hadd.
  destruct (py_max_int _ _ _ Hmax Hadd) as (zs & -> & ->).
  apply omap_getitem_ids in Hids.
  step_in H as saved Hsave. destruct saved.
  - apply _save_todos_true in Hsave. destruct Hsave as [Hf Hc].
    pure_in H as s Hser. injection H as <- <-.
    apply _serialize_todo_id in Hser.
    exists zs. eexists. split; [|split; [|split; [|split]]].
    + rewrite Hids. now rewrite <- list_fmap_compose.
    + apply lookup_insert_eq.
    + rewrite Hser. apply lookup_insert_eq.
    + exact Hf.
    + exact Hc.
  - discriminate.
Qed.

End AddTodo.

(** C2.  A successful [add_todo] gives the new record the id
    [max(existing ids, default 0) + 1], where the existing ids are those of
    the records that the forced reload reads from the backing file: 1 for an
    empty store, and otherwise a number greater than every stored id, so the
    id of a deleted record below the maximum is not handed out again.  The
    record is appended to the store under that id. *)
Theorem add_todo_assigns_next_id (E : environment) (title description : string)
    (due_date : option string) (status priority : string)
    (tags : option (list string)) (w w' : world) (t : todo) :
  add_todo E title description due_date status priority tags w
    = (Ok (SuccessTodo t), w') ->
  exists zs stored,
    record_ids (disk_todos E w) = (fun z => Some (PInt z)) <$> zs /\
    t !! "id" = Some (PInt (max_default zs 0 + 1)) /\
    (disk_todos E w = [] -> t !! "id" = Some (PInt 1)) /\
    Forall (fun z => z < max_default zs 0 + 1) zs /\
    stored !! "id" = t !! "id" /\
    file w' = Some (Json (disk_todos E w ++ [stored])).
Proof.
  intros H.
  destruct (add_todo_success_inv E _ _ _ _ _ _ _ _ _ H)
    as (zs & stored & Hids & Hstored & Ht & Hf & _).
  exists zs, stored. repeat split; auto.
  - intros Hnil. rewrite Hnil in Hids. destruct zs; [exact Ht|discriminate].
  - eapply Forall_impl; [apply (max_default_ge zs 0)|]. simpl. intros. lia.
  - congruence.
Qed.

Lemma add_todo_assigns_next_id_witness :
  exists zs stored,
    record_ids (disk_todos sample_env two_todos_world)
      = (fun z => Some (PInt z)) <$> zs /\
    third_todo !! "id" = Some (PInt (max_default zs 0 + 1)) /\
    (disk_todos sample_env two_todos_world = [] ->
       third_todo !! "id" = Some (PInt 1)) /\
    Forall (fun z => z < max_default zs 0 + 1) zs /\
    stored !! "id" = third_todo !! "id" /\
    file (snd third_run)
      = Some (Json (disk_todos sample_env two_todos_world ++ [stored])).
Proof.
  apply (add_todo_assigns_next_id sample_env "c" "" None "pending" "medium" None
           two_todos_world (snd third_run) third_todo).
  vm_compute. reflexivity.
Defined.

(** The third record of the sample store gets id 3. *)
Example third_todo_id : third_todo !! "id" = Some (PInt 3).
Proof. vm_compute. reflexivity. Qed.

(** ** The uniqueness invariant *)

Lemma keeps_bind {A B} (m : M A) (k : A -> M B) (Q : A -> Prop) (Q' : B -> Prop) :
  keeps_unique m Q ->
  (forall a, Q a -> keeps_unique (k a) Q') ->
  keeps_unique (bind m k) Q'.
Proof.
  intros Hm Hk w Hw. unfold bind.
  destruct (Hm w Hw) as [Hw1 Hq].
  destruct (m w) as [[a|e] w1]; simpl in *.
  - apply (Hk a (Hq a eq_refl) w1 Hw1).
  - split; [exact Hw1|discriminate].
Qed.

Lemma keeps_ret {A} (a : A) (Q : A -> Prop) : Q a -> keeps_unique (ret a) Q.
Proof. intros Hq w Hw. simpl. split; [exact Hw|]. now intros ? [= <-]. Qed.

Lemma keeps_raise {A} (e : exn) (Q : A -> Prop) : keeps_unique (raise e) Q.
Proof. intros w Hw. simpl. split; [exact Hw|discriminate]. Qed.

Lemma keeps_lift {A} (o : outcome A) : keeps_unique (lift o) (fun a => o = Ok a).
Proof. intros w Hw. simpl. split; [exact Hw|auto]. Qed.

Lemma keeps_datetime_now (E : environment) :
  keeps_unique (datetime_now E) (fun _ => True).
Proof. intros w Hw. simpl. split; [exact Hw|auto]. Qed.

Lemma ids_unique_nil : ids_unique [].
Proof. constructor. Qed.

Lemma disk_todos_unique (E : environment) (w : world) :
  store_unique w -> ids_unique (disk_todos E w).
Proof.
  intros [Hf _]. unfold disk_todos.
  destruct (file w) as [[l|raw]|]; try apply ids_unique_nil.
  destruct (read_fails E); [apply ids_unique_nil|]. now apply Hf.
Qed.

(** A load keeps the invariant and returns records with distinct ids. *)
Lemma keeps_load (E : environment) (force_reload : bool) :
  keeps_unique (_load_todos E force_reload) ids_unique.
Proof.
  intros w Hw.
  destruct (_load_todos_total E force_reload w) as (l & w' & Hrun & Hf & Hcase).
  rewrite Hrun. simpl.
  assert (Hl : ids_unique l).
  { destruct Hcase as [(_ & Hc & _)|(_ & -> & _)].
    - now apply (proj2 Hw).
    - now apply disk_todos_unique. }
  split.
  - split.
    + intros l0. rewrite Hf. apply (proj1 Hw).
    + intros l0 Hc0. destruct Hcase as [(_ & _ & Hc & _)|(_ & _ & Hc)].
      * rewrite Hc in Hc0. now apply (proj2 Hw).
      * rewrite Hc in Hc0. now injection Hc0 as <-.
  - now intros ? [= <-].
Qed.

(** A save of records with distinct ids keeps the invariant. *)
Lemma keeps_save (E : environment) (todos : list todo) (Q : bool -> Prop) :
  ids_unique todos ->
  (forall b, Q b) ->
  keeps_unique (_save_todos E todos) Q.
Proof.
  intros Hu HQ w Hw.
  destruct (_save_todos_spec E todos w) as (b & w' & Hrun & Hcase).
  rewrite Hrun. simpl. split; [|auto].
  destruct Hcase as [(_ & _ & Hf & Hc)|(_ & _ & Hc & _ & Hf)].
  - split; intros l0 H0; rewrite ?Hf, ?Hc in H0; now injection H0 as <-.
  - split.
    + intros l0 H0. destruct Hf as [Hf|[raw Hf]]; rewrite Hf in H0.
      * now apply (proj1 Hw).
      * discriminate.
    + intros l0. rewrite Hc. apply (proj2 Hw).
Qed.

Lemma ofilter_sublist {A} (p : A -> outcome bool) (l r : list A) :
  ofilter p l = Ok r -> r `sublist_of` l.
Proof.
  revert r. induction l as [|x l IH]; intros r; simpl.
  - intros [= <-]. constructor.
  - destruct (p x) as [b|]; simpl; [|discriminate].
    destruct (ofilter p l) as [ys|]; simpl; [|discriminate].
    intros [= <-]. destruct b.
    + apply sublist_skip. now apply IH.
    + apply sublist_cons. now apply IH.
Qed.

Lemma ids_unique_sublist (l r : list todo) :
  r `sublist_of` l -> ids_unique l -> ids_unique r.
Proof.
  unfold ids_unique, record_ids. intros Hs Hu.
  eapply sublist_NoDup; [exact Hu|]. now apply fmap_sublist.
Qed.

Lemma set_if_given_lookup_ne (k k' : string) (arg : option pyval) (d : todo) :
  k <> k' -> set_if_given k arg d !! k' = d !! k'.
Proof.
  intros Hne. unfold set_if_given.
  destruct arg; [now apply lookup_insert_ne|reflexivity].
Qed.

(** Replacing a record by one with the same id leaves the ids as they
    were. *)
Lemma record_ids_insert_same (l : list todo) (i : nat) (old new : todo) :
  l !! i = Some old ->
  new !! "id" = old !! "id" ->
  record_ids (<[i := new]> l) = record_ids l.
Proof.
  intros Hi Hid. unfold record_ids.
  rewrite list_fmap_insert. apply list_insert_id.
  rewrite list_lookup_fmap, Hi. simpl. now rewrite Hid.
Qed.

(** A new id above all the stored ones keeps the ids distinct. *)
Lemma ids_unique_snoc (l : list todo) (zs : list Z) (t : todo) (n : Z) :
  ids_unique l ->
  record_ids l = (fun z => Some (PInt z)) <$> zs ->
  Forall (fun z => z < n) zs ->
  t !! "id" = Some (PInt n) ->
  ids_unique (l ++ [t]).
Proof.
  unfold ids_unique, record_ids. intros Hu Hids Hlt Ht.
  rewrite fmap_app. simpl. apply NoDup_app. split; [exact Hu|]. split.
  - intros x Hx. rewrite Hids in Hx.
    apply list_elem_of_fmap in Hx. destruct Hx as (z & -> & Hz).
    rewrite list_elem_of_singleton, Ht. intros [= ->].
    rewrite Forall_forall in Hlt. specialize (Hlt _ Hz). lia.
  - apply NoDup_singleton.
Qed.

Section Invariant.

Variable E : environment.

Lemma keeps_add_todo (title description : string) (due_date : option string)
    (status priority : string) (tags : option (list string)) :
  keeps_unique (add_todo E title description due_date status priority tags)
    (fun _ => True).
Proof.
  unfold add_todo.
  eapply keeps_bind; [apply keeps_datetime_now|intros t1 _].
  eapply keeps_bind; [apply keeps_datetime_now|intros t2 _].
  eapply keeps_bind; [apply keeps_lift|intros errs _].
  destruct errs; [|now apply keeps_ret].
  eapply keeps_bind; [apply keeps_load|intros l Hl].
  eapply keeps_bind; [apply keeps_lift|intros ids Hids].
  eapply keeps_bind; [apply keeps_lift|intros m Hmax].
  eapply keeps_bind; [apply keeps_lift|intros nid Hadd].
  destruct (py_max_int _ _ _ Hmax Hadd) as (zs & -> & ->).
  apply omap_getitem_ids in Hids.
  eapply keeps_bind.
  - apply keeps_save with (Q := fun _ => True); [|auto].
    apply ids_unique_snoc with (zs := zs) (n := max_default zs 0 + 1).
    + exact Hl.
    + rewrite Hids. now rewrite <- list_fmap_compose.
    + eapply Forall_impl; [apply (max_default_ge zs 0)|]. simpl. intros. lia.
    + apply lookup_insert_eq.
  - intros saved _. destruct saved; [|now apply keeps_ret].
    eapply keeps_bind; [apply keeps_lift|intros s _]. now apply keeps_ret.
Qed.

Lemma keeps_update_todo (todo_id : Z)
    (title description due_date status priority : option string)
    (tags : option (list string)) :
  keeps_unique
    (update_todo E todo_id title description due_date status priority tags)
    (fun _ => True).
Proof.
  unfold update_todo.
  eapply keeps_bind; [apply keeps_load|intros l Hl].
  eapply keeps_bind; [apply keeps_lift|intros idx _].
  destruct idx as [i|]; [|now apply keeps_ret].
  destruct (l !! i) as [old|] eqn:Hi; [|apply keeps_raise].
  eapply keeps_bind; [apply keeps_datetime_now|intros now _].
  eapply keeps_bind; [apply keeps_lift|intros errs _].
  destruct errs; [|now apply keeps_ret].
  eapply keeps_bind.
  - apply keeps_save with (Q := fun _ => True); [|auto].
    unfold ids_unique. erewrite record_ids_insert_same; [exact Hl|exact Hi|].
    rewrite lookup_insert_ne by discriminate.
    now rewrite !set_if_given_lookup_ne by discriminate.
  - intros saved _. destruct saved; [|now apply keeps_ret].
    eapply keeps_bind; [apply keeps_lift|intros s _]. now apply keeps_ret.
Qed.

Lemma keeps_delete_todo (todo_id : Z) :
  keeps_unique (delete_todo E todo_id) (fun _ => True).
Proof.
  unfold delete_todo.
  eapply keeps_bind; [apply keeps_load|intros l Hl].
  eapply keeps_bind; [apply keeps_lift|intros r Hr].
  destruct (Nat.eqb _ _); [now apply keeps_ret|].
  eapply keeps_bind.
  - apply keeps_save with (Q := fun _ => True); [|auto].
    eapply ids_unique_sublist; [eapply ofilter_sublist; exact Hr|exact Hl].
  - intros saved _. destruct saved; now apply keeps_ret.
Qed.

Lemma keeps_batch_delete_todos (todo_ids : list Z) :
  keeps_unique (batch_delete_todos E todo_ids) (fun _ => True).
Proof.
  unfold batch_delete_todos.
  eapply keeps_bind; [apply keeps_load|intros l Hl].
  eapply keeps_bind; [apply keeps_lift|intros r Hr].
  destruct (_ =? _); [now apply keeps_ret|].
  eapply keeps_bind.
  - apply keeps_save with (Q := fun _ => True); [|auto].
    eapply ids_unique_sublist; [eapply ofilter_sublist; exact Hr|exact Hl].
  - intros saved _. destruct saved; now apply keeps_ret.
Qed.

End Invariant.

(** C1.  Id uniqueness is an invariant of the store.  From a state in which
    the records of the backing file have pairwise distinct ids, and so have
    the cached records, each of [add_todo], [update_todo], [complete_todo],
    [delete_todo] and [batch_delete_todos] ends, whatever its arguments and
    however it ends (success, failure result, failed write or exception),
    in a state with the same property. *)
Theorem store_unique_invariant (E : environment) (w : world) :
  store_unique w ->
  (forall title description due_date status priority tags,
     store_unique
       (snd (add_todo E title description due_date status priority tags w))) /\
  (forall todo_id title description due_date status priority tags,
     store_unique
       (snd (update_todo E todo_id title description due_date status priority
               tags w))) /\
  (forall todo_id, store_unique (snd (complete_todo E todo_id w))) /\
  (forall todo_id, store_unique (snd (delete_todo E todo_id w))) /\
  (forall todo_ids, store_unique (snd (batch_delete_todos E todo_ids w))).
Proof.
  intros Hw. split; [|split; [|split; [|split]]]; intros.
  - exact (proj1 (keeps_add_todo E _ _ _ _ _ _ w Hw)).
  - exact (proj1 (keeps_update_todo E _ _ _ _ _ _ _ w Hw)).
  - exact (proj1 (keeps_update_todo E todo_id None None None (Some "done")
                    None None w Hw)).
  - exact (proj1 (keeps_delete_todo E _ w Hw)).
  - exact (proj1 (keeps_batch_delete_todos E _ w Hw)).
Qed.

Lemma two_todos_world_unique : store_unique two_todos_world.
Proof.
  split; intros l Hl; vm_compute in Hl; injection Hl as <-;
    unfold ids_unique; apply (bool_decide_unpack _); vm_compute; reflexivity.
Qed.

Lemma store_unique_invariant_witness :
  store_unique two_todos_world /\
  (forall title description due_date status priority tags,
     store_unique
       (snd (add_todo sample_env title description due_date status priority tags
               two_todos_world))) /\
  (forall todo_id title description due_date status priority tags,
     store_unique
       (snd (update_todo sample_env todo_id title description due_date status
               priority tags two_todos_world))) /\
  (forall todo_id, store_unique (snd (complete_todo sample_env todo_id two_todos_world))) /\
  (forall todo_id, store_unique (snd (delete_todo sample_env todo_id two_todos_world))) /\
  (forall todo_ids,
     store_unique (snd (batch_delete_todos sample_env todo_ids two_todos_world))).
Proof.
  split; [exact two_todos_world_unique|].
  apply (store_unique_invariant sample_env two_todos_world).
  exact two_todos_world_unique.
Defined.

(** ** update_todo and complete_todo *)

Lemma bind_inv {A B} (m : M A) (k : A -> M B) (w w' : world) (r : outcome B) :
  bind m k w = (r, w') ->
  (exists a w1, m w = (Ok a, w1) /\ k a w1 = (r, w')) \/
  (exists e, m w = (Raised e, w') /\ r = Raised e).
Proof.
  unfold bind. destruct (m w) as [[a|e] w1].
  - left. eauto.
  - intros [= <- <-]. right. eauto.
Qed.

Lemma py_eq_true (a b : pyval) : py_eq a b = true <-> a = b.
Proof. unfold py_eq. apply bool_decide_eq_true. Qed.

(** The record found by the search loop is at the returned index and has
    the id that was asked for. *)
Lemma find_index_Some (todo_id : Z) (l : list todo) (k i : nat) :
  find_index todo_id l k = Ok (Some i) ->
  exists old, (k <= i)%nat /\ l !! (i - k)%nat = Some old /\
              old !! "id" = Some (PInt todo_id).
Proof.
  revert k. induction l as [|t l IH]; intros k; simpl; [discriminate|].
  unfold getitem. destruct (t !! "id") as [v|] eqn:Hv; simpl; [|discriminate].
  destruct (py_eq v (PInt todo_id)) eqn:Heq.
  - intros [= <-]. apply py_eq_true in Heq. subst v.
    exists t. rewrite Nat.sub_diag. auto.
  - intros H. destruct (IH _ H) as (old & Hle & Hi & Hid).
    exists old. split; [lia|]. split; [|exact Hid].
    replace (i - k)%nat with (S (i - S k)) by lia. exact Hi.
Qed.

(** The search loop finds nothing when every record has an id and none is
    the one asked for. *)
Lemma find_index_None (todo_id : Z) (l : list todo) (k : nat) :
  Forall (fun t : todo => exists v, t !! "id" = Some v /\ v <> PInt todo_id) l ->
  find_index todo_id l k = Ok None.
Proof.
  intros H. revert k. induction H as [|t l (v & Hv & Hne) _ IH]; intros k; simpl.
  - reflexivity.
  - unfold getitem. rewrite Hv. simpl.
    destruct (py_eq v (PInt todo_id)) eqn:Heq; [|apply IH].
    apply py_eq_true in Heq. contradiction.
Qed.

Section Update.

Variable E : environment.

Lemma disk_todos_nonempty (w : world) (i : nat) (t : todo) :
  disk_todos E w !! i = Some t ->
  file w = Some (Json (disk_todos E w)) /\ read_fails E = false.
Proof.
  unfold disk_todos.
  destruct (file w) as [[l|raw]|]; try discriminate.
  destruct (read_fails E); [discriminate|auto].
Qed.

(** A forced reload of a readable JSON file: one reading of the clock. *)
Lemma _load_todos_forced_json (w : world) (l : list todo) :
  file w = Some (Json l) ->
  read_fails E = false ->
  _load_todos E true w
    = (Ok l, set_last_load_time (Some (now_at E (tick w)))
               (set_cache (Some l) (set_tick (S (tick w)) w))).
Proof.
  intros Hf Hr. rewrite (_load_todos_miss_eq E true w eq_refl).
  unfold _load_from_disk, path_exists, read_file, json_loads. unfold_monad.
  repeat (simpl; rewrite ?Hf, ?Hr). reflexivity.
Qed.

(** What a successful [update_todo] did, and that the record it stored
    passed validation. *)
Lemma update_todo_success_valid (todo_id : Z)
    (title description due_date status priority : option string)
    (tags : option (list string)) (w w' : world) (t : todo) :
  update_todo E todo_id title description due_date status priority tags w
    = (Ok (SuccessTodo t), w') ->
  exists i old,
    let new := merged E old (now_at E (S (tick w)))
                 title description due_date status priority tags in
    disk_todos E w !! i = Some old /\
    old !! "id" = Some (PInt todo_id) /\
    file w = Some (Json (disk_todos E w)) /\
    file w' = Some (Json (<[i := new]> (disk_todos E w))) /\
    _todos_cache w' = Some (<[i := new]> (disk_todos E w)) /\
    _serialize_todo new = Ok t /\
    _validate_todo E new = Ok [].
Proof.
  intros H. unfold update_todo in H.
  step_in H as l Hload.
  pose proof Hload as Hl. apply _load_todos_forced in Hl. destruct Hl as (-> & _ & _).
  pure_in H as idx Hfind.
  destruct idx as [i|]; [|discriminate].
  apply find_index_Some in Hfind. destruct Hfind as (old & _ & Hi & Hid).
  rewrite Nat.sub_0_r in Hi. rewrite Hi in H.
  destruct (disk_todos_nonempty w i old Hi) as [Hf Hr].
  rewrite (_load_todos_forced_json w _ Hf Hr) in Hload. injection Hload as <-.
  step_in H as now Hnow. apply datetime_now_inv in Hnow. destruct Hnow as [-> ->].
  pure_in H as errs Hval. destruct errs; [|discriminate].
  step_in H as saved Hsave. destruct saved; [|discriminate].
  apply _save_todos_true in Hsave. destruct Hsave as [Hf' Hc'].
  pure_in H as s Hser. injection H as <- <-.
  exists i, old. simpl. unfold merged. auto 10.
Qed.

(** What a successful [update_todo] did. *)
Lemma update_todo_success_inv (todo_id : Z)
    (title description due_date status priority : option string)
    (tags : option (list string)) (w w' : world) (t : todo) :
  update_todo E todo_id title description due_date status priority tags w
    = (Ok (SuccessTodo t), w') ->
  exists i old,
    let new := merged E old (now_at E (S (tick w)))
                 title description due_date status priority tags in
    disk_todos E w !! i = Some old /\
    old !! "id" = Some (PInt todo_id) /\
    file w = Some (Json (disk_todos E w)) /\
    file w' = Some (Json (<[i := new]> (disk_todos E w))) /\
    _todos_cache w' = Some (<[i := new]> (disk_todos E w)) /\
    _serialize_todo new = Ok t.
Proof.
  intros H. apply update_todo_success_valid in H.
  destruct H as (i & old & H1 & H2 & H3 & H4 & H5 & H6 & _).
  exists i, old. simpl. auto 10.
Qed.

End Update.

Lemma merged_lookup_frame (E : environment) (old : todo) (now : Z)
    (title description due_date status priority : option string)
    (tags : option (list string)) :
  let new := merged E old now title description due_date status priority tags in
  new !! "id" = old !! "id" /\
  new !! "created_at" = old !! "created_at" /\
  new !! "updated_at" = Some (PStr (isoformat E now)) /\
  (title = None -> new !! "title" = old !! "title") /\
  (description = None -> new !! "description" = old !! "description") /\
  (due_date = None -> new !! "due_date" = old !! "due_date") /\
  (status = None -> new !! "status" = old !! "status") /\
  (priority = None -> new !! "priority" = old !! "priority") /\
  (tags = None -> new !! "tags" = old !! "tags").
Proof.
  unfold merged. simpl.
  split; [|split; [|split; [apply lookup_insert_eq|]]];
    [ rewrite lookup_insert_ne by discriminate;
      now rewrite !set_if_given_lookup_ne by discriminate .. | ].
  repeat split; intros ->; simpl;
    rewrite lookup_insert_ne by discriminate;
    repeat first
      [ rewrite set_if_given_lookup_ne by discriminate
      | progress (unfold set_if_given at 1; simpl) ];
    reflexivity.
Qed.

(** A parameter that is given is stored as given. *)
Lemma merged_lookup_given (E : environment) (old : todo) (now : Z)
    (title description due_date status priority : option string)
    (tags : option (list string)) :
  let new := merged E old now title description due_date status priority tags in
  (forall s, title = Some s -> new !! "title" = Some (PStr s)) /\
  (forall s, description = Some s -> new !! "description" = Some (PStr s)) /\
  (forall s, due_date = Some s -> new !! "due_date" = Some (PStr s)) /\
  (forall s, status = Some s -> new !! "status" = Some (PStr s)) /\
  (forall s, priority = Some s -> new !! "priority" = Some (PStr s)) /\
  (forall l, tags = Some l -> new !! "tags" = Some (PList l)).
Proof.
  unfold merged. simpl.
  repeat split; intros s ->; simpl;
    rewrite lookup_insert_ne by discriminate;
    rewrite ?set_if_given_lookup_ne by discriminate;
    unfold set_if_given; simpl; apply lookup_insert_eq.
Qed.

Lemma set_if_given_has_value (k k' : string) (arg : option pyval) (d : todo) :
  (forall v, arg = Some v -> v <> PNone) ->
  has_value (d !! k') -> has_value (set_if_given k arg d !! k').
Proof.
  intros Harg Hd. unfold set_if_given. destruct arg as [v|]; [|exact Hd].
  destruct (decide (k = k')) as [->|Hne].
  - rewrite lookup_insert_eq. exists v. split; [reflexivity|]. now apply Harg.
  - now rewrite lookup_insert_ne.
Qed.

(** No field that held a value is left without one by the merge. *)
Lemma merged_has_value (E : environment) (old : todo) (now : Z)
    (title description due_date status priority : option string)
    (tags : option (list string)) (k : string) :
  has_value (old !! k) ->
  has_value (merged E old now title description due_date status priority tags !! k).
Proof.
  intros Hold. unfold merged.
  destruct (decide ("updated_at" = k)) as [<-|Hne].
  - rewrite lookup_insert_eq. eexists. split; [reflexivity|discriminate].
  - rewrite lookup_insert_ne by exact Hne.
    repeat (apply set_if_given_has_value;
            [intros v Hv;
             match type of Hv with
             | _ <$> ?o = _ => destruct o; simpl in Hv; [|discriminate]
             end;
             injection Hv as <-; discriminate|]).
    exact Hold.
Qed.

(** A record that passes validation has a title. *)
Lemma _validate_todo_title (E : environment) (t : todo) :
  _validate_todo E t = Ok [] -> exists v, t !! "title" = Some v.
Proof.
  unfold _validate_todo, dict_get at 1.
  destruct (t !! "title") as [v|]; [eauto|].
  simpl. intros H. apply obind_Ok_inv in H. destruct H as (n & _ & H).
  apply obind_Ok_inv in H. destruct H as (e & _ & H). discriminate.
Qed.

(** A record that passes validation has a title that is not empty. *)
Lemma _validate_todo_title_truthy (E : environment) (t : todo) :
  _validate_todo E t = Ok [] -> truthy (dict_get t "title" PNone) = true.
Proof.
  unfold _validate_todo.
  destruct (truthy (dict_get t "title" PNone)); [reflexivity|].
  simpl. intros H. apply obind_Ok_inv in H. destruct H as (n & _ & H).
  apply obind_Ok_inv in H. destruct H as (e & _ & H). discriminate.
Qed.

Lemma _serialize_todo_lookup (t s : todo) :
  _serialize_todo t = Ok s ->
  s !! "status" = Some (dict_get t "status" (PStr "pending")) /\
  s !! "title" = t !! "title".
Proof.
  unfold _serialize_todo, getitem.
  destruct (t !! "id") as [v|]; simpl; [|discriminate].
  destruct (t !! "title") as [v'|]; simpl; [|discriminate].
  intros [= <-]. split.
  - rewrite !lookup_insert_ne by discriminate. apply lookup_insert_eq.
  - rewrite !lookup_insert_ne by discriminate. apply lookup_insert_eq.
Qed.

Lemma lift_inv {A} (o r : outcome A) (w w' : world) :
  lift o w = (r, w') -> o = r /\ w' = w.
Proof. unfold lift. now intros [= -> <-]. Qed.

Lemma _serialize_todo_total (t : todo) (a b : pyval) :
  t !! "id" = Some a -> t !! "title" = Some b ->
  exists s, _serialize_todo t = Ok s.
Proof.
  intros Ha Hb. unfold _serialize_todo, getitem. rewrite Ha, Hb. simpl. eauto.
Qed.

Section UpdateFrame.

Variable E : environment.

(** An [update_todo] that does not end in success leaves the backing file
    as it was, or torn by the failed write. *)
Lemma update_todo_no_success_file (todo_id : Z)
    (title description due_date status priority : option string)
    (tags : option (list string)) (w w' : world) (r : outcome result) :
  update_todo E todo_id title description due_date status priority tags w
    = (r, w') ->
  (forall t, r <> Ok (SuccessTodo t)) ->
  file w' = file w \/ exists raw, file w' = Some (Garbage raw).
Proof.
  intros H Hns. unfold update_todo in H.
  destruct (_load_todos_total E true w) as (l & w1 & Hload & Hf1 & _).
  apply bind_inv in H. destruct H as [(l' & w1' & Hload' & H)|(e & Hload' & _)];
    rewrite Hload in Hload'; [injection Hload' as <- <-|discriminate].
  apply bind_inv in H. destruct H as [(idx & w2 & Hfind & H)|(e & Hfind & _)];
    apply lift_inv in Hfind; destruct Hfind as [Hfind ->]; [|now left].
  destruct idx as [i|]; [|injection H as _ <-; now left].
  apply find_index_Some in Hfind. destruct Hfind as (old & _ & Hi & Hid).
  rewrite Nat.sub_0_r in Hi. rewrite Hi in H.
  apply bind_inv in H. destruct H as [(now & w3 & Hnow & H)|(e & Hnow & _)];
    [|discriminate].
  apply datetime_now_inv in Hnow. destruct Hnow as [-> ->].
  apply bind_inv in H. destruct H as [(errs & w4 & Hval & H)|(e & Hval & _)];
    apply lift_inv in Hval; destruct Hval as [Hval ->]; [|now left].
  destruct errs; [|injection H as _ <-; now left].
  match type of H with
  | bind (_save_todos E ?todos) _ ?w0 = _ =>
      destruct (_save_todos_spec E todos w0) as (b & w5 & Hsave & Hcase)
  end.
  apply bind_inv in H. destruct H as [(b' & w5' & Hsave' & H)|(e & Hsave' & _)];
    rewrite Hsave in Hsave'; [injection Hsave' as <- <-|discriminate].
  destruct Hcase as [(-> & _)|(-> & _ & _ & _ & Hf5)].
  - exfalso.
    apply _validate_todo_title in Hval. destruct Hval as [v Hv].
    match type of Hv with
    | ?new !! "title" = _ =>
        assert (Hnid : new !! "id" = Some (PInt todo_id))
    end.
    { rewrite lookup_insert_ne by discriminate.
      now rewrite !set_if_given_lookup_ne by discriminate. }
    destruct (_serialize_todo_total _ _ _ Hnid Hv) as [s Hs].
    unfold bind, lift, ret in H. rewrite Hs in H. injection H as <- _.
    now apply (Hns s).
  - injection H as _ <-. simpl in Hf5. rewrite Hf1 in Hf5. exact Hf5.
Qed.

End UpdateFrame.

(** C9.  [complete_todo(id)] is [update_todo(id, status="done")]: the two
    calls return the same result and end in the same state, from every
    state.  When the call succeeds, the stored record with that id is
    replaced by one whose status is [done] and whose [updated_at] is the
    time read during the call, with title, description and tags as they
    were, and the returned record shows status [done].  When every stored
    record has another id, both calls return the same "not found" failure
    and the backing file is untouched. *)
Theorem complete_todo_is_update_done (E : environment) (todo_id : Z) (w : world) :
  complete_todo E todo_id w
    = update_todo E todo_id None None None (Some "done") None None w /\
  (forall t w',
     complete_todo E todo_id w = (Ok (SuccessTodo t), w') ->
     exists i old new,
       disk_todos E w !! i = Some old /\
       old !! "id" = Some (PInt todo_id) /\
       file w' = Some (Json (<[i := new]> (disk_todos E w))) /\
       new !! "status" = Some (PStr "done") /\
       new !! "updated_at" = Some (PStr (isoformat E (now_at E (S (tick w))))) /\
       new !! "title" = old !! "title" /\
       new !! "description" = old !! "description" /\
       new !! "tags" = old !! "tags" /\
       t !! "status" = Some (PStr "done")) /\
  (Forall (fun t : todo => exists v, t !! "id" = Some v /\ v <> PInt todo_id)
     (disk_todos E w) ->
   let failure := Ok (Failure ["Todo " +:+ str_of_int todo_id +:+ " not found"]) in
   fst (complete_todo E todo_id w) = failure /\
   fst (update_todo E todo_id None None None (Some "done") None None w) = failure /\
   file (snd (complete_todo E todo_id w)) = file w).
Proof.
  split; [reflexivity|]. split.
  - intros t w' H. unfold complete_todo in H.
    apply update_todo_success_inv in H.
    destruct H as (i & old & Hi & Hid & _ & Hf & _ & Hser).
    destruct (merged_lookup_frame E old (now_at E (S (tick w)))
                None None None (Some "done") None None)
      as (_ & _ & Hupd & Htitle & Hdesc & _ & _ & _ & Htags).
    assert (Hstatus :
      merged E old (now_at E (S (tick w))) None None None (Some "done") None None
        !! "status" = Some (PStr "done")).
    { unfold merged. simpl. rewrite lookup_insert_ne by discriminate.
      apply lookup_insert_eq. }
    eexists i, old, _. split; [exact Hi|]. split; [exact Hid|].
    split; [exact Hf|]. split; [exact Hstatus|]. split; [exact Hupd|].
    split; [now apply Htitle|]. split; [now apply Hdesc|].
    split; [now apply Htags|].
    apply _serialize_todo_lookup in Hser. destruct Hser as [Hs _].
    rewrite Hs. unfold dict_get. now rewrite Hstatus.
  - intros Hmissing. simpl. unfold complete_todo.
    destruct (_load_todos_total E true w) as (l & w1 & Hload & Hf1 & Hcase).
    assert (l = disk_todos E w) as ->.
    { destruct Hcase as [(Hhit & _)|(_ & -> & _)]; [discriminate|reflexivity]. }
    assert (Hrun :
      update_todo E todo_id None None None (Some "done") None None w
        = (Ok (Failure ["Todo " +:+ str_of_int todo_id +:+ " not found"]), w1)).
    { unfold update_todo, bind at 1. rewrite Hload.
      unfold bind, lift. now rewrite (find_index_None _ _ _ Hmissing). }
    rewrite Hrun. simpl. auto.
Qed.

Lemma complete_todo_is_update_done_witness :
  exists i old new,
    disk_todos sample_env two_todos_world !! i = Some old /\
    old !! "id" = Some (PInt 2) /\
    file (snd complete_run)
      = Some (Json (<[i := new]> (disk_todos sample_env two_todos_world))) /\
    new !! "status" = Some (PStr "done") /\
    new !! "updated_at"
      = Some (PStr (isoformat sample_env
                      (now_at sample_env (S (tick two_todos_world))))) /\
    new !! "title" = old !! "title" /\
    new !! "description" = old !! "description" /\
    new !! "tags" = old !! "tags" /\
    completed_todo !! "status" = Some (PStr "done").
Proof.
  apply (proj1 (proj2 (complete_todo_is_update_done sample_env 2 two_todos_world))
           completed_todo (snd complete_run)).
  vm_compute. reflexivity.
Defined.

(** C10, as the code has it.  In a successful [update_todo] the stored
    record with the given id is replaced by a record in which every field
    whose parameter was [None] is as it was, every field whose parameter was
    given holds the given value, whatever it is (the empty string and the
    empty list included), and [id] and [created_at] are as they were
    whatever the parameters.  So every field that held a value still holds
    one (no call takes a field back to a missing key or to [None]), but the
    value may be the empty one; only the title cannot be emptied, since the
    new record has passed validation.  The other records are not touched.
    A call that does not succeed leaves the backing file as it was (or torn,
    when the write itself broke). *)
Theorem update_todo_none_keeps_field (E : environment) (todo_id : Z)
    (title description due_date status priority : option string)
    (tags : option (list string)) (w w' : world) (r : outcome result) :
  update_todo E todo_id title description due_date status priority tags w
    = (r, w') ->
  (forall t, r = Ok (SuccessTodo t) ->
     exists i old new,
       disk_todos E w !! i = Some old /\
       old !! "id" = Some (PInt todo_id) /\
       file w = Some (Json (disk_todos E w)) /\
       file w' = Some (Json (<[i := new]> (disk_todos E w))) /\
       new !! "id" = old !! "id" /\
       new !! "created_at" = old !! "created_at" /\
       (title = None -> new !! "title" = old !! "title") /\
       (description = None -> new !! "description" = old !! "description") /\
       (due_date = None -> new !! "due_date" = old !! "due_date") /\
       (status = None -> new !! "status" = old !! "status") /\
       (priority = None -> new !! "priority" = old !! "priority") /\
       (tags = None -> new !! "tags" = old !! "tags") /\
       (forall k, has_value (old !! k) -> has_value (new !! k)) /\
       (forall s, title = Some s -> new !! "title" = Some (PStr s)) /\
       (forall s, description = Some s -> new !! "description" = Some (PStr s)) /\
       (forall s, due_date = Some s -> new !! "due_date" = Some (PStr s)) /\
       (forall s, status = Some s -> new !! "status" = Some (PStr s)) /\
       (forall s, priority = Some s -> new !! "priority" = Some (PStr s)) /\
       (forall l, tags = Some l -> new !! "tags" = Some (PList l)) /\
       truthy (dict_get new "title" PNone) = true) /\
  ((forall t, r <> Ok (SuccessTodo t)) ->
     file w' = file w \/ exists raw, file w' = Some (Garbage raw)).
Proof.
  intros H. split.
  - intros t ->. apply update_todo_success_valid in H.
    destruct H as (i & old & Hi & Hid & Hf & Hf' & _ & _ & Hval).
    destruct (merged_lookup_frame E old (now_at E (S (tick w)))
                title description due_date status priority tags)
      as (Hnid & Hcreated & _ & Htitle & Hdesc & Hdue & Hstatus & Hprio & Htags).
    destruct (merged_lookup_given E old (now_at E (S (tick w)))
                title description due_date status priority tags)
      as (Gtitle & Gdesc & Gdue & Gstatus & Gprio & Gtags).
    apply _validate_todo_title_truthy in Hval.
    eexists i, old, _. split; [exact Hi|]. split; [exact Hid|].
    split; [exact Hf|]. split; [exact Hf'|].
    repeat (split; [assumption|]).
    split; [intros k; apply merged_has_value|].
    repeat (split; [assumption|]).
    exact Hval.
  - intros Hns. eapply update_todo_no_success_file; eauto.
Qed.

Lemma update_todo_none_keeps_field_witness :
  (forall t, fst undate_run = Ok (SuccessTodo t) ->
     exists i old new,
       disk_todos sample_env dated_world !! i = Some old /\
       old !! "id" = Some (PInt 1) /\
       file dated_world = Some (Json (disk_todos sample_env dated_world)) /\
       file (snd undate_run)
         = Some (Json (<[i := new]> (disk_todos sample_env dated_world))) /\
       new !! "id" = old !! "id" /\
       new !! "created_at" = old !! "created_at" /\
       (@None string = None -> new !! "title" = old !! "title") /\
       (@None string = None -> new !! "description" = old !! "description") /\
       (Some "" = None -> new !! "due_date" = old !! "due_date") /\
       (@None string = None -> new !! "status" = old !! "status") /\
       (@None string = None -> new !! "priority" = old !! "priority") /\
       (@None (list string) = None -> new !! "tags" = old !! "tags") /\
       (forall k, has_value (old !! k) -> has_value (new !! k)) /\
       (forall s, @None string = Some s -> new !! "title" = Some (PStr s)) /\
       (forall s, @None string = Some s -> new !! "description" = Some (PStr s)) /\
       (forall s, Some "" = Some s -> new !! "due_date" = Some (PStr s)) /\
       (forall s, @None string = Some s -> new !! "status" = Some (PStr s)) /\
       (forall s, @None string = Some s -> new !! "priority" = Some (PStr s)) /\
       (forall l, @None (list string) = Some l -> new !! "tags" = Some (PList l)) /\
       truthy (dict_get new "title" PNone) = true) /\
  ((forall t, fst undate_run <> Ok (SuccessTodo t)) ->
     file (snd undate_run) = file dated_world
     \/ exists raw, file (snd undate_run) = Some (Garbage raw)).
Proof.
  apply (update_todo_none_keeps_field sample_env 1 None None (Some "") None None
           None dated_world (snd undate_run) (fst undate_run)).
  vm_compute. reflexivity.
Defined.

(** C10 fails as stated: a record is added with the due date 2025-06-01,
    which the [no_date] filter does not list; [update_todo] with the empty
    string for the due date succeeds, stores the empty string, returns it,
    and the [no_date] filter now lists the record: the due date was
    removed. *)
Lemma update_todo_empty_string_removes_due_date :
  (exists old,
     disk_todos sample_env dated_world = [old] /\
     old !! "id" = Some (PInt 1) /\
     old !! "due_date" = Some (PStr "2025-06-01") /\
     truthy (dict_get old "due_date" PNone) = true) /\
  no_date_titles dated_world = Some [] /\
  (exists t new,
     fst undate_run = Ok (SuccessTodo t) /\
     file (snd undate_run) = Some (Json [new]) /\
     new !! "id" = Some (PInt 1) /\
     new !! "due_date" = Some (PStr "") /\
     truthy (dict_get new "due_date" PNone) = false /\
     t !! "due_date" = Some (PStr "")) /\
  no_date_titles (snd undate_run) = Some [Some (PStr "a")].
Proof.
  split; [|split; [|split]].
  - eexists. split; [vm_compute; reflexivity|]. vm_compute. auto.
  - vm_compute. reflexivity.
  - eexists _, _. split; [vm_compute; reflexivity|].
    split; [vm_compute; reflexivity|]. vm_compute. auto.
  - vm_compute. reflexivity.
Qed.

(** The example updates succeed: the hypothesis of the success case is met. *)
Example undate_run_succeeds : exists t, fst undate_run = Ok (SuccessTodo t).
Proof. vm_compute. eauto. Qed.

Example retitle_run_succeeds : exists t, fst retitle_run = Ok (SuccessTodo t).
Proof. vm_compute. eauto. Qed.

(** ** Sorting *)

Lemma string_ltb_irrefl (s : string) : String.ltb s s = false.
Proof.
  unfold String.ltb.
  destruct (String.compare s s) eqn:Hc; try reflexivity.
  pose proof (String.compare_antisym s s) as Ha. rewrite Hc in Ha. discriminate.
Qed.

Lemma list_ltb_irrefl (l : list string) : list_ltb l l = false.
Proof.
  induction l as [|a l IH]; simpl; [reflexivity|].
  now rewrite String.eqb_refl.
Qed.

(** No value is below itself. *)
Lemma py_lt_irrefl (v : pyval) : py_lt v v <> Ok true.
Proof.
  destruct v; simpl; try discriminate.
  - rewrite Z.ltb_irrefl. discriminate.
  - rewrite string_ltb_irrefl. discriminate.
  - rewrite list_ltb_irrefl. discriminate.
Qed.

Section Stability.

Context {A : Type}.

Lemma insert_keyed_with_key (k : pyval) (x : A) (s s' : list (pyval * A)) (v : pyval) :
  insert_keyed k x s = Ok s' ->
  with_key v s' = with_key v ((k, x) :: s).
Proof.
  unfold with_key.
  revert s'. induction s as [|[k' y] s IH]; intros s'; simpl.
  - now intros [= <-].
  - destruct (py_lt k' k) as [b|] eqn:Hlt; simpl; [|discriminate].
    destruct b.
    + destruct (insert_keyed k x s) as [r'|]; simpl; [|discriminate].
      intros [= <-]. specialize (IH r' eq_refl).
      rewrite (filter_cons _ (k', y)), IH. rewrite !filter_cons. simpl.
      destruct (decide (k' = v)) as [->|Hk']; [|reflexivity].
      destruct (decide (k = v)) as [->|Hk]; [|reflexivity].
      exfalso. now apply (py_lt_irrefl v).
    + now intros [= <-].
Qed.

Lemma insert_keyed_perm (k : pyval) (x : A) (s s' : list (pyval * A)) :
  insert_keyed k x s = Ok s' -> s' ≡ₚ (k, x) :: s.
Proof.
  revert s'. induction s as [|[k' y] s IH]; intros s'; simpl.
  - now intros [= <-].
  - destruct (py_lt k' k) as [b|]; simpl; [|discriminate].
    destruct b.
    + destruct (insert_keyed k x s) as [r'|]; simpl; [|discriminate].
      intros [= <-]. rewrite (IH r' eq_refl). apply Permutation_swap.
    + now intros [= <-].
Qed.

(** The sort keeps the items of every key in their order, and it loses and
    invents nothing. *)
Lemma sort_keyed_with_key (l s : list (pyval * A)) (v : pyval) :
  sort_keyed l = Ok s -> with_key v s = with_key v l.
Proof.
  revert s. induction l as [|[k x] l IH]; intros s; simpl.
  - now intros [= <-].
  - destruct (sort_keyed l) as [r|]; simpl; [|discriminate].
    intros Hins. rewrite (insert_keyed_with_key _ _ _ _ v Hins).
    unfold with_key in *. rewrite !filter_cons. now rewrite (IH r eq_refl).
Qed.

Lemma sort_keyed_perm (l s : list (pyval * A)) :
  sort_keyed l = Ok s -> s ≡ₚ l.
Proof.
  revert s. induction l as [|[k x] l IH]; intros s; simpl.
  - now intros [= <-].
  - destruct (sort_keyed l) as [r|]; simpl; [|discriminate].
    intros Hins. rewrite (insert_keyed_perm _ _ _ _ Hins).
    now rewrite (IH r eq_refl).
Qed.

Variable key : A -> pyval.

(** On a list of items paired with their own keys, selecting by the key of
    the item is selecting by the first component. *)
Lemma filter_key_snd (s : list (pyval * A)) (v : pyval) :
  Forall (fun p => p.1 = key p.2) s ->
  filter (fun x => key x = v) (snd <$> s) = snd <$> with_key v s.
Proof.
  unfold with_key. induction 1 as [|[k x] s Hk _ IH]; [reflexivity|].
  simpl in Hk. subst k. rewrite fmap_cons, !filter_cons. simpl.
  destruct (decide (key x = v)); rewrite IH; reflexivity.
Qed.

Lemma keyed_Forall (l : list A) :
  Forall (fun p : pyval * A => p.1 = key p.2) ((fun x => (key x, x)) <$> l).
Proof. induction l; simpl; constructor; auto. Qed.

Lemma keyed_snd (l : list A) : snd <$> ((fun x => (key x, x)) <$> l) = l.
Proof.
  induction l as [|x l IH]; [reflexivity|].
  rewrite !fmap_cons. simpl. now rewrite IH.
Qed.

(** [list.sort] is stable in both directions: the items of one key keep
    their order, with [reverse=True] too. *)
Lemma list_sort_stable (rev_flag : bool) (l r : list A) (v : pyval) :
  list_sort key rev_flag l = Ok r ->
  filter (fun x => key x = v) r = filter (fun x => key x = v) l.
Proof.
  unfold list_sort. intros H.
  apply obind_Ok_inv in H. destruct H as (s & Hs & [= <-]).
  pose proof (sort_keyed_perm _ _ Hs) as Hp.
  pose proof (sort_keyed_with_key _ _ v Hs) as Hk.
  assert (HF : Forall (fun p : pyval * A => p.1 = key p.2) s).
  { rewrite Hp. destruct rev_flag; [rewrite reverse_Permutation|];
      apply keyed_Forall. }
  rewrite <- (keyed_snd l) at 1.
  rewrite (filter_key_snd _ v (keyed_Forall l)).
  destruct rev_flag.
  - rewrite fmap_reverse, filter_reverse, (filter_key_snd _ v HF), Hk.
    unfold with_key. rewrite filter_reverse, fmap_reverse.
    apply reverse_involutive.
  - now rewrite (filter_key_snd _ v HF), Hk.
Qed.

Lemma list_sort_perm (rev_flag : bool) (l r : list A) :
  list_sort key rev_flag l = Ok r -> r ≡ₚ l.
Proof.
  unfold list_sort. intros H.
  apply obind_Ok_inv in H. destruct H as (s & Hs & [= <-]).
  pose proof (sort_keyed_perm _ _ Hs) as Hp.
  rewrite <- (keyed_snd l) at 1.
  destruct rev_flag.
  - now rewrite reverse_Permutation, Hp, reverse_Permutation.
  - now rewrite Hp.
Qed.

End Stability.

Lemma py_lt_raises (a b : pyval) (e : exn) : py_lt a b = Raised e -> e = TypeError.
Proof. destruct a, b; simpl; congruence. Qed.

Lemma py_lt_none_l (b : pyval) : py_lt PNone b = Raised TypeError.
Proof. reflexivity. Qed.

Lemma py_lt_none_r (a : pyval) : py_lt a PNone = Raised TypeError.
Proof. now destruct a. Qed.

Section SortRaises.

Context {A : Type}.

Lemma insert_keyed_raises (k : pyval) (x : A) (s : list (pyval * A)) (e : exn) :
  insert_keyed k x s = Raised e -> e = TypeError.
Proof.
  induction s as [|[k' y] s IH]; simpl; [discriminate|].
  destruct (py_lt k' k) as [b|e'] eqn:Hlt; simpl.
  - destruct b; [|discriminate].
    destruct (insert_keyed k x s); simpl; [discriminate|].
    intros [= <-]. now apply IH.
  - intros [= <-]. now apply py_lt_raises in Hlt.
Qed.

Lemma sort_keyed_raises (l : list (pyval * A)) (e : exn) :
  sort_keyed l = Raised e -> e = TypeError.
Proof.
  induction l as [|[k x] l IH]; simpl; [discriminate|].
  destruct (sort_keyed l) as [s|e']; simpl.
  - apply insert_keyed_raises.
  - intros [= <-]. now apply IH.
Qed.

(** A sort of two or more items, one of which has the key [None], does not
    return. *)
Lemma sort_keyed_none_not_Ok (l s : list (pyval * A)) :
  (2 <= length l)%nat -> PNone ∈ l.*1 -> sort_keyed l <> Ok s.
Proof.
  revert s. induction l as [|[k x] l IH]; intros s Hlen Hin; simpl in *; [lia|].
  destruct (sort_keyed l) as [s0|e] eqn:Hs0; simpl; [|discriminate].
  pose proof (sort_keyed_perm _ _ Hs0) as Hp.
  apply elem_of_cons in Hin. destruct Hin as [<-|Hin].
  - destruct s0 as [|[k' y] s0].
    + apply Permutation_length in Hp. simpl in Hp. lia.
    + simpl. now rewrite py_lt_none_r.
  - destruct (decide (2 <= length l)%nat) as [Hl|Hl].
    + exfalso. now apply (IH s0).
    + destruct l as [|[k1 x1] [|? ?]]; simpl in *; try lia.
      apply list_elem_of_singleton in Hin. subst k1.
      injection Hs0 as <-. simpl. discriminate.
Qed.

Lemma sort_keyed_none_raises (l : list (pyval * A)) :
  (2 <= length l)%nat -> PNone ∈ l.*1 -> sort_keyed l = Raised TypeError.
Proof.
  intros Hlen Hin. destruct (sort_keyed l) as [s|e] eqn:Hs.
  - now apply sort_keyed_none_not_Ok in Hs.
  - f_equal. now apply sort_keyed_raises in Hs.
Qed.

End SortRaises.

(** Sorting two or more records on a field that one of them holds as
    [None] raises [TypeError], in either direction: the default [""] of
    [x.get(sort_by, "")] only serves a missing key. *)
Lemma sort_todos_null_raises (sort_by sort_order : string) (l : list todo) (t : todo) :
  (2 <= length l)%nat ->
  t ∈ l ->
  t !! sort_by = Some PNone ->
  sort_todos sort_by sort_order l = Raised TypeError.
Proof.
  intros Hlen Hin Ht. unfold sort_todos, list_sort.
  rewrite sort_keyed_none_raises; [reflexivity| |].
  - destruct (String.eqb _ _); rewrite ?length_reverse, length_fmap; exact Hlen.
  - assert (Hk : PNone ∈ ((fun x : todo => (dict_get x sort_by (PStr ""), x)) <$> l).*1).
    { rewrite <- list_fmap_compose. apply list_elem_of_fmap.
      exists t. split; [|exact Hin]. simpl. unfold dict_get. now rewrite Ht. }
    destruct (String.eqb _ _); [|exact Hk].
    rewrite fmap_reverse. now apply elem_of_reverse.
Qed.

(** ** list_todos *)

(** C5, at the failing input.  The store holds two records made by
    [add_todo] without a due date, so each has [due_date] present with the
    value [None].  [list_todos(sort_by="due_date")] does not return a
    result: the sort compares [None] with [None] and the [TypeError] leaves
    [list_todos], which has no handler. *)
Theorem list_todos_null_due_date_raises :
  fst (list_todos sample_env None None None None None "due_date" "asc" 100 0
         two_todos_world)
    = Raised TypeError.
Proof. vm_compute. reflexivity. Qed.

(** The records of that store do hold [due_date] as [None]. *)
Example two_todos_due_dates :
  (fun t : todo => t !! "due_date") <$> disk_todos sample_env two_todos_world
    = [Some PNone; Some PNone].
Proof. vm_compute. reflexivity. Qed.

Lemma filter_step_fails_only (o : option string)
    (step : string -> list todo -> M (list todo + result)) :
  (forall s, fails_only (step s)) -> fails_only (filter_step o step).
Proof.
  intros Hstep l w res w'. unfold filter_step.
  destruct (given o) as [s|]; [apply Hstep|discriminate].
Qed.

Lemma and_then_fails_only (m : M (list todo + result))
    (k : list todo -> M (list todo + result)) (w w' : world) (res : result) :
  (forall w0 res0 w1, m w0 = (Ok (inr res0), w1) -> exists errs, res0 = Failure errs) ->
  fails_only k ->
  and_then m k w = (Ok (inr res), w') -> exists errs, res = Failure errs.
Proof.
  intros Hm Hk H. unfold and_then in H.
  step_in H as r Hr. destruct r as [l|res0].
  - now apply Hk in H.
  - injection H as <- _. now apply Hm in Hr.
Qed.

Lemma by_status_fails_only (s : string) : fails_only (by_status s).
Proof.
  intros l w res w'. unfold by_status, ret.
  destruct (negb _); intros [= <- _]; eauto.
Qed.

Lemma by_priority_fails_only (s : string) : fails_only (by_priority s).
Proof.
  intros l w res w'. unfold by_priority, ret.
  destruct (negb _); intros [= <- _]; eauto.
Qed.

Lemma by_search_fails_only (s : string) : fails_only (by_search s).
Proof.
  intros l w res w' H. unfold by_search in H.
  pure_in H as r Hr. discriminate.
Qed.

Lemma by_tag_fails_only (s : string) : fails_only (by_tag s).
Proof.
  intros l w res w' H. unfold by_tag in H.
  pure_in H as r Hr. discriminate.
Qed.

Lemma by_due_date_fails_only (E : environment) (s : string) :
  fails_only (by_due_date E s).
Proof.
  intros l w res w' H. unfold by_due_date in H.
  step_in H as now Hnow.
  repeat match type of H with
  | (if ?c then _ else _) _ = _ => destruct c
  end;
  try (pure_in H as r Hr); try discriminate.
  injection H as <- _. eauto.
Qed.

Lemma apply_filters_fails_only (E : environment)
    (status priority search tag due_date_filter : option string) :
  fails_only (apply_filters E status priority search tag due_date_filter).
Proof.
  intros l w res w'. unfold apply_filters.
  apply and_then_fails_only;
    [|apply filter_step_fails_only, by_due_date_fails_only].
  intros w0 res0 w1. apply and_then_fails_only;
    [|apply filter_step_fails_only, by_tag_fails_only].
  intros w2 res2 w3. apply and_then_fails_only;
    [|apply filter_step_fails_only, by_search_fails_only].
  intros w4 res4 w5. apply and_then_fails_only;
    [|apply filter_step_fails_only, by_priority_fails_only].
  intros w6 res6 w7.
  apply (filter_step_fails_only status by_status by_status_fails_only).
Qed.

(** ** Failed writes as seen by the callers of the persist step *)

Lemma _save_todos_true_write (E : environment) (todos : list todo) (w w' : world) :
  _save_todos E todos w = (Ok true, w') -> write_result E = WriteOk.
Proof.
  intros Hrun.
  destruct (_save_todos_spec E todos w) as (b & w2 & Hrun2 & [H|H]);
    rewrite Hrun in Hrun2; injection Hrun2 as <- <-.
  - tauto.
  - destruct H as (H & _). discriminate.
Qed.

Section WriteFailure.

Variable E : environment.
Hypothesis Hfail : write_result E <> WriteOk.

Lemma add_todo_write_failure (title description : string)
    (due_date : option string) (status priority : string)
    (tags : option (list string)) (w w' : world) (r : result) :
  add_todo E title description due_date status priority tags w = (Ok r, w') ->
  exists errs, r = Failure errs.
Proof.
  intros H. unfold add_todo in H.
  step_in H as t1 Ht1. step_in H as t2 Ht2.
  pure_in H as errs Hval.
  destruct errs as [|err errs]; [|injection H as <- _; eauto].
  step_in H as l Hload.
  pure_in H as ids Hids. pure_in H as m Hmax. pure_in H as nid Hadd.
  step_in H as saved Hsave. destruct saved.
  - apply _save_todos_true_write in Hsave. contradiction.
  - injection H as <- _. eauto.
Qed.

Lemma update_todo_write_failure (todo_id : Z)
    (title description due_date status priority : option string)
    (tags : option (list string)) (w w' : world) (r : result) :
  update_todo E todo_id title description due_date status priority tags w
    = (Ok r, w') ->
  exists errs, r = Failure errs.
Proof.
  intros H. unfold update_todo in H.
  step_in H as l Hload.
  pure_in H as idx Hfind.
  destruct idx as [i|]; [|injection H as <- _; eauto].
  destruct (l !! i) as [old|]; [|discriminate].
  step_in H as now Hnow.
  pure_in H as errs Hval.
  destruct errs as [|err errs]; [|injection H as <- _; eauto].
  step_in H as saved Hsave. destruct saved.
  - apply _save_todos_true_write in Hsave. contradiction.
  - injection H as <- _. eauto.
Qed.

Lemma delete_todo_write_failure (todo_id : Z) (w w' : world) (r : result) :
  delete_todo E todo_id w = (Ok r, w') -> exists errs, r = Failure errs.
Proof.
  intros H. unfold delete_todo in H.
  step_in H as l Hload.
  pure_in H as new_todos Hnew.
  destruct (Nat.eqb _ _); [injection H as <- _; eauto|].
  step_in H as saved Hsave. destruct saved.
  - apply _save_todos_true_write in Hsave. contradiction.
  - injection H as <- _. eauto.
Qed.

Lemma batch_delete_todos_write_failure (todo_ids : list Z) (w w' : world)
    (r : result) :
  batch_delete_todos E todo_ids w = (Ok r, w') -> exists errs, r = Failure errs.
Proof.
  intros H. unfold batch_delete_todos in H.
  step_in H as l Hload.
  pure_in H as new_todos Hnew.
  destruct (_ =? _); [injection H as <- _; eauto|].
  step_in H as saved Hsave. destruct saved.
  - apply _save_todos_true_write in Hsave. contradiction.
  - injection H as <- _. eauto.
Qed.

End WriteFailure.

(** On a disk that refuses writes, an [add_todo] with valid arguments ends
    in the failure result of the persist step, and the cache holds what the
    forced reload read. *)
Example add_todo_on_readonly_disk :
  fst (add_todo readonly_env "a" "" None "pending" "medium" None fresh_world)
    = Ok (Failure ["Failed to save todo"]) /\
  _todos_cache
    (snd (add_todo readonly_env "a" "" None "pending" "medium" None fresh_world))
    = Some [].
Proof. vm_compute. split; reflexivity. Qed.

(** * Further properties *)

(** ** Backups *)

Section Backups.

Variable E : environment.

(** A backup of an existing file, in full: one reading of the clock, and
    under the stamped name the copy, or what a failed copy left. *)
Lemma _create_backup_exists (suffix : option string) (w : world) (c : file_content) :
  file w = Some c ->
  _create_backup E suffix w =
    (Ok (if copy_fails E (backup_path E suffix w) then None
         else Some (backup_path E suffix w)),
     set_backups (backups_after_copy E (backup_path E suffix w) c (backups w))
       (set_tick (S (tick w)) w)).
Proof.
  intros Hf.
  unfold _create_backup, path_exists, datetime_now, copy_file, backup_path,
    backups_after_copy.
  unfold_monad. repeat (simpl; rewrite ?Hf).
  destruct (copy_fails E _); [|reflexivity].
  destruct (copy_residue E _); reflexivity.
Qed.

Lemma path_join_nonempty (a b : string) :
  b <> "" -> String.eqb (path_join a b) "" = false.
Proof.
  intros Hb. unfold path_join.
  destruct a as [|c a].
  - simpl. destruct b; [contradiction|reflexivity].
  - change (String.eqb (String c a) "") with false. cbv iota.
    destruct (ends_with_slash (String c a)); reflexivity.
Qed.

Lemma backup_filename_nonempty (timestamp : string) (suffix : option string) :
  backup_filename timestamp suffix <> "".
Proof. unfold backup_filename. simpl. discriminate. Qed.

End Backups.

(** X1.  The manual backup of an existing file: when the copy goes through,
    [create_backup] returns success with the path of the copy, the backup
    directory holds the file's content under that path and every other
    backup is as it was; when the copy fails it returns the failure result,
    and the backup directory holds under that path whatever the failed copy
    left (nothing new, or an empty, partial or complete file), every other
    backup being as it was.  The backing file is not touched in either
    case. *)
Theorem create_backup_existing_file (E : environment) (w : world) (c : file_content) :
  file w = Some c ->
  let path := backup_path E (Some "manual") w in
  let r := create_backup E w in
  file (snd r) = Some c /\
  (forall p, p <> path -> backups (snd r) !! p = backups w !! p) /\
  (copy_fails E path = false ->
     fst r = Ok (SuccessBackup path) /\
     backups (snd r) !! path = Some c) /\
  (copy_fails E path = true ->
     fst r = Ok (Failure ["Failed to create backup"]) /\
     backups (snd r) !! path =
       match copy_residue E path with
       | Some rest => Some rest
       | None => backups w !! path
       end).
Proof.
  intros Hf. simpl. unfold create_backup, bind.
  rewrite (_create_backup_exists E _ w c Hf).
  assert (Hne : String.eqb (backup_path E (Some "manual") w) "" = false)
    by apply path_join_nonempty, backup_filename_nonempty.
  unfold backups_after_copy.
  destruct (copy_fails E _) eqn:Hcopy.
  - simpl. split; [exact Hf|]. split; [|split; [discriminate|]].
    + intros p Hp. destruct (copy_residue E _); [now apply lookup_insert_ne|reflexivity].
    + intros _. split; [reflexivity|].
      destruct (copy_residue E _); [apply lookup_insert_eq|reflexivity].
  - rewrite Hne. simpl.
    split; [exact Hf|]. split; [|split; [|discriminate]].
    + intros p Hp. now apply lookup_insert_ne.
    + intros _. split; [reflexivity|apply lookup_insert_eq].
Qed.

Lemma create_backup_existing_file_witness :
  let path := backup_path torn_copy_env (Some "manual") two_todos_world in
  let r := create_backup torn_copy_env two_todos_world in
  file (snd r) = Some (Json (disk_todos sample_env two_todos_world)) /\
  (forall p, p <> path -> backups (snd r) !! p = backups two_todos_world !! p) /\
  (copy_fails torn_copy_env path = false ->
     fst r = Ok (SuccessBackup path) /\
     backups (snd r) !! path = Some (Json (disk_todos sample_env two_todos_world))) /\
  (copy_fails torn_copy_env path = true ->
     fst r = Ok (Failure ["Failed to create backup"]) /\
     backups (snd r) !! path =
       match copy_residue torn_copy_env path with
       | Some rest => Some rest
       | None => backups two_todos_world !! path
       end).
Proof.
  apply (create_backup_existing_file torn_copy_env two_todos_world
           (Json (disk_todos sample_env two_todos_world))).
  vm_compute. reflexivity.
Defined.

(** The manual backup of the sample store: the copy when the copy goes
    through, and the failure result over an empty backup file when the copy
    breaks after creating its destination. *)
Example create_backup_copied :
  let path := backup_path sample_env (Some "manual") two_todos_world in
  let r := create_backup sample_env two_todos_world in
  backups two_todos_world !! path = None /\
  fst r = Ok (SuccessBackup path) /\
  backups (snd r) !! path = file two_todos_world.
Proof. vm_compute. auto. Qed.

Example create_backup_torn_copy :
  let path := backup_path torn_copy_env (Some "manual") two_todos_world in
  let r := create_backup torn_copy_env two_todos_world in
  backups two_todos_world !! path = None /\
  fst r = Ok (Failure ["Failed to create backup"]) /\
  backups (snd r) !! path = Some (Garbage "").
Proof. vm_compute. auto. Qed.

(** X2.  A successful save of an existing file first attempts the copy of
    the previous content to the backup directory, under the stamped name
    without suffix, and then overwrites the file with the new records.
    When the copy goes through, the backup directory holds the previous
    content under that name; when it fails, the save goes through all the
    same and the directory holds there whatever the failed copy left
    (nothing new, or an empty, partial or complete file).  With no file yet
    there is nothing to copy. *)
Theorem save_backs_up_previous_file (E : environment) (todos : list todo) (w : world) :
  write_result E = WriteOk ->
  exists w',
    _save_todos E todos w = (Ok true, w') /\
    file w' = Some (Json todos) /\
    _todos_cache w' = Some todos /\
    backups w' =
      match file w with
      | Some c =>
          if copy_fails E (backup_path E None w) then
            match copy_residue E (backup_path E None w) with
            | Some rest => <[backup_path E None w := rest]> (backups w)
            | None => backups w
            end
          else <[backup_path E None w := c]> (backups w)
      | None => backups w
      end.
Proof.
  intros Hw. unfold _save_todos, try_except, bind at 1.
  destruct (file w) as [c|] eqn:Hf.
  - rewrite (_create_backup_exists E None w c Hf).
    unfold write_file, datetime_now, backups_after_copy. unfold_monad.
    rewrite Hw. simpl. eauto 10.
  - rewrite (_create_backup_no_file E None w Hf).
    unfold write_file, datetime_now. unfold_monad. rewrite Hw. simpl. eauto 10.
Qed.

Lemma save_backs_up_previous_file_witness :
  exists w',
    _save_todos torn_copy_env [] two_todos_world = (Ok true, w') /\
    file w' = Some (Json []) /\
    _todos_cache w' = Some [] /\
    backups w' =
      match file two_todos_world with
      | Some c =>
          if copy_fails torn_copy_env (backup_path torn_copy_env None two_todos_world)
          then
            match copy_residue torn_copy_env
                    (backup_path torn_copy_env None two_todos_world) with
            | Some rest =>
                <[backup_path torn_copy_env None two_todos_world := rest]>
                  (backups two_todos_world)
            | None => backups two_todos_world
            end
          else <[backup_path torn_copy_env None two_todos_world := c]>
                 (backups two_todos_world)
      | None => backups two_todos_world
      end.
Proof.
  apply (save_backs_up_previous_file torn_copy_env [] two_todos_world). reflexivity.
Defined.

(** A save of the sample store: the previous content is in the backup when
    the copy goes through; when the copy breaks after creating its
    destination, the save succeeds over an empty backup file. *)
Example save_copied :
  let path := backup_path sample_env None two_todos_world in
  let r := _save_todos sample_env [] two_todos_world in
  fst r = Ok true /\
  file (snd r) = Some (Json []) /\
  backups (snd r) !! path = file two_todos_world.
Proof. vm_compute. auto. Qed.

Example save_torn_copy :
  let path := backup_path torn_copy_env None two_todos_world in
  let r := _save_todos torn_copy_env [] two_todos_world in
  fst r = Ok true /\
  file (snd r) = Some (Json []) /\
  backups (snd r) !! path = Some (Garbage "").
Proof. vm_compute. auto. Qed.

(** X3.  Round trip.  When the write succeeds and the file can be read, a
    save returns true and any load that follows, forced or not, at any
    later clock reading, returns exactly the records that were saved. *)
Theorem save_then_load_roundtrip (E : environment) (todos : list todo)
    (w : world) (force_reload : bool) :
  write_result E = WriteOk ->
  read_fails E = false ->
  exists w',
    _save_todos E todos w = (Ok true, w') /\
    forall n, fst (_load_todos E force_reload (set_tick n w')) = Ok todos.
Proof.
  intros Hw Hr.
  destruct (save_backs_up_previous_file E todos w Hw) as (w' & Hsave & Hf & Hc & _).
  exists w'. split; [exact Hsave|]. intros n.
  destruct (_load_todos_total E force_reload (set_tick n w'))
    as (l & w2 & Hload & _ & Hcase).
  rewrite Hload. simpl. f_equal.
  destruct Hcase as [(_ & Hcache & _)|(_ & -> & _)].
  - simpl in Hcache. rewrite Hc in Hcache. now injection Hcache as <-.
  - unfold disk_todos. simpl. now rewrite Hf, Hr.
Qed.

Lemma save_then_load_roundtrip_witness :
  exists w',
    _save_todos sample_env (disk_todos sample_env two_todos_world) fresh_world
      = (Ok true, w') /\
    forall n, fst (_load_todos sample_env true (set_tick n w'))
              = Ok (disk_todos sample_env two_todos_world).
Proof.
  apply (save_then_load_roundtrip sample_env
           (disk_todos sample_env two_todos_world) fresh_world true);
    reflexivity.
Defined.

(** ** Validation in add_todo *)

Lemma dict_get_insert_eq (d : todo) (k : string) (v default : pyval) :
  dict_get (<[k := v]> d) k default = v.
Proof. unfold dict_get. now rewrite lookup_insert_eq. Qed.

Lemma dict_get_insert_ne (d : todo) (k k' : string) (v default : pyval) :
  k <> k' -> dict_get (<[k := v]> d) k' default = dict_get d k' default.
Proof. intros Hne. unfold dict_get. now rewrite lookup_insert_ne. Qed.

Ltac dict_get_simpl :=
  repeat first
    [ rewrite dict_get_insert_eq
    | rewrite dict_get_insert_ne by discriminate ].

Lemma ltb_of_nat_leb (n m : nat) :
  (Z.of_nat m <? Z.of_nat n) = negb (n <=? m)%nat.
Proof.
  destruct (n <=? m)%nat eqn:Hle; simpl.
  - apply Nat.leb_le in Hle. apply Z.ltb_ge. lia.
  - apply Nat.leb_gt in Hle. apply Z.ltb_lt. lia.
Qed.

(** Close a case in which the validation reports an error. *)
Ltac reject :=
  let H := fresh "H" in
  eexists; split; [reflexivity|]; split; intros H; discriminate H.

Section Validation.

Variable E : environment.

(** On the record built by [add_todo] the validation never raises, and it
    reports no error exactly for the acceptable arguments. *)
Lemma _validate_todo_candidate (title description : string)
    (due_date : option string) (status priority : string)
    (tags : option (list string)) (created updated : Z) :
  exists errs,
    _validate_todo E
      (candidate E title description due_date status priority tags created updated)
      = Ok errs /\
    (errs = [] <-> acceptable E title description due_date status priority = true).
Proof.
  unfold _validate_todo, candidate, acceptable. dict_get_simpl.
  unfold _validate_date, not_in_strings. simpl py_len. simpl truthy.
  cbv beta iota delta [obind].
  change 100 with (Z.of_nat 100). change 1000 with (Z.of_nat 1000).
  rewrite !ltb_of_nat_leb. simpl is_list. simpl negb at 1. rewrite andb_false_r.
  generalize (str_in status VALID_STATUSES) as bs.
  generalize (str_in priority VALID_PRIORITIES) as bp.
  generalize (join ", " VALID_STATUSES) as js.
  generalize (join ", " VALID_PRIORITIES) as jp.
  intros jp js bp bs.
  destruct due_date as [d|]; simpl.
  - destruct (String.eqb d "") eqn:Hd; simpl.
    + destruct (String.eqb title ""); simpl; [reject|].
      destruct (String.length title <=? 100)%nat; simpl; [|reject].
      destruct (String.length description <=? 1000)%nat; simpl; [|reject].
      (destruct (String.eqb status ""); simpl; [|destruct bs; simpl; [|reject]]);
      (destruct (String.eqb priority ""); simpl; [|destruct bp; simpl; [|reject]]);
      (eexists; split; [reflexivity|]; split; reflexivity).
    + destruct (strptime_ok E d); simpl.
      * destruct (String.eqb title ""); simpl; [reject|].
        destruct (String.length title <=? 100)%nat; simpl; [|reject].
        destruct (String.length description <=? 1000)%nat; simpl; [|reject].
        (destruct (String.eqb status ""); simpl; [|destruct bs; simpl; [|reject]]);
        (destruct (String.eqb priority ""); simpl; [|destruct bp; simpl; [|reject]]);
        (eexists; split; [reflexivity|]; split; reflexivity).
      * destruct (String.eqb title ""); simpl; [reject|].
        destruct (String.length title <=? 100)%nat; simpl; [|reject].
        destruct (String.length description <=? 1000)%nat; simpl; [|reject].
        reject.
  - destruct (String.eqb title ""); simpl; [reject|].
    destruct (String.length title <=? 100)%nat; simpl; [|reject].
    destruct (String.length description <=? 1000)%nat; simpl; [|reject].
    (destruct (String.eqb status ""); simpl; [|destruct bs; simpl; [|reject]]);
    (destruct (String.eqb priority ""); simpl; [|destruct bp; simpl; [|reject]]);
    (eexists; split; [reflexivity|]; split; reflexivity).
Qed.

End Validation.

(** ** Forward runs *)

Lemma bind_Ok {A B} (m : M A) (k : A -> M B) (w w1 : world) (a : A) :
  m w = (Ok a, w1) -> bind m k w = k a w1.
Proof. unfold bind. now intros ->. Qed.

Lemma bind_lift_Ok {A B} (o : outcome A) (k : A -> M B) (w : world) (a : A) :
  o = Ok a -> bind (lift o) k w = k a w.
Proof. intros ->. reflexivity. Qed.

Lemma bind_datetime_now {B} (E : environment) (k : Z -> M B) (w : world) :
  bind (datetime_now E) k w = k (now_at E (tick w)) (set_tick (S (tick w)) w).
Proof. reflexivity. Qed.

Lemma omap_getitem_of_ids (l : list todo) (ids : list pyval) :
  record_ids l = Some <$> ids ->
  omap_list (fun x : todo => getitem x "id") l = Ok ids.
Proof.
  unfold record_ids. revert ids.
  induction l as [|t l IH]; intros [|v ids]; try discriminate.
  - reflexivity.
  - rewrite !fmap_cons. intros [= Hv Hl].
    cbn [omap_list]. unfold getitem at 1. rewrite Hv.
    cbn [obind]. now rewrite (IH ids Hl).
Qed.

Lemma py_max_from_ints (zs : list Z) (z0 : Z) :
  py_max_from (PInt z0) (PInt <$> zs) = Ok (PInt (fold_left Z.max zs z0)).
Proof.
  revert z0. induction zs as [|z zs IH]; intros z0; simpl; [reflexivity|].
  replace (if z0 <? z then PInt z else PInt z0) with (PInt (Z.max z0 z)).
  - apply IH.
  - destruct (z0 <? z) eqn:Hlt; f_equal.
    + apply Z.ltb_lt in Hlt. lia.
    + apply Z.ltb_ge in Hlt. lia.
Qed.

Lemma py_max_ints (zs : list Z) :
  py_max (PInt <$> zs) (PInt 0) = Ok (PInt (max_default zs 0)).
Proof. destruct zs as [|z zs]; simpl; [reflexivity|apply py_max_from_ints]. Qed.

(** A record that holds the nine fields is its own serialisation. *)
Lemma _serialize_todo_full (id title description due_date status priority tags
    created_at updated_at : pyval) :
  let t : todo :=
    <["id" := id]>
    (<["title" := title]>
    (<["description" := description]>
    (<["due_date" := due_date]>
    (<["status" := status]>
    (<["priority" := priority]>
    (<["tags" := tags]>
    (<["created_at" := created_at]>
    (<["updated_at" := updated_at]> ∅)))))))) in
  _serialize_todo t = Ok t.
Proof.
  intros t. unfold _serialize_todo, getitem, dict_get.
  subst t.
  repeat first
    [ rewrite lookup_insert_eq
    | rewrite lookup_insert_ne by discriminate ].
  reflexivity.
Qed.

(** ** add_todo, start to end *)

(** X4.  [add_todo] with arguments that the validation does not let
    through (empty or over-long title, over-long description, malformed
    due date, unknown status or priority) returns a failure result with at
    least one message, and it has then done nothing but read the clock
    twice: no load, no backup, no write, cache and file untouched. *)
Theorem add_todo_rejects_invalid (E : environment) (title description : string)
    (due_date : option string) (status priority : string)
    (tags : option (list string)) (w : world) :
  acceptable E title description due_date status priority = false ->
  exists errs,
    errs <> [] /\
    add_todo E title description due_date status priority tags w
      = (Ok (Failure errs), set_tick (S (S (tick w))) w).
Proof.
  intros Hbad.
  destruct (_validate_todo_candidate E title description due_date status priority
              tags (now_at E (tick w)) (now_at E (S (tick w))))
    as (errs & Hval & Hiff).
  exists errs. split.
  - intros ->. rewrite (proj1 Hiff eq_refl) in Hbad. discriminate.
  - unfold add_todo. rewrite !bind_datetime_now.
    unfold candidate in Hval. simpl tick.
    rewrite (bind_lift_Ok _ _ _ _ Hval).
    destruct errs as [|e errs]; [|reflexivity].
    rewrite (proj1 Hiff eq_refl) in Hbad. discriminate.
Qed.

Lemma add_todo_rejects_invalid_witness :
  exists errs,
    errs <> [] /\
    add_todo sample_env "" "" None "pending" "medium" None two_todos_world
      = (Ok (Failure errs), set_tick (S (S (tick two_todos_world))) two_todos_world).
Proof.
  apply (add_todo_rejects_invalid sample_env "" "" None "pending" "medium" None
           two_todos_world).
  reflexivity.
Defined.

(** X5.  [add_todo] with acceptable arguments, on a store whose ids are
    integers and a disk that takes the write, succeeds.  The record it
    returns is the record it stored: it holds the arguments as given (tags
    default to the empty list, a missing due date is [None]), the next id,
    and the two times read at the start of the call; it is appended to the
    records read from the file, and the cache holds the same list. *)
Theorem add_todo_succeeds (E : environment) (title description : string)
    (due_date : option string) (status priority : string)
    (tags : option (list string)) (w : world) (zs : list Z) :
  acceptable E title description due_date status priority = true ->
  write_result E = WriteOk ->
  record_ids (disk_todos E w) = (fun z => Some (PInt z)) <$> zs ->
  let t : todo :=
    <["id" := PInt (max_default zs 0 + 1)]>
      (candidate E title description due_date status priority tags
         (now_at E (tick w)) (now_at E (S (tick w)))) in
  exists w',
    add_todo E title description due_date status priority tags w
      = (Ok (SuccessTodo t), w') /\
    file w' = Some (Json (disk_todos E w ++ [t])) /\
    _todos_cache w' = Some (disk_todos E w ++ [t]).
Proof.
  intros Hok Hw Hids t.
  destruct (_validate_todo_candidate E title description due_date status priority
              tags (now_at E (tick w)) (now_at E (S (tick w))))
    as (errs & Hval & Hiff).
  rewrite (proj2 Hiff Hok) in Hval. clear Hiff.
  unfold add_todo. rewrite !bind_datetime_now.
  unfold candidate in Hval, t. simpl tick.
  rewrite (bind_lift_Ok _ _ _ _ Hval). cbv beta iota.
  match goal with
  | |- context [bind (_load_todos E true) _ ?w0] =>
      destruct (_load_todos_miss E true w0 eq_refl) as (w1 & Hload & _)
  end.
  rewrite (bind_Ok _ _ _ _ _ Hload).
  change (disk_todos E (set_tick _ (set_tick _ w))) with (disk_todos E w).
  assert (Hids' : record_ids (disk_todos E w) = Some <$> (PInt <$> zs)).
  { rewrite Hids. now rewrite <- list_fmap_compose. }
  rewrite (bind_lift_Ok _ _ _ _ (omap_getitem_of_ids _ _ Hids')).
  rewrite (bind_lift_Ok _ _ _ _ (py_max_ints zs)).
  rewrite (bind_lift_Ok _ _ _ (PInt (max_default zs 0 + 1)) eq_refl).
  cbv beta iota zeta.
  match goal with
  | |- context [bind (_save_todos E ?l) _ ?w0] =>
      destruct (save_backs_up_previous_file E l w0 Hw) as (w' & Hsave & Hf & Hc & _)
  end.
  exists w'. rewrite (bind_Ok _ _ _ _ _ Hsave).
  rewrite (bind_lift_Ok _ _ _ _ (_serialize_todo_full _ _ _ _ _ _ _ _ _)).
  auto.
Qed.

Lemma add_todo_succeeds_witness :
  let t : todo :=
    <["id" := PInt (max_default [1; 2] 0 + 1)]>
      (candidate sample_env "c" "" None "pending" "medium" None
         (now_at sample_env (tick two_todos_world))
         (now_at sample_env (S (tick two_todos_world)))) in
  exists w',
    add_todo sample_env "c" "" None "pending" "medium" None two_todos_world
      = (Ok (SuccessTodo t), w') /\
    file w' = Some (Json (disk_todos sample_env two_todos_world ++ [t])) /\
    _todos_cache w' = Some (disk_todos sample_env two_todos_world ++ [t]).
Proof.
  apply (add_todo_succeeds sample_env "c" "" None "pending" "medium" None
           two_todos_world [1; 2]).
  - reflexivity.
  - reflexivity.
  - vm_compute. reflexivity.
Defined.

(** ** get_todo *)

Lemma py_eq_false (a b : pyval) : py_eq a b = false <-> a <> b.
Proof. unfold py_eq. apply bool_decide_eq_false. Qed.

(** The loop of [get_todo] passes over records with other ids. *)
Lemma get_loop_app (todo_id : Z) (l r : list todo) (ids : list pyval) :
  record_ids l = Some <$> ids ->
  PInt todo_id ∉ ids ->
  get_loop todo_id (l ++ r) = get_loop todo_id r.
Proof.
  unfold record_ids. revert ids.
  induction l as [|t l IH]; intros [|v ids]; try discriminate; [reflexivity|].
  rewrite !fmap_cons. intros [= Hv Hl] Hnot.
  apply not_elem_of_cons in Hnot. destruct Hnot as [Hne Hnot].
  cbn [app get_loop]. unfold getitem at 1. rewrite Hv. cbn [obind].
  assert (Heq : py_eq v (PInt todo_id) = false) by (apply py_eq_false; congruence).
  rewrite Heq. now apply (IH ids).
Qed.

Lemma get_loop_missing (todo_id : Z) (l : list todo) (ids : list pyval) :
  record_ids l = Some <$> ids ->
  PInt todo_id ∉ ids ->
  get_loop todo_id l
    = Ok (Failure ["Todo " +:+ str_of_int todo_id +:+ " not found"]).
Proof.
  intros Hids Hnot.
  rewrite <- (app_nil_r l). now rewrite (get_loop_app _ _ _ _ Hids Hnot).
Qed.

(** What a non-forced load returns once the cache and the file hold the
    same records: those records, from either. *)
Lemma _load_todos_coherent (E : environment) (force_reload : bool)
    (w : world) (l : list todo) :
  read_fails E = false ->
  file w = Some (Json l) ->
  _todos_cache w = Some l ->
  exists w', _load_todos E force_reload w = (Ok l, w') /\
             file w' = Some (Json l) /\ _todos_cache w' = Some l.
Proof.
  intros Hr Hf Hc.
  destruct (_load_todos_total E force_reload w) as (l' & w' & Hload & Hf' & Hcase).
  assert (l' = l) as ->.
  { destruct Hcase as [(_ & Hc' & _)|(_ & -> & _)].
    - rewrite Hc in Hc'. now injection Hc' as <-.
    - unfold disk_todos. now rewrite Hf, Hr. }
  exists w'. split; [exact Hload|]. split; [now rewrite Hf'|].
  destruct Hcase as [(_ & _ & Hc' & _)|(_ & _ & Hc')]; [now rewrite Hc'|exact Hc'].
Qed.

(** X6.  A record just added can be fetched: after a successful [add_todo]
    (acceptable arguments, integer ids in the store, a disk that reads and
    writes), [get_todo] with the id that was assigned returns the very
    record that [add_todo] returned. *)
Theorem get_todo_after_add_todo (E : environment) (title description : string)
    (due_date : option string) (status priority : string)
    (tags : option (list string)) (w : world) (zs : list Z) :
  acceptable E title description due_date status priority = true ->
  write_result E = WriteOk ->
  read_fails E = false ->
  record_ids (disk_todos E w) = (fun z => Some (PInt z)) <$> zs ->
  exists t w',
    add_todo E title description due_date status priority tags w
      = (Ok (SuccessTodo t), w') /\
    t !! "id" = Some (PInt (max_default zs 0 + 1)) /\
    fst (get_todo E (max_default zs 0 + 1) w') = Ok (SuccessTodo t).
Proof.
  intros Hok Hw Hr Hids.
  destruct (add_todo_succeeds E title description due_date status priority tags
              w zs Hok Hw Hids) as (w' & Hadd & Hf & Hc).
  eexists _, w'. split; [exact Hadd|]. split; [apply lookup_insert_eq|].
  unfold get_todo.
  destruct (_load_todos_coherent E false w' _ Hr Hf Hc) as (w2 & Hload & _).
  rewrite (bind_Ok _ _ _ _ _ Hload). unfold lift. cbn [fst].
  assert (Hids' : record_ids (disk_todos E w) = Some <$> (PInt <$> zs)).
  { rewrite Hids. now rewrite <- list_fmap_compose. }
  rewrite (get_loop_app _ _ _ _ Hids').
  - cbn [get_loop]. unfold getitem at 1. rewrite lookup_insert_eq. cbn [obind].
    unfold py_eq. rewrite bool_decide_eq_true_2 by reflexivity.
    unfold candidate. now rewrite _serialize_todo_full.
  - intros Hin. apply list_elem_of_fmap in Hin. destruct Hin as (z & [= <-] & Hz).
    pose proof (max_default_ge zs 0) as Hge.
    rewrite Forall_forall in Hge. specialize (Hge _ Hz). lia.
Qed.

Lemma get_todo_after_add_todo_witness :
  exists t w',
    add_todo sample_env "c" "" None "pending" "medium" None two_todos_world
      = (Ok (SuccessTodo t), w') /\
    t !! "id" = Some (PInt (max_default [1; 2] 0 + 1)) /\
    fst (get_todo sample_env (max_default [1; 2] 0 + 1) w') = Ok (SuccessTodo t).
Proof.
  apply (get_todo_after_add_todo sample_env "c" "" None "pending" "medium" None
           two_todos_world [1; 2]).
  - reflexivity.
  - reflexivity.
  - reflexivity.
  - vm_compute. reflexivity.
Defined.

(** ** delete_todo and batch_delete_todos *)

(** A comprehension that tests the id of each record is a plain filter once
    every record has an id. *)
Lemma ofilter_by_id (q : pyval -> bool) (P : todo -> Prop)
    `{!forall t, Decision (P t)} (l : list todo) (ids : list pyval) :
  record_ids l = Some <$> ids ->
  (forall t v, t !! "id" = Some v -> (q v = true <-> P t)) ->
  ofilter (fun t => let? v := getitem t "id" in Ok (q v)) l = Ok (filter P l).
Proof.
  unfold record_ids. intros Hids Hq. revert ids Hids.
  induction l as [|t l IH]; intros [|v ids]; try discriminate; [reflexivity|].
  rewrite !fmap_cons. intros [= Hv Hl].
  cbn [ofilter]. unfold getitem at 1. rewrite Hv. cbn [obind].
  rewrite (IH ids Hl). cbn [obind]. rewrite filter_cons.
  destruct (q v) eqn:Hqv.
  - rewrite decide_True; [reflexivity|]. now apply (Hq t v Hv).
  - rewrite decide_False; [reflexivity|].
    intros HP. apply (Hq t v Hv) in HP. congruence.
Qed.

Lemma filter_length_eq {A} (P : A -> Prop) `{!forall x, Decision (P x)} (l : list A) :
  length (filter P l) = length l <-> Forall P l.
Proof.
  induction l as [|x l IH]; [split; [constructor|reflexivity]|].
  rewrite filter_cons. pose proof (length_filter P l) as Hle.
  destruct (decide (P x)) as [HP|HP]; simpl.
  - split.
    + intros [= Hlen]. constructor; [exact HP|now apply IH].
    + intros HF. apply Forall_cons in HF. f_equal. now apply IH.
  - split; [lia|]. intros HF. apply Forall_cons in HF. tauto.
Qed.

Lemma in_ids_true (v : pyval) (todo_ids : list Z) :
  in_ids v todo_ids = true <-> Exists (fun z => v = PInt z) todo_ids.
Proof.
  unfold in_ids. induction todo_ids as [|z zs IH]; simpl.
  - split; [discriminate|]. intros H. inversion H.
  - rewrite orb_true_iff, Exists_cons, IH, py_eq_true. reflexivity.
Qed.

Section Delete.

Variable E : environment.

(** X7.  [delete_todo] on a store whose records all have an id, with a
    disk that takes the write.  If some record has the id, the call
    succeeds and the file and the cache hold the other records, in their
    order (every record with that id is gone); if none has it, the call
    returns the "not found" failure and the file is untouched. *)
Theorem delete_todo_removes (todo_id : Z) (w : world) (ids : list pyval) :
  record_ids (disk_todos E w) = Some <$> ids ->
  write_result E = WriteOk ->
  exists w',
    file w' = (if decide (PInt todo_id ∈ ids)
               then Some (Json (without_id todo_id (disk_todos E w)))
               else file w) /\
    delete_todo E todo_id w =
      (if decide (PInt todo_id ∈ ids)
       then Ok (SuccessMessage ("Todo " +:+ str_of_int todo_id +:+ " deleted"))
       else Ok (Failure ["Todo " +:+ str_of_int todo_id +:+ " not found"]),
       w') /\
    (PInt todo_id ∈ ids ->
       _todos_cache w' = Some (without_id todo_id (disk_todos E w))).
Proof.
  intros Hids Hw. unfold delete_todo.
  destruct (_load_todos_miss E true w eq_refl) as (w1 & Hload & Hf1 & _).
  rewrite (bind_Ok _ _ _ _ _ Hload).
  assert (Hfilter :
    ofilter (fun t : todo => let? v := getitem t "id" in
                             Ok (negb (py_eq v (PInt todo_id)))) (disk_todos E w)
      = Ok (without_id todo_id (disk_todos E w))).
  { apply (ofilter_by_id _ _ _ ids Hids). intros t v Hv.
    unfold has_id. rewrite Hv, negb_true_iff, py_eq_false. split; congruence. }
  rewrite (bind_lift_Ok _ _ _ _ Hfilter).
  assert (Hall : Forall (fun t => ~ has_id todo_id t) (disk_todos E w)
                 <-> PInt todo_id ∉ ids).
  { rewrite Forall_forall. unfold has_id. split.
    - intros HF Hin.
      assert (Hin' : Some (PInt todo_id) ∈ record_ids (disk_todos E w)).
      { rewrite Hids. now apply list_elem_of_fmap_2. }
      unfold record_ids in Hin'. apply list_elem_of_fmap in Hin'.
      destruct Hin' as (t & Ht & Htin). now apply (HF t Htin).
    - intros Hnot t Htin Ht. apply Hnot.
      assert (Hin' : Some (PInt todo_id) ∈ record_ids (disk_todos E w)).
      { unfold record_ids. apply list_elem_of_fmap. eauto. }
      rewrite Hids in Hin'. apply list_elem_of_fmap in Hin'.
      destruct Hin' as (v & [= <-] & Hv). exact Hv. }
  destruct (Nat.eqb _ _) eqn:Hlen.
  - apply Nat.eqb_eq in Hlen. unfold without_id in Hlen.
    apply filter_length_eq, Hall in Hlen.
    rewrite !decide_False by exact Hlen.
    exists w1. unfold ret. split; [exact Hf1|]. split; [reflexivity|]. tauto.
  - apply Nat.eqb_neq in Hlen.
    assert (Hin : PInt todo_id ∈ ids).
    { destruct (decide (PInt todo_id ∈ ids)) as [Hin|Hnot]; [exact Hin|].
      exfalso. apply Hlen. unfold without_id. now apply filter_length_eq, Hall. }
    rewrite !decide_True by exact Hin.
    destruct (save_backs_up_previous_file E (without_id todo_id (disk_todos E w))
                w1 Hw) as (w' & Hsave & Hf & Hc & _).
    exists w'. rewrite (bind_Ok _ _ _ _ _ Hsave). unfold ret. auto.
Qed.

End Delete.

Lemma delete_todo_removes_witness :
  exists w',
    file w' = (if decide (PInt 1 ∈ [PInt 1; PInt 2])
               then Some (Json (without_id 1 (disk_todos sample_env two_todos_world)))
               else file two_todos_world) /\
    delete_todo sample_env 1 two_todos_world =
      (if decide (PInt 1 ∈ [PInt 1; PInt 2])
       then Ok (SuccessMessage ("Todo " +:+ str_of_int 1 +:+ " deleted"))
       else Ok (Failure ["Todo " +:+ str_of_int 1 +:+ " not found"]),
       w') /\
    (PInt 1 ∈ [PInt 1; PInt 2] ->
       _todos_cache w' = Some (without_id 1 (disk_todos sample_env two_todos_world))).
Proof.
  apply (delete_todo_removes sample_env 1 two_todos_world [PInt 1; PInt 2]).
  - vm_compute. reflexivity.
  - reflexivity.
Defined.

Section BatchDelete.

Variable E : environment.

(** X8.  [batch_delete_todos] on a store whose records all have an id,
    with a disk that takes the write.  The records whose id is in the list
    are removed and the others kept in order; ids in the list that match no
    record are ignored.  The message counts the records removed.  When no
    record matches (for one, when the list is empty) the call returns the
    failure "No matching todos found" and the file is untouched. *)
Theorem batch_delete_todos_removes (todo_ids : list Z) (w : world) (ids : list pyval) :
  record_ids (disk_todos E w) = Some <$> ids ->
  write_result E = WriteOk ->
  let remaining := without_ids todo_ids (disk_todos E w) in
  let deleted_count :=
    Z.of_nat (length (disk_todos E w)) - Z.of_nat (length remaining) in
  exists w',
    batch_delete_todos E todo_ids w =
      (if deleted_count =? 0
       then Ok (Failure ["No matching todos found"])
       else Ok (SuccessMessage (str_of_int deleted_count +:+ " todos deleted")),
       w') /\
    file w' = (if deleted_count =? 0 then file w else Some (Json remaining)) /\
    (deleted_count = 0 <->
       Forall (fun t => ~ Exists (fun z => has_id z t) todo_ids) (disk_todos E w)).
Proof.
  intros Hids Hw remaining deleted_count. unfold batch_delete_todos.
  destruct (_load_todos_miss E true w eq_refl) as (w1 & Hload & Hf1 & _).
  rewrite (bind_Ok _ _ _ _ _ Hload).
  assert (Hfilter :
    ofilter (fun t : todo => let? v := getitem t "id" in
                             Ok (negb (in_ids v todo_ids))) (disk_todos E w)
      = Ok remaining).
  { apply (ofilter_by_id _ _ _ ids Hids). intros t v Hv.
    rewrite negb_true_iff, <- not_true_iff_false, in_ids_true.
    unfold has_id. rewrite Hv.
    split; intros Hn Hex; apply Hn; eapply Exists_impl; eauto; simpl; congruence. }
  rewrite (bind_lift_Ok _ _ _ _ Hfilter). cbv zeta.
  fold deleted_count.
  assert (Hzero : deleted_count = 0 <->
            Forall (fun t => ~ Exists (fun z => has_id z t) todo_ids) (disk_todos E w)).
  { pose proof (filter_length_eq
                  (fun t : todo => ~ Exists (fun z => has_id z t) todo_ids)
                  (disk_todos E w)) as [H1 H2].
    unfold deleted_count, remaining, without_ids. split; intros H.
    - apply H1. lia.
    - apply H2 in H. rewrite H. lia. }
  destruct (deleted_count =? 0) eqn:Hcount.
  - exists w1. unfold ret. auto.
  - destruct (save_backs_up_previous_file E remaining w1 Hw)
      as (w' & Hsave & Hf & _).
    exists w'. rewrite (bind_Ok _ _ _ _ _ Hsave). unfold ret. auto.
Qed.

End BatchDelete.

Lemma batch_delete_todos_removes_witness :
  let remaining := without_ids [2; 7] (disk_todos sample_env two_todos_world) in
  let deleted_count :=
    Z.of_nat (length (disk_todos sample_env two_todos_world))
    - Z.of_nat (length remaining) in
  exists w',
    batch_delete_todos sample_env [2; 7] two_todos_world =
      (if deleted_count =? 0
       then Ok (Failure ["No matching todos found"])
       else Ok (SuccessMessage (str_of_int deleted_count +:+ " todos deleted")),
       w') /\
    file w' = (if deleted_count =? 0 then file two_todos_world
               else Some (Json remaining)) /\
    (deleted_count = 0 <->
       Forall (fun t => ~ Exists (fun z => has_id z t) [2; 7])
         (disk_todos sample_env two_todos_world)).
Proof.
  apply (batch_delete_todos_removes sample_env [2; 7] two_todos_world
           [PInt 1; PInt 2]).
  - vm_compute. reflexivity.
  - reflexivity.
Defined.

(** Deleting ids 2 and 7 from the sample store removes one record and does
    not fail for the id that matches nothing. *)
Example batch_delete_one_of_two :
  fst (batch_delete_todos sample_env [2; 7] two_todos_world)
    = Ok (SuccessMessage "1 todos deleted").
Proof. vm_compute. reflexivity. Qed.

(** The loop of [get_todo] finds nothing among records with other ids. *)
Lemma get_loop_none (todo_id : Z) (l : list todo) :
  Forall (fun t : todo => exists v, t !! "id" = Some v /\ v <> PInt todo_id) l ->
  get_loop todo_id l
    = Ok (Failure ["Todo " +:+ str_of_int todo_id +:+ " not found"]).
Proof.
  induction 1 as [|t l (v & Hv & Hne) _ IH]; [reflexivity|].
  cbn [get_loop]. unfold getitem at 1. rewrite Hv. cbn [obind].
  assert (Heq : py_eq v (PInt todo_id) = false) by now apply py_eq_false.
  now rewrite Heq.
Qed.

(** X9.  A deleted record is gone: after a successful [delete_todo] on a
    store whose records all have an id (a disk that reads and writes),
    [get_todo] with the same id reports "not found". *)
Theorem get_todo_after_delete_todo (E : environment) (todo_id : Z) (w : world)
    (ids : list pyval) :
  record_ids (disk_todos E w) = Some <$> ids ->
  PInt todo_id ∈ ids ->
  write_result E = WriteOk ->
  read_fails E = false ->
  exists w',
    delete_todo E todo_id w
      = (Ok (SuccessMessage ("Todo " +:+ str_of_int todo_id +:+ " deleted")), w') /\
    fst (get_todo E todo_id w')
      = Ok (Failure ["Todo " +:+ str_of_int todo_id +:+ " not found"]).
Proof.
  intros Hids Hin Hw Hr.
  destruct (delete_todo_removes E todo_id w ids Hids Hw) as (w' & Hf & Hrun & Hc).
  rewrite decide_True in Hf by exact Hin.
  rewrite decide_True in Hrun by exact Hin. specialize (Hc Hin).
  exists w'. split; [exact Hrun|].
  unfold get_todo.
  destruct (_load_todos_coherent E false w' _ Hr Hf Hc) as (w2 & Hload & _).
  rewrite (bind_Ok _ _ _ _ _ Hload). unfold lift. cbn [fst].
  apply get_loop_none. unfold without_id.
  apply Forall_forall. intros t Ht. apply list_elem_of_filter in Ht.
  destruct Ht as [Hnot Htin].
  assert (Hid : t !! "id" ∈ record_ids (disk_todos E w)).
  { unfold record_ids. now apply list_elem_of_fmap_2. }
  rewrite Hids in Hid. apply list_elem_of_fmap in Hid.
  destruct Hid as (v & Hv & _). exists v. split; [exact Hv|].
  intros ->. now apply Hnot.
Qed.

Lemma get_todo_after_delete_todo_witness :
  exists w',
    delete_todo sample_env 1 two_todos_world
      = (Ok (SuccessMessage ("Todo " +:+ str_of_int 1 +:+ " deleted")), w') /\
    fst (get_todo sample_env 1 w')
      = Ok (Failure ["Todo " +:+ str_of_int 1 +:+ " not found"]).
Proof.
  apply (get_todo_after_delete_todo sample_env 1 two_todos_world [PInt 1; PInt 2]).
  - vm_compute. reflexivity.
  - apply list_elem_of_here.
  - reflexivity.
  - reflexivity.
Defined.

(** ** All-or-nothing mutations *)

Lemma _load_todos_forced_run (E : environment) (w w1 : world) (r : outcome (list todo)) :
  _load_todos E true w = (r, w1) ->
  r = Ok (disk_todos E w) /\ file w1 = file w.
Proof.
  intros H.
  destruct (_load_todos_miss E true w eq_refl) as (w2 & Hrun & Hf & _).
  rewrite Hrun in H. injection H as <- <-. auto.
Qed.

Lemma _save_todos_run (E : environment) (todos : list todo) (w w1 : world)
    (r : outcome bool) :
  _save_todos E todos w = (r, w1) ->
  (r = Ok true /\ file w1 = Some (Json todos) /\ _todos_cache w1 = Some todos) \/
  (r = Ok false /\ (file w1 = file w \/ exists raw, file w1 = Some (Garbage raw))).
Proof.
  intros H.
  destruct (_save_todos_spec E todos w) as (b & w2 & Hrun & Hcase).
  rewrite Hrun in H. injection H as <- <-.
  destruct Hcase as [(-> & _ & Hf & Hc)|(-> & _ & _ & _ & Hf)]; auto.
Qed.

Section Atomic.

Variable E : environment.

Lemma add_todo_atomic (title description : string) (due_date : option string)
    (status priority : string) (tags : option (list string))
    (w w' : world) (r : outcome result) :
  add_todo E title description due_date status priority tags w = (r, w') ->
  (succeeded r /\ exists l, file w' = Some (Json l) /\ _todos_cache w' = Some l)
  \/ (~ succeeded r /\ file_kept w w').
Proof.
  intros H. unfold add_todo in H. rewrite !bind_datetime_now in H.
  apply bind_inv in H. destruct H as [(errs & w1 & Hval & H)|(e & Hval & ->)];
    apply lift_inv in Hval; destruct Hval as [Hval Hw1]; subst.
  2:{ right. split; [intros (x & [=] & _)|now left]. }
  destruct errs as [|err errs].
  2:{ injection H as <- <-. right. split; [intros (x & [= <-] & [=])|now left]. }
  apply bind_inv in H. destruct H as [(l & w1 & Hload & H)|(e & Hload & ->)];
    apply _load_todos_forced_run in Hload; destruct Hload as [Hl Hf1];
    [injection Hl as ->|discriminate].
  simpl in Hf1.
  apply bind_inv in H. destruct H as [(ids & w2 & Hids & H)|(e & Hids & ->)];
    apply lift_inv in Hids; destruct Hids as [Hids ->].
  2:{ right. split; [intros (x & [=] & _)|now left]. }
  apply bind_inv in H. destruct H as [(m & w2 & Hmax & H)|(e & Hmax & ->)];
    apply lift_inv in Hmax; destruct Hmax as [Hmax ->].
  2:{ right. split; [intros (x & [=] & _)|now left]. }
  apply bind_inv in H. destruct H as [(nid & w2 & Hadd & H)|(e & Hadd & ->)];
    apply lift_inv in Hadd; destruct Hadd as [Hadd ->].
  2:{ right. split; [intros (x & [=] & _)|now left]. }
  cbv zeta in H.
  apply bind_inv in H. destruct H as [(saved & w2 & Hsave & H)|(e & Hsave & ->)];
    apply _save_todos_run in Hsave;
    destruct Hsave as [(Hr & Hf & Hc)|(Hr & Hf)]; try discriminate;
    injection Hr as ->.
  - rewrite (bind_lift_Ok _ _ _ _ (_serialize_todo_full _ _ _ _ _ _ _ _ _)) in H.
    injection H as <- <-. left. split; [eexists; split; reflexivity|eauto].
  - injection H as <- <-. right. split; [intros (x & [= <-] & [=])|].
    unfold file_kept. rewrite <- Hf1. exact Hf.
Qed.

Lemma update_todo_result_shape (todo_id : Z)
    (title description due_date status priority : option string)
    (tags : option (list string)) (w w' : world) (r : result) :
  update_todo E todo_id title description due_date status priority tags w
    = (Ok r, w') ->
  (exists t, r = SuccessTodo t) \/ (exists errs, r = Failure errs).
Proof.
  intros H. unfold update_todo in H.
  step_in H as l Hload.
  pure_in H as idx Hfind.
  destruct idx as [i|]; [|injection H as <- _; eauto].
  destruct (l !! i) as [old|]; [|discriminate].
  step_in H as now Hnow.
  pure_in H as errs Hval.
  destruct errs as [|err errs]; [|injection H as <- _; eauto].
  step_in H as saved Hsave. destruct saved.
  - pure_in H as s Hs. injection H as <- _. eauto.
  - injection H as <- _. eauto.
Qed.

Lemma update_todo_atomic (todo_id : Z)
    (title description due_date status priority : option string)
    (tags : option (list string)) (w w' : world) (r : outcome result) :
  update_todo E todo_id title description due_date status priority tags w
    = (r, w') ->
  (succeeded r /\ exists l, file w' = Some (Json l) /\ _todos_cache w' = Some l)
  \/ (~ succeeded r /\ file_kept w w').
Proof.
  intros H.
  assert (Hcase : (exists t, r = Ok (SuccessTodo t)) \/ ~ succeeded r).
  { destruct r as [x|e]; [|right; intros (x & [=] & _)].
    destruct (update_todo_result_shape _ _ _ _ _ _ _ _ _ _ H) as [[t ->]|[errs ->]].
    - left. eauto.
    - right. intros (x & [= <-] & [=]). }
  destruct Hcase as [[t ->]|Hns].
  - left. split; [eexists; split; reflexivity|].
    apply update_todo_success_inv in H.
    destruct H as (i & old & _ & _ & _ & Hf & Hc & _). eauto.
  - right. split; [exact Hns|].
    eapply update_todo_no_success_file; [exact H|].
    intros t ->. apply Hns. eexists; split; reflexivity.
Qed.

Lemma delete_todo_atomic (todo_id : Z) (w w' : world) (r : outcome result) :
  delete_todo E todo_id w = (r, w') ->
  (succeeded r /\ exists l, file w' = Some (Json l) /\ _todos_cache w' = Some l)
  \/ (~ succeeded r /\ file_kept w w').
Proof.
  intros H. unfold delete_todo in H.
  apply bind_inv in H. destruct H as [(l & w1 & Hload & H)|(e & Hload & ->)];
    apply _load_todos_forced_run in Hload; destruct Hload as [Hl Hf1];
    [injection Hl as ->|discriminate].
  apply bind_inv in H. destruct H as [(new & w2 & Hnew & H)|(e & Hnew & ->)];
    apply lift_inv in Hnew; destruct Hnew as [Hnew ->].
  2:{ right. split; [intros (x & [=] & _)|now left]. }
  cbv zeta in H. destruct (Nat.eqb _ _).
  { injection H as <- <-. right. split; [intros (x & [= <-] & [=])|now left]. }
  apply bind_inv in H. destruct H as [(saved & w2 & Hsave & H)|(e & Hsave & ->)];
    apply _save_todos_run in Hsave;
    destruct Hsave as [(Hr & Hf & Hc)|(Hr & Hf)]; try discriminate;
    injection Hr as ->; injection H as <- <-.
  - left. split; [eexists; split; reflexivity|eauto].
  - right. split; [intros (x & [= <-] & [=])|].
    unfold file_kept. rewrite <- Hf1. exact Hf.
Qed.

Lemma batch_delete_todos_atomic (todo_ids : list Z) (w w' : world)
    (r : outcome result) :
  batch_delete_todos E todo_ids w = (r, w') ->
  (succeeded r /\ exists l, file w' = Some (Json l) /\ _todos_cache w' = Some l)
  \/ (~ succeeded r /\ file_kept w w').
Proof.
  intros H. unfold batch_delete_todos in H.
  apply bind_inv in H. destruct H as [(l & w1 & Hload & H)|(e & Hload & ->)];
    apply _load_todos_forced_run in Hload; destruct Hload as [Hl Hf1];
    [injection Hl as ->|discriminate].
  apply bind_inv in H. destruct H as [(new & w2 & Hnew & H)|(e & Hnew & ->)];
    apply lift_inv in Hnew; destruct Hnew as [Hnew ->].
  2:{ right. split; [intros (x & [=] & _)|now left]. }
  cbv zeta in H. destruct (_ =? _).
  { injection H as <- <-. right. split; [intros (x & [= <-] & [=])|now left]. }
  apply bind_inv in H. destruct H as [(saved & w2 & Hsave & H)|(e & Hsave & ->)];
    apply _save_todos_run in Hsave;
    destruct Hsave as [(Hr & Hf & Hc)|(Hr & Hf)]; try discriminate;
    injection Hr as ->; injection H as <- <-.
  - left. split; [eexists; split; reflexivity|eauto].
  - right. split; [intros (x & [= <-] & [=])|].
    unfold file_kept. rewrite <- Hf1. exact Hf.
Qed.

End Atomic.

(** X10.  A mutating tool call is all or nothing on the backing file.
    Either it returns a success result, and then the file holds a list of
    records and the cache holds the same list; or it returns a failure
    result or raises, and then the file is what it was before the call, or
    what a write that broke half way left of it. *)
Theorem mutating_call_atomic (E : environment) (c : call) (w w' : world)
    (r : outcome result) :
  mutating c = true ->
  run_call E c w = (r, w') ->
  (succeeded r /\ exists l, file w' = Some (Json l) /\ _todos_cache w' = Some l)
  \/ (~ succeeded r /\ file_kept w w').
Proof.
  intros Hm H. destruct c; try discriminate Hm; simpl in H.
  - eapply add_todo_atomic; exact H.
  - eapply update_todo_atomic; exact H.
  - eapply update_todo_atomic; exact H.
  - eapply delete_todo_atomic; exact H.
  - eapply batch_delete_todos_atomic; exact H.
Qed.

Lemma mutating_call_atomic_witness :
  (succeeded (fst (run_call sample_env (DeleteTodo 1) two_todos_world)) /\
   exists l,
     file (snd (run_call sample_env (DeleteTodo 1) two_todos_world)) = Some (Json l) /\
     _todos_cache (snd (run_call sample_env (DeleteTodo 1) two_todos_world)) = Some l)
  \/ (~ succeeded (fst (run_call sample_env (DeleteTodo 1) two_todos_world)) /\
      file_kept two_todos_world
        (snd (run_call sample_env (DeleteTodo 1) two_todos_world))).
Proof.
  apply (mutating_call_atomic sample_env (DeleteTodo 1) two_todos_world).
  - reflexivity.
  - apply surjective_pairing.
Defined.

(** ** Read-only calls *)

Lemma keeps_file_bind {A B} (m : M A) (k : A -> M B) :
  keeps_file m -> (forall a, keeps_file (k a)) -> keeps_file (bind m k).
Proof.
  intros Hm Hk w. unfold bind. specialize (Hm w).
  destruct (m w) as [[a|e] w1]; simpl in *.
  - now rewrite (Hk a w1).
  - exact Hm.
Qed.

Lemma keeps_file_ret {A} (a : A) : keeps_file (ret a).
Proof. intros w. reflexivity. Qed.

Lemma keeps_file_lift {A} (o : outcome A) : keeps_file (lift o).
Proof. intros w. reflexivity. Qed.

Lemma keeps_file_datetime_now (E : environment) : keeps_file (datetime_now E).
Proof. intros w. reflexivity. Qed.

Lemma keeps_file_load (E : environment) (force_reload : bool) :
  keeps_file (_load_todos E force_reload).
Proof.
  intros w.
  destruct (_load_todos_total E force_reload w) as (l & w' & Hrun & Hf & _).
  now rewrite Hrun.
Qed.

Lemma keeps_file_backup (E : environment) (suffix : option string) :
  keeps_file (_create_backup E suffix).
Proof.
  intros w.
  destruct (_create_backup_frame E suffix w) as (r & w' & Hrun & Hf & _).
  now rewrite Hrun.
Qed.

Ltac keeps_file_step :=
  first
    [ apply keeps_file_ret
    | apply keeps_file_lift
    | apply keeps_file_datetime_now
    | apply keeps_file_load
    | apply keeps_file_backup
    | apply keeps_file_bind; [|intros ?] ].

Lemma keeps_file_apply_filters (E : environment)
    (status priority search tag due_date_filter : option string) (l : list todo) :
  keeps_file (apply_filters E status priority search tag due_date_filter l).
Proof.
  unfold apply_filters, and_then, filter_step.
  repeat first
    [ keeps_file_step
    | match goal with
      | |- keeps_file (match ?x with _ => _ end) => destruct x
      | |- keeps_file (let _ := _ in _) => cbv zeta
      | |- keeps_file (by_status _ _) => unfold by_status
      | |- keeps_file (by_priority _ _) => unfold by_priority
      | |- keeps_file (by_search _ _) => unfold by_search
      | |- keeps_file (by_tag _ _) => unfold by_tag
      | |- keeps_file (by_due_date _ _ _) => unfold by_due_date
      end ].
Qed.

Lemma keeps_file_list_todos (E : environment)
    (status priority search tag due_date_filter : option string)
    (sort_by sort_order : string) (limit offset : Z) :
  keeps_file (list_todos E status priority search tag due_date_filter
                sort_by sort_order limit offset).
Proof.
  unfold list_todos.
  apply keeps_file_bind; [apply keeps_file_load|intros todos].
  apply keeps_file_bind; [apply keeps_file_apply_filters|intros [filtered|res]].
  - destruct (negb _); repeat keeps_file_step.
  - apply keeps_file_ret.
Qed.

Lemma keeps_file_get_todo (E : environment) (todo_id : Z) :
  keeps_file (get_todo E todo_id).
Proof. unfold get_todo. repeat keeps_file_step. Qed.

Lemma keeps_file_create_backup (E : environment) : keeps_file (create_backup E).
Proof.
  unfold create_backup.
  apply keeps_file_bind; [apply keeps_file_backup|intros [p|]].
  - destruct (String.eqb p ""); apply keeps_file_ret.
  - apply keeps_file_ret.
Qed.

Lemma keeps_file_get_statistics (E : environment) : keeps_file (get_statistics E).
Proof. unfold get_statistics. repeat keeps_file_step. Qed.

(** X11.  The tools that only read never change the backing file, whatever
    their arguments and however they end, a raised exception included:
    [list_todos], [get_todo], [create_backup] and [get_statistics] leave
    the file exactly as it was. *)
Theorem read_only_calls_keep_file (E : environment) (w : world) :
  (forall c, mutating c = false -> file (snd (run_call E c w)) = file w) /\
  file (snd (get_statistics E w)) = file w.
Proof.
  split.
  - intros c Hc. destruct c; try discriminate Hc; simpl.
    + apply keeps_file_list_todos.
    + apply keeps_file_get_todo.
    + apply keeps_file_create_backup.
  - apply keeps_file_get_statistics.
Qed.

(** ** get_statistics *)

Lemma string_compare_refl (s : string) : String.compare s s = Eq.
Proof.
  pose proof (String.compare_antisym s s) as H.
  destruct (String.compare s s); simpl in H; congruence.
Qed.

(** Of [a < b], [a = b] and [b < a] exactly one holds for strings. *)
Lemma string_trichotomy (a b : string) :
  (if String.ltb a b then 1 else 0)
  + (if bool_decide (a = b) then 1 else 0)
  + (if String.ltb b a then 1 else 0) = 1.
Proof.
  unfold String.ltb. rewrite (String.compare_antisym b a).
  destruct (String.compare a b) eqn:Hc; simpl.
  - apply String.compare_eq_iff in Hc. subst b.
    now rewrite bool_decide_eq_true_2.
  - rewrite bool_decide_eq_false_2; [reflexivity|].
    intros ->. rewrite string_compare_refl in Hc. discriminate.
  - rewrite bool_decide_eq_false_2; [reflexivity|].
    intros ->. rewrite string_compare_refl in Hc. discriminate.
Qed.

Lemma count_where_cons (p : todo -> bool) (t : todo) (l : list todo) :
  count_where p (t :: l) = (if p t then 1 else 0) + count_where p l.
Proof.
  unfold count_where. rewrite filter_cons.
  destruct (p t); [rewrite decide_True by reflexivity|rewrite decide_False by discriminate];
    simpl length; lia.
Qed.

Lemma ofilter_cons_Ok {A} (p : A -> outcome bool) (x : A) (l r : list A) :
  ofilter p (x :: l) = Ok r ->
  exists b r', p x = Ok b /\ ofilter p l = Ok r' /\
               Z.of_nat (length r) = (if b then 1 else 0) + Z.of_nat (length r').
Proof.
  cbn [ofilter]. intros H.
  apply obind_Ok_inv in H. destruct H as (b & Hb & H).
  apply obind_Ok_inv in H. destruct H as (r' & Hr' & [= <-]).
  exists b, r'. split; [exact Hb|]. split; [exact Hr'|].
  destruct b; simpl length; lia.
Qed.

(** Each record falls in exactly one due-date bucket. *)
Lemma due_date_buckets (today : string) (l o u : list todo) :
  today <> "" ->
  ofilter (is_overdue today) l = Ok o ->
  ofilter (is_upcoming today) l = Ok u ->
  Z.of_nat (length o)
  + count_where (fun t => py_eq (dict_get t "due_date" PNone) (PStr today)) l
  + Z.of_nat (length u)
  + count_where (fun t => negb (truthy (dict_get t "due_date" PNone))) l
  = Z.of_nat (length l).
Proof.
  intros Htoday. revert o u.
  induction l as [|t l IH]; intros o u Ho Hu.
  - injection Ho as <-. injection Hu as <-. reflexivity.
  - apply ofilter_cons_Ok in Ho. destruct Ho as (b1 & o' & Hb1 & Ho' & Hlo).
    apply ofilter_cons_Ok in Hu. destruct Hu as (b2 & u' & Hb2 & Hu' & Hlu).
    specialize (IH o' u' Ho' Hu').
    rewrite !count_where_cons, Hlo, Hlu. simpl length.
    assert (Hone :
      (if b1 then 1 else 0)
      + (if py_eq (dict_get t "due_date" PNone) (PStr today) then 1 else 0)
      + (if b2 then 1 else 0)
      + (if negb (truthy (dict_get t "due_date" PNone)) then 1 else 0) = 1).
    { clear IH Hlo Hlu Ho' Hu'. unfold is_overdue, is_upcoming, py_gt in *.
      destruct (truthy (dict_get t "due_date" PNone)) eqn:Htr.
      - destruct (dict_get t "due_date" PNone) as [|z|d|ds]; try discriminate.
        simpl in Hb1, Hb2. injection Hb1 as <-. injection Hb2 as <-.
        unfold py_eq. simpl negb.
        pose proof (string_trichotomy d today) as Htri.
        destruct (bool_decide (d = today)) eqn:Hd.
        + apply bool_decide_eq_true in Hd. subst d.
          rewrite bool_decide_eq_true_2 by reflexivity. lia.
        + apply bool_decide_eq_false in Hd.
          rewrite bool_decide_eq_false_2 by congruence. lia.
      - injection Hb1 as <-. injection Hb2 as <-. simpl negb.
        assert (Hne : py_eq (dict_get t "due_date" PNone) (PStr today) = false).
        { apply py_eq_false. intros Heq. rewrite Heq in Htr. simpl in Htr.
          apply negb_false_iff, String.eqb_eq in Htr. contradiction. }
        rewrite Hne. reflexivity. }
    lia.
Qed.

(** X12.  In the statistics every record is counted in exactly one
    due-date bucket: overdue, today, upcoming and no_date add up to the
    total count, which is the number of records loaded.  (The date of the
    day is never the empty string.) *)
Theorem get_statistics_buckets (E : environment) (w w' : world) (s : statistics) :
  (forall z, today_iso E z <> "") ->
  get_statistics E w = (Ok s, w') ->
  overdue_count s + due_today_count s + upcoming_count s + no_date_count s
    = total_count s /\
  exists todos w1,
    _load_todos E false w = (Ok todos, w1) /\
    total_count s = Z.of_nat (length todos).
Proof.
  intros Htoday H. unfold get_statistics in H.
  step_in H as todos Hload.
  cbv zeta in H.
  step_in H as now Hnow.
  pure_in H as overdue Ho.
  pure_in H as upcoming Hu.
  pure_in H as all_tags Htags.
  pure_in H as counts Hcounts.
  injection H as <- _. simpl. split.
  - apply due_date_buckets; auto.
  - eauto.
Qed.

Lemma get_statistics_buckets_witness :
  overdue_count sample_statistics + due_today_count sample_statistics
  + upcoming_count sample_statistics + no_date_count sample_statistics
    = total_count sample_statistics /\
  exists todos w1,
    _load_todos sample_env false two_todos_world = (Ok todos, w1) /\
    total_count sample_statistics = Z.of_nat (length todos).
Proof.
  apply (get_statistics_buckets sample_env two_todos_world
           (snd (get_statistics sample_env two_todos_world)) sample_statistics).
  - intros z. discriminate.
  - vm_compute. reflexivity.
Defined.

(** ** Pagination *)

Lemma py_slice_nonneg {A} (l : list A) (a n : Z) :
  0 <= a -> 0 <= n ->
  py_slice l a (a + n) = take (Z.to_nat n) (drop (Z.to_nat a) l).
Proof.
  intros Ha Hn. unfold py_slice, clamp_index.
  destruct (a <? 0) eqn:Ha0; [apply Z.ltb_lt in Ha0; lia|].
  destruct (a + n <? 0) eqn:Han; [apply Z.ltb_lt in Han; lia|].
  destruct (decide (Z.of_nat (length l) <= a)) as [Hge|Hlt].
  - rewrite !drop_ge by lia. now rewrite !take_nil.
  - replace (Z.to_nat (Z.min a (Z.of_nat (length l)))) with (Z.to_nat a) by lia.
    destruct (decide (a + n <= Z.of_nat (length l))) as [Hin|Hout].
    + f_equal. lia.
    + rewrite !take_ge; [reflexivity| |]; rewrite length_drop; lia.
Qed.

Lemma omap_list_length {A B} (f : A -> outcome B) (l : list A) (r : list B) :
  omap_list f l = Ok r -> length r = length l.
Proof.
  revert r. induction l as [|x l IH]; intros r; cbn [omap_list].
  - now intros [= <-].
  - intros H. apply obind_Ok_inv in H. destruct H as (y & _ & H).
    apply obind_Ok_inv in H. destruct H as (ys & Hys & [= <-]).
    simpl. f_equal. now apply IH.
Qed.

(** What a successful [list_todos] returned, with the echoed window. *)
Lemma list_todos_success_window (E : environment)
    (status priority search tag due_date_filter : option string)
    (sort_by sort_order : string) (limit offset : Z) (w w' : world)
    (out : list todo) (total lim off : Z) :
  list_todos E status priority search tag due_date_filter sort_by sort_order
    limit offset w = (Ok (SuccessList out total lim off), w') ->
  exists todos w1 w2 filtered sorted,
    _load_todos E false w = (Ok todos, w1) /\
    apply_filters E status priority search tag due_date_filter todos w1
      = (Ok (inl filtered), w2) /\
    sort_todos sort_by sort_order filtered = Ok sorted /\
    omap_list _serialize_todo (py_slice sorted offset (offset + limit)) = Ok out /\
    total = Z.of_nat (length sorted) /\ lim = limit /\ off = offset.
Proof.
  intros H. unfold list_todos in H.
  step_in H as l Hload.
  step_in H as f Hfilter.
  destruct f as [filtered|res].
  - destruct (negb (str_in sort_by valid_sort_fields)); [discriminate|].
    pure_in H as sorted Hsort.
    pure_in H as ser Hser.
    injection H as <- <- <- <- _. eauto 12.
  - apply apply_filters_fails_only in Hfilter. destruct Hfilter as [errs ->].
    discriminate.
Qed.

(** X13.  Pagination, for a window that is not negative.  In a successful
    [list_todos], [todos] being the records that the load returned,
    [filtered] the records that the filters let through and [sorted] the
    list that the sort makes of them, the page is the serialisation of
    [sorted] with [offset] records skipped and at most [limit] taken, so it
    has at most [limit] records and is empty when [offset] reaches the total
    or [limit] is 0; the total count is the number of records that passed
    the filters, whatever the window; limit and offset are echoed. *)
Theorem list_todos_page (E : environment)
    (status priority search tag due_date_filter : option string)
    (sort_by sort_order : string) (limit offset : Z) (w w' : world)
    (out : list todo) (total lim off : Z) :
  0 <= offset -> 0 <= limit ->
  list_todos E status priority search tag due_date_filter sort_by sort_order
    limit offset w = (Ok (SuccessList out total lim off), w') ->
  exists todos w1 w2 filtered sorted,
    _load_todos E false w = (Ok todos, w1) /\
    apply_filters E status priority search tag due_date_filter todos w1
      = (Ok (inl filtered), w2) /\
    sort_todos sort_by sort_order filtered = Ok sorted /\
    omap_list _serialize_todo (take (Z.to_nat limit) (drop (Z.to_nat offset) sorted))
      = Ok out /\
    total = Z.of_nat (length filtered) /\
    length sorted = length filtered /\
    Z.of_nat (length out) = Z.min limit (Z.max 0 (total - offset)) /\
    lim = limit /\ off = offset.
Proof.
  intros Hoff Hlim H. apply list_todos_success_window in H.
  destruct H as (todos & w1 & w2 & filtered & sorted & Hload & Hf & Hsort & Hser
                 & -> & -> & ->).
  rewrite (py_slice_nonneg _ _ _ Hoff Hlim) in Hser.
  assert (Hlen : length sorted = length filtered).
  { unfold sort_todos in Hsort. apply list_sort_perm in Hsort.
    now apply Permutation_length. }
  exists todos, w1, w2, filtered, sorted.
  split; [exact Hload|]. split; [exact Hf|]. split; [exact Hsort|].
  split; [exact Hser|]. split; [now rewrite Hlen|]. split; [exact Hlen|].
  split; [|auto].
  apply omap_list_length in Hser. rewrite Hser, length_take, length_drop. lia.
Qed.

Lemma list_todos_page_witness :
  exists todos w1 w2 filtered sorted,
    _load_todos sample_env false two_todos_world = (Ok todos, w1) /\
    apply_filters sample_env None None None None None todos w1
      = (Ok (inl filtered), w2) /\
    sort_todos "id" "asc" filtered = Ok sorted /\
    omap_list _serialize_todo (take (Z.to_nat 1) (drop (Z.to_nat 1) sorted))
      = Ok page_out /\
    2 = Z.of_nat (length filtered) /\
    length sorted = length filtered /\
    Z.of_nat (length page_out) = Z.min 1 (Z.max 0 (2 - 1)) /\
    1 = 1 /\ 1 = 1.
Proof.
  apply (list_todos_page sample_env None None None None None "id" "asc" 1 1
           two_todos_world (snd page_run) page_out 2 1 1).
  - lia.
  - lia.
  - vm_compute. reflexivity.
Defined.

(** ** Filters *)

Lemma Forall_of_sublist {A} (P : A -> Prop) (l r : list A) :
  r `sublist_of` l -> Forall P l -> Forall P r.
Proof.
  intros Hs HF. apply Forall_forall. intros x Hx.
  rewrite Forall_forall in HF. apply HF. eapply elem_of_sublist; eauto.
Qed.

Lemma ofilter_Forall {A} (p : A -> outcome bool) (l r : list A) :
  ofilter p l = Ok r -> Forall (fun x => p x = Ok true) r.
Proof.
  revert r. induction l as [|x l IH]; intros r; cbn [ofilter].
  - intros [= <-]. constructor.
  - intros H. apply obind_Ok_inv in H. destruct H as (b & Hb & H).
    apply obind_Ok_inv in H. destruct H as (ys & Hys & [= <-]).
    destruct b; [constructor|]; auto.
Qed.

Lemma and_then_inl_inv (m : M (list todo + result))
    (k : list todo -> M (list todo + result)) (w w' : world) (l' : list todo) :
  and_then m k w = (Ok (inl l'), w') ->
  exists l1 w1, m w = (Ok (inl l1), w1) /\ k l1 w1 = (Ok (inl l'), w').
Proof.
  intros H. unfold and_then in H. step_in H as r Hr.
  destruct r as [l1|res]; [eauto|discriminate].
Qed.

Section Filters.

Variable E : environment.

Lemma by_status_step (status : option string) (l l' : list todo) (w w' : world) :
  filter_step status by_status l w = (Ok (inl l'), w') ->
  l' `sublist_of` l /\
  Forall (fun t => forall s, given status = Some s ->
                             dict_get t "status" PNone = PStr s) l'.
Proof.
  unfold filter_step. destruct (given status) as [s|].
  - unfold by_status, ret. destruct (negb _); [discriminate|].
    intros [= <- _]. split; [apply sublist_filter|].
    apply Forall_forall. intros t Ht s' [= <-].
    apply list_elem_of_filter in Ht. destruct Ht as [Ht _].
    now apply py_eq_true in Ht.
  - intros [= <- _]. split; [reflexivity|].
    apply Forall_forall. intros t _ s' [=].
Qed.

Lemma by_priority_step (priority : option string) (l l' : list todo) (w w' : world) :
  filter_step priority by_priority l w = (Ok (inl l'), w') ->
  l' `sublist_of` l /\
  Forall (fun t => forall p, given priority = Some p ->
                             dict_get t "priority" PNone = PStr p) l'.
Proof.
  unfold filter_step. destruct (given priority) as [s|].
  - unfold by_priority, ret. destruct (negb _); [discriminate|].
    intros [= <- _]. split; [apply sublist_filter|].
    apply Forall_forall. intros t Ht s' [= <-].
    apply list_elem_of_filter in Ht. destruct Ht as [Ht _].
    now apply py_eq_true in Ht.
  - intros [= <- _]. split; [reflexivity|].
    apply Forall_forall. intros t _ s' [=].
Qed.

Lemma by_search_step (search : option string) (l l' : list todo) (w w' : world) :
  filter_step search by_search l w = (Ok (inl l'), w') -> l' `sublist_of` l.
Proof.
  unfold filter_step. destruct (given search) as [s|].
  - unfold by_search. intros H. pure_in H as r Hr. injection H as <- _.
    eapply ofilter_sublist; eauto.
  - now intros [= <- _].
Qed.

Lemma by_tag_step (tag : option string) (l l' : list todo) (w w' : world) :
  filter_step tag by_tag l w = (Ok (inl l'), w') ->
  l' `sublist_of` l /\
  Forall (fun t => forall g, given tag = Some g ->
                             py_contains (dict_get t "tags" (PList [])) g = Ok true) l'.
Proof.
  unfold filter_step. destruct (given tag) as [s|].
  - unfold by_tag. intros H. pure_in H as r Hr. injection H as <- _.
    split; [eapply ofilter_sublist; eauto|].
    apply ofilter_Forall in Hr. eapply Forall_impl; [exact Hr|].
    intros t Ht g [= <-]. exact Ht.
  - intros [= <- _]. split; [reflexivity|].
    apply Forall_forall. intros t _ s' [=].
Qed.

Lemma by_due_date_step (due_date_filter : option string) (l l' : list todo)
    (w w' : world) :
  filter_step due_date_filter (by_due_date E) l w = (Ok (inl l'), w') ->
  l' `sublist_of` l.
Proof.
  unfold filter_step. destruct (given due_date_filter) as [s|].
  - unfold by_due_date. intros H. step_in H as now Hnow. cbv zeta in H.
    repeat match type of H with
    | (if ?c then _ else _) _ = _ => destruct c
    end;
    try (pure_in H as r Hr; injection H as <- _; eapply ofilter_sublist; eauto);
    try (injection H as <- _; apply sublist_filter).
    discriminate.
  - now intros [= <- _].
Qed.

(** The records that come out of the filters are records that went in, in
    their order, and each meets the status, priority and tag filters. *)
Lemma apply_filters_sound (status priority search tag due_date_filter : option string)
    (l l' : list todo) (w w' : world) :
  apply_filters E status priority search tag due_date_filter l w
    = (Ok (inl l'), w') ->
  l' `sublist_of` l /\ Forall (passes_filters status priority tag) l'.
Proof.
  intros H. unfold apply_filters in H.
  apply and_then_inl_inv in H. destruct H as (l4 & w4 & H & Hdue).
  apply and_then_inl_inv in H. destruct H as (l3 & w3 & H & Htag).
  apply and_then_inl_inv in H. destruct H as (l2 & w2 & H & Hsearch).
  apply and_then_inl_inv in H. destruct H as (l1 & w1 & Hstatus & Hprio).
  apply by_status_step in Hstatus. destruct Hstatus as [S1 F1].
  apply by_priority_step in Hprio. destruct Hprio as [S2 F2].
  apply by_search_step in Hsearch.
  apply by_tag_step in Htag. destruct Htag as [S4 F4].
  apply by_due_date_step in Hdue.
  split.
  - etransitivity; [exact Hdue|]. etransitivity; [exact S4|].
    etransitivity; [exact Hsearch|]. etransitivity; [exact S2|exact S1].
  - assert (F1' : Forall (fun t => forall s, given status = Some s ->
                            dict_get t "status" PNone = PStr s) l').
    { eapply Forall_of_sublist; [|exact F1].
      etransitivity; [exact Hdue|]. etransitivity; [exact S4|].
      etransitivity; [exact Hsearch|exact S2]. }
    assert (F2' : Forall (fun t => forall p, given priority = Some p ->
                            dict_get t "priority" PNone = PStr p) l').
    { eapply Forall_of_sublist; [|exact F2].
      etransitivity; [exact Hdue|]. etransitivity; [exact S4|exact Hsearch]. }
    assert (F4' : Forall (fun t => forall g, given tag = Some g ->
                            py_contains (dict_get t "tags" (PList [])) g = Ok true) l').
    { eapply Forall_of_sublist; [exact Hdue|exact F4]. }
    rewrite Forall_forall in F1', F2', F4'.
    apply Forall_forall. intros t Ht. unfold passes_filters. auto.
Qed.

End Filters.

Lemma _serialize_todo_filter_fields (t s : todo) :
  _serialize_todo t = Ok s ->
  s !! "status" = Some (dict_get t "status" (PStr "pending")) /\
  s !! "priority" = Some (dict_get t "priority" (PStr "medium")) /\
  s !! "tags" = Some (dict_get t "tags" (PList [])).
Proof.
  unfold _serialize_todo, getitem.
  destruct (t !! "id") as [v|]; simpl; [|discriminate].
  destruct (t !! "title") as [v'|]; simpl; [|discriminate].
  intros [= <-].
  repeat split; rewrite !lookup_insert_ne by discriminate; apply lookup_insert_eq.
Qed.

Lemma omap_list_elem {A B} (f : A -> outcome B) (l : list A) (r : list B) (y : B) :
  omap_list f l = Ok r -> y ∈ r -> exists x, x ∈ l /\ f x = Ok y.
Proof.
  revert r. induction l as [|x l IH]; intros r; cbn [omap_list].
  - intros [= <-] Hy. inversion Hy.
  - intros H Hy. apply obind_Ok_inv in H. destruct H as (y0 & Hy0 & H).
    apply obind_Ok_inv in H. destruct H as (ys & Hys & [= <-]).
    apply elem_of_cons in Hy. destruct Hy as [->|Hy].
    + exists x. split; [apply list_elem_of_here|exact Hy0].
    + destruct (IH ys Hys Hy) as (x' & Hx' & Hfx).
      exists x'. split; [now apply list_elem_of_further|exact Hfx].
Qed.

Lemma dict_get_not_default (t : todo) (k : string) (v d : pyval) :
  dict_get t k PNone = v -> v <> PNone -> dict_get t k d = v.
Proof.
  unfold dict_get. destruct (t !! k); [auto|]. intros <- Hne. contradiction.
Qed.

(** X14.  The status, priority and tag filters of [list_todos] are sound:
    every record in the returned page has exactly the requested status,
    exactly the requested priority, and a tags value that contains the
    requested tag, for each of the three filters that is given (not [None]
    and not the empty string). *)
Theorem list_todos_filters_sound (E : environment)
    (status priority search tag due_date_filter : option string)
    (sort_by sort_order : string) (limit offset : Z) (w w' : world)
    (out : list todo) (total lim off : Z) :
  list_todos E status priority search tag due_date_filter sort_by sort_order
    limit offset w = (Ok (SuccessList out total lim off), w') ->
  Forall (fun t : todo =>
    (forall s, given status = Some s -> t !! "status" = Some (PStr s)) /\
    (forall p, given priority = Some p -> t !! "priority" = Some (PStr p)) /\
    (forall g, given tag = Some g ->
       exists v, t !! "tags" = Some v /\ py_contains v g = Ok true)) out.
Proof.
  intros H. apply list_todos_success_window in H.
  destruct H as (todos & w1 & w2 & filtered & sorted & _ & Hf & Hsort & Hser & _).
  apply apply_filters_sound in Hf. destruct Hf as [_ HF].
  assert (HS : Forall (passes_filters status priority tag) sorted).
  { unfold sort_todos in Hsort. apply list_sort_perm in Hsort.
    now rewrite Hsort. }
  assert (HP : Forall (passes_filters status priority tag)
                 (py_slice sorted offset (offset + limit))).
  { unfold py_slice. now apply Forall_take, Forall_drop. }
  apply Forall_forall. intros s Hs.
  destruct (omap_list_elem _ _ _ _ Hser Hs) as (t & Ht & Hts).
  rewrite Forall_forall in HP. destruct (HP t Ht) as (P1 & P2 & P3).
  apply _serialize_todo_filter_fields in Hts. destruct Hts as (S1 & S2 & S3).
  split; [|split].
  - intros st Hst. rewrite S1. f_equal.
    apply dict_get_not_default; [now apply P1|discriminate].
  - intros p Hp. rewrite S2. f_equal.
    apply dict_get_not_default; [now apply P2|discriminate].
  - intros g Hg. eexists. split; [exact S3|]. now apply P3.
Qed.

Lemma list_todos_filters_sound_witness :
  Forall (fun t : todo =>
    (forall s, given (Some "pending") = Some s -> t !! "status" = Some (PStr s)) /\
    (forall p, given None = Some p -> t !! "priority" = Some (PStr p)) /\
    (forall g, given None = Some g ->
       exists v, t !! "tags" = Some v /\ py_contains v g = Ok true)) pending_out.
Proof.
  apply (list_todos_filters_sound sample_env (Some "pending") None None None None
           "id" "asc" 100 0 two_todos_world (snd pending_run) pending_out 2 100 0).
  vm_compute. reflexivity.
Defined.

(** ** Stability of the sort in list_todos *)

(** C6.  The sort of [list_todos] is stable for [asc] and for [desc].  In a
    successful call, [todos] being the records that the load returned and
    [filtered] the records that the filters let through, which are records
    of [todos] in the order of [todos], the output is the serialised page
    of the list [sorted] that the sort makes of [filtered]: [sorted] holds
    the same records as [filtered], and for every key value the records
    with that value of the sort field (the empty string for a missing key)
    come in [sorted] in the order they have in [filtered].  The sort order
    is any string: [desc] does not reverse ties. *)
Theorem list_todos_sort_stable (E : environment)
    (status priority search tag due_date_filter : option string)
    (sort_by sort_order : string) (limit offset : Z) (w w' : world)
    (out : list todo) (total lim off : Z) :
  list_todos E status priority search tag due_date_filter sort_by sort_order
    limit offset w = (Ok (SuccessList out total lim off), w') ->
  exists todos w1 w2 filtered sorted,
    _load_todos E false w = (Ok todos, w1) /\
    apply_filters E status priority search tag due_date_filter todos w1
      = (Ok (inl filtered), w2) /\
    filtered `sublist_of` todos /\
    sort_todos sort_by sort_order filtered = Ok sorted /\
    omap_list _serialize_todo (py_slice sorted offset (offset + limit)) = Ok out /\
    sorted ≡ₚ filtered /\
    forall v,
      filter (fun t : todo => dict_get t sort_by (PStr "") = v) sorted
        = filter (fun t : todo => dict_get t sort_by (PStr "") = v) filtered.
Proof.
  intros H. apply list_todos_success_window in H.
  destruct H as (todos & w1 & w2 & filtered & sorted & Hload & Hf & Hsort & Hser & _).
  exists todos, w1, w2, filtered, sorted.
  split; [exact Hload|]. split; [exact Hf|].
  split; [exact (proj1 (apply_filters_sound E _ _ _ _ _ _ _ _ _ Hf))|].
  split; [exact Hsort|]. split; [exact Hser|].
  unfold sort_todos in Hsort. split.
  - eapply list_sort_perm; exact Hsort.
  - intros v. eapply list_sort_stable; exact Hsort.
Qed.

Lemma list_todos_sort_stable_witness :
  exists todos w1 w2 filtered sorted,
    _load_todos sample_env false two_todos_world = (Ok todos, w1) /\
    apply_filters sample_env None None None None None todos w1
      = (Ok (inl filtered), w2) /\
    filtered `sublist_of` todos /\
    sort_todos "status" "desc" filtered = Ok sorted /\
    omap_list _serialize_todo (py_slice sorted 0 (0 + 100)) = Ok desc_page /\
    sorted ≡ₚ filtered /\
    forall v,
      filter (fun t : todo => dict_get t "status" (PStr "") = v) sorted
        = filter (fun t : todo => dict_get t "status" (PStr "") = v) filtered.
Proof.
  apply (list_todos_sort_stable sample_env None None None None None
           "status" "desc" 100 0 two_todos_world (snd desc_run) desc_page 2 100 0).
  vm_compute. reflexivity.
Defined.

(** Descending by status, the two [pending] records stay in store order;
    descending by id they swap. *)
Example stored_titles :
  (fun t : todo => t !! "title") <$> disk_todos sample_env two_todos_world
    = [Some (PStr "a"); Some (PStr "b")].
Proof. vm_compute. reflexivity. Qed.

Example desc_page_titles :
  (fun t : todo => t !! "title") <$> desc_page = [Some (PStr "a"); Some (PStr "b")].
Proof. vm_compute. reflexivity. Qed.

Example desc_by_id_titles :
  match fst (list_todos sample_env None None None None None "id" "desc" 100 0
               two_todos_world) with
  | Ok (SuccessList out _ _ _) => (fun t : todo => t !! "title") <$> out
  | _ => []
  end = [Some (PStr "b"); Some (PStr "a")].
Proof. vm_compute. reflexivity. Qed.

(** ** The order of the sorted list *)

Lemma string_ltb_asym (a b : string) : String.ltb a b = true -> String.ltb b a = false.
Proof.
  unfold String.ltb. rewrite (String.compare_antisym b a).
  destruct (String.compare a b); simpl; congruence.
Qed.

Lemma list_ltb_asym (x y : list string) : list_ltb x y = true -> list_ltb y x = false.
Proof.
  revert y. induction x as [|a x IH]; intros [|b y]; simpl; try congruence.
  rewrite (String.eqb_sym b a).
  destruct (String.eqb a b); [apply IH|apply string_ltb_asym].
Qed.

Lemma py_lt_asym (a b : pyval) : py_lt a b = Ok true -> py_lt b a = Ok false.
Proof.
  destruct a, b; simpl; try discriminate; intros [= H]; f_equal.
  - apply Z.ltb_lt in H. apply Z.ltb_ge. lia.
  - now apply string_ltb_asym.
  - now apply list_ltb_asym.
Qed.

Section Order.

Context {A : Type}.

Lemma insert_keyed_adjacent (k : pyval) (x : A) (s s' : list (pyval * A)) :
  insert_keyed k x s = Ok s' ->
  adjacent (@keyed_le A) s ->
  adjacent (@keyed_le A) s' /\
  forall a, (forall h, head s = Some h -> keyed_le a h) -> keyed_le a (k, x) ->
            forall h, head s' = Some h -> keyed_le a h.
Proof.
  revert s'. induction s as [|[k' y] r IH]; intros s'; cbn [insert_keyed].
  - intros [= <-] _. split; [simpl; auto|].
    intros a _ Ha h [= <-]. exact Ha.
  - intros H Hadj. apply obind_Ok_inv in H. destruct H as (b & Hlt & H).
    destruct Hadj as [Hhd Hadj]. destruct b.
    + apply obind_Ok_inv in H. destruct H as (r' & Hr' & [= <-]).
      destruct (IH r' Hr' Hadj) as [Hadj' Hhead].
      split.
      * split; [|exact Hadj'].
        destruct r' as [|h' r'']; [exact I|].
        apply (Hhead (k', y)); [| |reflexivity].
        -- intros h Hh. destruct r as [|h0 r0]; [discriminate|].
           injection Hh as <-. exact Hhd.
        -- unfold keyed_le. simpl. now apply py_lt_asym.
      * intros a Ha _ h [= <-]. now apply Ha.
    + injection H as <-. split.
      * split; [exact Hlt|]. split; [exact Hhd|exact Hadj].
      * intros a _ Ha h [= <-]. exact Ha.
Qed.

Lemma sort_keyed_adjacent (l s : list (pyval * A)) :
  sort_keyed l = Ok s -> adjacent (@keyed_le A) s.
Proof.
  revert s. induction l as [|[k x] l IH]; intros s; cbn [sort_keyed].
  - intros [= <-]. exact I.
  - intros H. apply obind_Ok_inv in H. destruct H as (s0 & Hs0 & H).
    now apply (insert_keyed_adjacent _ _ _ _ H), IH.
Qed.

Lemma adjacent_snoc (R : A -> A -> Prop) (l : list A) (x : A) :
  adjacent R l -> (forall y, last l = Some y -> R y x) -> adjacent R (l ++ [x]).
Proof.
  induction l as [|a l IH]; intros Hadj Hlast; [simpl; auto|].
  destruct Hadj as [Hhd Hadj]. cbn [app adjacent]. split.
  - destruct l as [|b l]; simpl; [now apply Hlast|exact Hhd].
  - apply IH; [exact Hadj|]. intros y Hy. apply Hlast.
    destruct l; [discriminate|exact Hy].
Qed.

Lemma adjacent_reverse (R : A -> A -> Prop) (l : list A) :
  adjacent R l -> adjacent (flip R) (reverse l).
Proof.
  induction l as [|a l IH]; intros Hadj; [exact I|].
  destruct Hadj as [Hhd Hadj]. rewrite reverse_cons.
  apply adjacent_snoc; [now apply IH|].
  intros y Hy. rewrite last_reverse in Hy.
  destruct l as [|b l]; [discriminate|]. injection Hy as <-. exact Hhd.
Qed.

End Order.

Lemma adjacent_fmap {A B} (f : A -> B) (R : B -> B -> Prop) (l : list A) :
  adjacent (fun a b => R (f a) (f b)) l -> adjacent R (f <$> l).
Proof.
  induction l as [|a l IH]; [auto|].
  intros [Hhd Hadj]. rewrite fmap_cons. split; [|now apply IH].
  destruct l; [exact I|exact Hhd].
Qed.

Lemma adjacent_impl {A} (R R' : A -> A -> Prop) (l : list A) :
  (forall a b, a ∈ l -> b ∈ l -> R a b -> R' a b) ->
  adjacent R l -> adjacent R' l.
Proof.
  induction l as [|a l IH]; [auto|].
  intros Himp [Hhd Hadj]. split.
  - destruct l as [|b l]; [exact I|].
    apply Himp; [apply list_elem_of_here|apply list_elem_of_further, list_elem_of_here|exact Hhd].
  - apply IH; [|exact Hadj]. intros x y Hx Hy. apply Himp; now apply list_elem_of_further.
Qed.

(** X15.  The sort of [list_todos] orders the records by the sort field
    (the empty string for a missing key).  With [sort_order] [desc], in any
    letter case, each record is followed by one that does not sort after
    it; with any other [sort_order], each record is followed by one that
    does not sort before it. *)
Theorem sort_todos_ordered (sort_by sort_order : string) (l sorted : list todo) :
  sort_todos sort_by sort_order l = Ok sorted ->
  let key := fun t : todo => dict_get t sort_by (PStr "") in
  if String.eqb (lower sort_order) "desc"
  then adjacent (fun a b => not_after key b a) sorted
  else adjacent (not_after key) sorted.
Proof.
  intros H key. unfold sort_todos, list_sort in H. fold key in H.
  apply obind_Ok_inv in H. destruct H as (s & Hs & [= <-]).
  pose proof (sort_keyed_adjacent _ _ Hs) as Hadj.
  pose proof (sort_keyed_perm _ _ Hs) as Hp.
  assert (HF : Forall (fun p : pyval * todo => p.1 = key p.2) s).
  { rewrite Hp. destruct (String.eqb _ _); [rewrite reverse_Permutation|];
      apply keyed_Forall. }
  assert (Hkey : adjacent (fun p q : pyval * todo => not_after key p.2 q.2) s).
  { eapply adjacent_impl; [|exact Hadj].
    rewrite Forall_forall in HF.
    intros p q Hpin Hqin Hle. unfold not_after.
    now rewrite <- (HF p Hpin), <- (HF q Hqin). }
  destruct (String.eqb _ _).
  - apply adjacent_fmap with (R := fun a b => not_after key b a).
    apply (adjacent_reverse _ _ Hkey).
  - now apply adjacent_fmap with (R := not_after key).
Qed.

Lemma sort_todos_ordered_witness :
  let key := fun t : todo => dict_get t "id" (PStr "") in
  if String.eqb (lower "DESC") "desc"
  then adjacent (fun a b => not_after key b a) sample_desc_sorted
  else adjacent (not_after key) sample_desc_sorted.
Proof.
  apply (sort_todos_ordered "id" "DESC" (disk_todos sample_env two_todos_world)
           sample_desc_sorted).
  vm_compute. reflexivity.
Defined.

(** ** Unknown filter values *)

Lemma and_then_inr (m : M (list todo + result))
    (k : list todo -> M (list todo + result)) (w w1 : world) (res : result) :
  m w = (Ok (inr res), w1) -> and_then m k w = (Ok (inr res), w1).
Proof. intros H. unfold and_then. now rewrite (bind_Ok _ _ _ _ _ H). Qed.

(** X16.  An unknown status given to [list_todos] is rejected before
    anything else is looked at: whatever the other filters, the sort field
    and the window, the call returns the failure that names the four valid
    statuses, and the backing file is untouched. *)
Theorem list_todos_unknown_status (E : environment)
    (status priority search tag due_date_filter : option string)
    (sort_by sort_order : string) (limit offset : Z) (w : world) (s : string) :
  given status = Some s ->
  str_in s VALID_STATUSES = false ->
  exists w',
    list_todos E status priority search tag due_date_filter sort_by sort_order
      limit offset w
      = (Ok (Failure
               ["Invalid status. Must be one of: pending, in_progress, done, cancelled"]),
         w') /\
    file w' = file w.
Proof.
  intros Hs Hbad. unfold list_todos.
  destruct (_load_todos_total E false w) as (l & w1 & Hload & Hf & _).
  rewrite (bind_Ok _ _ _ _ _ Hload).
  assert (Hfilters :
    apply_filters E status priority search tag due_date_filter l w1
      = (Ok (inr (Failure
           ["Invalid status. Must be one of: pending, in_progress, done, cancelled"])),
         w1)).
  { unfold apply_filters. do 4 apply and_then_inr.
    unfold filter_step. rewrite Hs. unfold by_status. now rewrite Hbad. }
  rewrite (bind_Ok _ _ _ _ _ Hfilters). exists w1. split; [reflexivity|exact Hf].
Qed.

Lemma list_todos_unknown_status_witness :
  exists w',
    list_todos sample_env (Some "bogus") None None None None "nonsense" "asc" 100 0
      two_todos_world
      = (Ok (Failure
               ["Invalid status. Must be one of: pending, in_progress, done, cancelled"]),
         w') /\
    file w' = file two_todos_world.
Proof.
  apply (list_todos_unknown_status sample_env (Some "bogus") None None None None
           "nonsense" "asc" 100 0 two_todos_world "bogus"); reflexivity.
Defined.

(** ** A store that cannot be read *)

Lemma disk_todos_unreadable (E : environment) (w : world) :
  read_fails E = true \/ (exists raw, file w = Some (Garbage raw)) \/ file w = None ->
  disk_todos E w = [].
Proof.
  unfold disk_todos. intros [Hr|[[raw Hf]|Hf]].
  - rewrite Hr. now destruct (file w) as [[l|raw]|].
  - now rewrite Hf.
  - now rewrite Hf.
Qed.

(** X17.  The forced reload treats a file that is missing, unreadable or
    not JSON as an empty store, without raising.  An [add_todo] with
    acceptable arguments then succeeds with id 1 and writes a file that
    holds the new record alone: records that the unreadable file held are
    not kept. *)
Theorem add_todo_over_unreadable_store (E : environment) (title description : string)
    (due_date : option string) (status priority : string)
    (tags : option (list string)) (w : world) :
  read_fails E = true \/ (exists raw, file w = Some (Garbage raw)) \/ file w = None ->
  acceptable E title description due_date status priority = true ->
  write_result E = WriteOk ->
  exists t w',
    add_todo E title description due_date status priority tags w
      = (Ok (SuccessTodo t), w') /\
    t !! "id" = Some (PInt 1) /\
    file w' = Some (Json [t]).
Proof.
  intros Hbad Hok Hw.
  pose proof (disk_todos_unreadable E w Hbad) as Hd.
  destruct (add_todo_succeeds E title description due_date status priority tags
              w [] Hok Hw) as (w' & Hadd & Hf & _).
  { now rewrite Hd. }
  rewrite Hd in Hf. eexists _, w'. split; [exact Hadd|].
  split; [apply lookup_insert_eq|exact Hf].
Qed.

Lemma add_todo_over_unreadable_store_witness :
  exists t w',
    add_todo unreadable_env "c" "" None "pending" "medium" None two_todos_world
      = (Ok (SuccessTodo t), w') /\
    t !! "id" = Some (PInt 1) /\
    file w' = Some (Json [t]).
Proof.
  apply (add_todo_over_unreadable_store unreadable_env "c" "" None "pending"
           "medium" None two_todos_world).
  - left. reflexivity.
  - reflexivity.
  - reflexivity.
Defined.

(** ** Tag counts *)

Lemma str_in_true (x : string) (l : list string) : str_in x l = true <-> x ∈ l.
Proof.
  unfold str_in. induction l as [|y l IH]; simpl.
  - split; [discriminate|]. intros H. inversion H.
  - rewrite orb_true_iff, elem_of_cons, IH, String.eqb_eq. reflexivity.
Qed.

Lemma list_tags_iter (t : todo) :
  list_tags t -> py_iter (dict_get t "tags" (PList [])) = Ok (tags_of t).
Proof.
  unfold list_tags, tags_of. now destruct (dict_get t "tags" (PList [])).
Qed.

Lemma list_tags_contains (t : todo) (g : string) :
  list_tags t ->
  py_contains (dict_get t "tags" (PList [])) g = Ok (str_in g (tags_of t)).
Proof.
  unfold list_tags, tags_of. now destruct (dict_get t "tags" (PList [])).
Qed.

Lemma collect_tags_elem (l : list todo) (acc S : gset string) :
  Forall list_tags l ->
  collect_tags l acc = Ok S ->
  forall g, g ∈ S <-> g ∈ acc \/ exists t, t ∈ l /\ g ∈ tags_of t.
Proof.
  intros HF. revert acc. induction HF as [|t l Ht _ IH]; intros acc; cbn [collect_tags].
  - intros [= <-] g. split; [auto|]. intros [H|(t & Ht & _)]; [exact H|inversion Ht].
  - rewrite (list_tags_iter t Ht). cbn [obind]. intros H g.
    rewrite (IH _ H g), elem_of_union, elem_of_list_to_set. split.
    + intros [[Hg|Hg]|(t' & Ht' & Hg)]; [right|left|right]; eauto.
      * exists t. split; [apply list_elem_of_here|exact Hg].
      * exists t'. split; [now apply list_elem_of_further|exact Hg].
    + intros [Hg|(t' & Ht' & Hg)]; [now left; right|].
      apply elem_of_cons in Ht'. destruct Ht' as [->|Ht']; [now left; left|].
      right. eauto.
Qed.

Lemma ofilter_contains_count (l r : list todo) (g : string) :
  Forall list_tags l ->
  ofilter (fun t => py_contains (dict_get t "tags" (PList [])) g) l = Ok r ->
  Z.of_nat (length r) = count_where (fun t => str_in g (tags_of t)) l.
Proof.
  intros HF. revert r. induction HF as [|t l Ht _ IH]; intros r H.
  - now injection H as <-.
  - apply ofilter_cons_Ok in H. destruct H as (b & r' & Hb & Hr' & Hlen).
    rewrite (list_tags_contains t g Ht) in Hb. injection Hb as <-.
    rewrite count_where_cons, Hlen, (IH r' Hr'). reflexivity.
Qed.

Lemma omap_list_fmap {A B} (f : A -> outcome B) (h : A -> B) (l : list A) (r : list B) :
  (forall x y, f x = Ok y -> y = h x) ->
  omap_list f l = Ok r -> r = h <$> l.
Proof.
  intros Hf. revert r. induction l as [|x l IH]; intros r; cbn [omap_list].
  - now intros [= <-].
  - intros H. apply obind_Ok_inv in H. destruct H as (y & Hy & H).
    apply obind_Ok_inv in H. destruct H as (ys & Hys & [= <-]).
    rewrite fmap_cons. f_equal; [now apply Hf|now apply IH].
Qed.

Lemma count_where_pos (p : todo -> bool) (l : list todo) (t : todo) :
  t ∈ l -> p t = true -> 1 <= count_where p l.
Proof.
  intros Hin Hp. unfold count_where.
  assert (Hin' : t ∈ filter (fun t => p t = true) l)
    by (apply list_elem_of_filter; auto).
  destruct (filter (fun t => p t = true) l); [inversion Hin'|simpl length; lia].
Qed.

(** X18.  The tag counts of the statistics, for records whose tags are
    lists: there is an entry for a tag exactly when some loaded record
    carries that tag, its value is the number of records that carry it, and
    so every entry is at least 1; tags that no record carries are not
    listed. *)
Theorem get_statistics_tag_counts (E : environment) (w w' : world) (s : statistics) :
  get_statistics E w = (Ok s, w') ->
  exists todos w1,
    _load_todos E false w = (Ok todos, w1) /\
    (Forall (fun t => is_list (dict_get t "tags" (PList [])) = true) todos ->
     forall g n,
       tag_counts s !! g = Some n <->
       (exists t, t ∈ todos /\ g ∈ tags_of t) /\
       n = count_where (fun t => str_in g (tags_of t)) todos /\
       1 <= n).
Proof.
  intros H. unfold get_statistics in H.
  step_in H as todos Hload.
  cbv zeta in H.
  step_in H as now Hnow.
  pure_in H as overdue Ho.
  pure_in H as upcoming Hu.
  pure_in H as all_tags Htags.
  pure_in H as counts Hcounts.
  injection H as <- _. cbn [tag_counts].
  exists todos. eexists. split; [exact Hload|].
  intros HF g n.
  pose proof (collect_tags_elem todos ∅ all_tags HF Htags) as Hall.
  apply (omap_list_fmap _
           (fun g => (g, count_where (fun t => str_in g (tags_of t)) todos)))
    in Hcounts.
  2:{ intros x y Hy. apply obind_Ok_inv in Hy. destruct Hy as (r & Hr & [= <-]).
      f_equal. now apply ofilter_contains_count. }
  subst counts.
  rewrite <- elem_of_list_to_map.
  2:{ rewrite <- list_fmap_compose.
      rewrite (list_fmap_ext _ id) by reflexivity.
      rewrite list_fmap_id. apply NoDup_elements. }
  rewrite list_elem_of_fmap. split.
  - intros (g' & [= <- ->] & Hg). apply elem_of_elements, Hall in Hg.
    destruct Hg as [Hg|(t & Ht & Hg)]; [set_solver|].
    split; [eauto|]. split; [reflexivity|].
    apply (count_where_pos _ _ t Ht). now apply str_in_true.
  - intros (Hex & -> & _). exists g. split; [reflexivity|].
    apply elem_of_elements, Hall. now right.
Qed.

Lemma get_statistics_tag_counts_witness :
  exists todos w1,
    _load_todos sample_env false tagged_world = (Ok todos, w1) /\
    (Forall (fun t => is_list (dict_get t "tags" (PList [])) = true) todos ->
     forall g n,
       tag_counts tagged_statistics !! g = Some n <->
       (exists t, t ∈ todos /\ g ∈ tags_of t) /\
       n = count_where (fun t => str_in g (tags_of t)) todos /\
       1 <= n).
Proof.
  apply (get_statistics_tag_counts sample_env tagged_world
           (snd (get_statistics sample_env tagged_world)) tagged_statistics).
  vm_compute. reflexivity.
Defined.

(** In the tagged sample store [home] is carried by two records, [urgent]
    by one, and no other tag is listed. *)
Example tagged_statistics_counts :
  map_to_list (tag_counts tagged_statistics) ≡ₚ [("home", 2); ("urgent", 1)].
Proof. vm_compute. apply Permutation_swap || reflexivity. Qed.

(** ** Status and priority counts *)

Lemma count_where_nonneg (p : todo -> bool) (l : list todo) : 0 <= count_where p l.
Proof. unfold count_where. lia. Qed.

Lemma count_where_le (p : todo -> bool) (l : list todo) :
  count_where p l <= Z.of_nat (length l).
Proof. unfold count_where. pose proof (length_filter (fun t => p t = true) l). lia. Qed.

(** A value equals at most one of four distinct strings, and one of them
    exactly when it is in the list. *)
Lemma four_way_count (v : pyval) (a b c d : string) :
  NoDup [a; b; c; d] ->
  (if py_eq v (PStr a) then 1 else 0) + (if py_eq v (PStr b) then 1 else 0)
  + (if py_eq v (PStr c) then 1 else 0) + (if py_eq v (PStr d) then 1 else 0)
  = if in_strings v [a; b; c; d] then 1 else 0.
Proof.
  intros Hnd. unfold in_strings, not_in_strings, py_eq.
  destruct v as [|z|s|ls];
    try (rewrite !bool_decide_eq_false_2 by discriminate; reflexivity).
  rewrite negb_involutive. unfold str_in. simpl existsb.
  assert (Hdec : forall x, bool_decide (PStr s = PStr x) = String.eqb s x).
  { intros x. destruct (String.eqb s x) eqn:Hx.
    - apply String.eqb_eq in Hx. subst. now apply bool_decide_eq_true_2.
    - apply String.eqb_neq in Hx. apply bool_decide_eq_false_2. congruence. }
  rewrite !Hdec.
  apply NoDup_cons in Hnd. destruct Hnd as [Ha Hnd].
  apply NoDup_cons in Hnd. destruct Hnd as [Hb Hnd].
  apply NoDup_cons in Hnd. destruct Hnd as [Hc _].
  destruct (String.eqb s a) eqn:Ea; [apply String.eqb_eq in Ea; subst a|];
  (destruct (String.eqb s b) eqn:Eb; [apply String.eqb_eq in Eb; subst b|]);
  (destruct (String.eqb s c) eqn:Ec; [apply String.eqb_eq in Ec; subst c|]);
  (destruct (String.eqb s d) eqn:Ed; [apply String.eqb_eq in Ed; subst d|]);
  try reflexivity; exfalso; set_solver.
Qed.

Lemma sum_counts_four (a b c d : string) (l : list todo) (k : string) :
  NoDup [a; b; c; d] ->
  sum_counts
    ((fun x => (x, count_where (fun t => py_eq (dict_get t k PNone) (PStr x)) l))
       <$> [a; b; c; d])
  = count_where (fun t => in_strings (dict_get t k PNone) [a; b; c; d]) l.
Proof.
  intros Hnd. unfold sum_counts. simpl.
  induction l as [|t l IH].
  - reflexivity.
  - rewrite !count_where_cons, <- (four_way_count _ a b c d Hnd). lia.
Qed.

(** X19.  The status counts of the statistics list the four statuses in
    their fixed order, zero counts included, and their sum is the number of
    loaded records whose status is one of the four, so never more than the
    total; the same holds of the priority counts. *)
Theorem get_statistics_status_counts (E : environment) (w w' : world) (s : statistics) :
  get_statistics E w = (Ok s, w') ->
  exists todos w1,
    _load_todos E false w = (Ok todos, w1) /\
    fst <$> status_counts s = VALID_STATUSES /\
    fst <$> priority_counts s = VALID_PRIORITIES /\
    sum_counts (status_counts s)
      = count_where (fun t => in_strings (dict_get t "status" PNone) VALID_STATUSES)
          todos /\
    sum_counts (priority_counts s)
      = count_where (fun t => in_strings (dict_get t "priority" PNone) VALID_PRIORITIES)
          todos /\
    sum_counts (status_counts s) <= total_count s /\
    sum_counts (priority_counts s) <= total_count s.
Proof.
  intros H. unfold get_statistics in H.
  step_in H as todos Hload.
  cbv zeta in H.
  step_in H as now Hnow.
  pure_in H as overdue Ho.
  pure_in H as upcoming Hu.
  pure_in H as all_tags Htags.
  pure_in H as counts Hcounts.
  injection H as <- _. cbn [status_counts priority_counts total_count].
  exists todos. eexists. split; [exact Hload|].
  assert (Hs : NoDup VALID_STATUSES)
    by (apply (bool_decide_unpack _); vm_compute; reflexivity).
  assert (Hp : NoDup VALID_PRIORITIES)
    by (apply (bool_decide_unpack _); vm_compute; reflexivity).
  split; [reflexivity|]. split; [reflexivity|].
  unfold VALID_STATUSES, VALID_PRIORITIES in *.
  pose proof (sum_counts_four _ _ _ _ todos "status" Hs) as H1.
  pose proof (sum_counts_four _ _ _ _ todos "priority" Hp) as H2.
  cbn [fmap list_fmap] in H1, H2. rewrite H1, H2.
  split; [reflexivity|]. split; [reflexivity|].
  split; apply count_where_le.
Qed.

Lemma get_statistics_status_counts_witness :
  exists todos w1,
    _load_todos sample_env false two_todos_world = (Ok todos, w1) /\
    fst <$> status_counts sample_statistics = VALID_STATUSES /\
    fst <$> priority_counts sample_statistics = VALID_PRIORITIES /\
    sum_counts (status_counts sample_statistics)
      = count_where (fun t => in_strings (dict_get t "status" PNone) VALID_STATUSES)
          todos /\
    sum_counts (priority_counts sample_statistics)
      = count_where (fun t => in_strings (dict_get t "priority" PNone) VALID_PRIORITIES)
          todos /\
    sum_counts (status_counts sample_statistics) <= total_count sample_statistics /\
    sum_counts (priority_counts sample_statistics) <= total_count sample_statistics.
Proof.
  apply (get_statistics_status_counts sample_env two_todos_world
           (snd (get_statistics sample_env two_todos_world)) sample_statistics).
  vm_compute. reflexivity.
Defined.

(** ** The total count *)

Lemma filter_step_None (step : string -> list todo -> M (list todo + result))
    (l l' : list todo) (w w' : world) :
  filter_step None step l w = (Ok (inl l'), w') -> l' = l /\ w' = w.
Proof. unfold filter_step. simpl. now intros [= <- <-]. Qed.

(** X20.  The total count of [list_todos] when only the status filter can
    be given: with a status it is the number of loaded records that have
    exactly that status, without one it is the number of loaded records;
    the sort field, the sort order and the window do not change it. *)
Theorem list_todos_total_count (E : environment) (status : option string)
    (sort_by sort_order : string) (limit offset : Z) (w w' : world)
    (out : list todo) (total lim off : Z) :
  list_todos E status None None None None sort_by sort_order limit offset w
    = (Ok (SuccessList out total lim off), w') ->
  exists todos w1,
    _load_todos E false w = (Ok todos, w1) /\
    total =
      match given status with
      | Some s => count_where (fun t => py_eq (dict_get t "status" PNone) (PStr s)) todos
      | None => Z.of_nat (length todos)
      end.
Proof.
  intros H. apply list_todos_success_window in H.
  destruct H as (todos & w1 & w2 & filtered & sorted & Hload & Hf & Hsort & _ & -> & _).
  exists todos, w1. split; [exact Hload|].
  unfold sort_todos in Hsort. apply list_sort_perm in Hsort.
  rewrite (Permutation_length Hsort).
  unfold apply_filters in Hf.
  apply and_then_inl_inv in Hf. destruct Hf as (l4 & w4 & Hf & H5).
  apply and_then_inl_inv in Hf. destruct Hf as (l3 & w3 & Hf & H4).
  apply and_then_inl_inv in Hf. destruct Hf as (l2 & w2' & Hf & H3).
  apply and_then_inl_inv in Hf. destruct Hf as (l1 & w1' & Hf & H2).
  apply filter_step_None in H5. destruct H5 as [-> ->].
  apply filter_step_None in H4. destruct H4 as [-> ->].
  apply filter_step_None in H3. destruct H3 as [-> ->].
  apply filter_step_None in H2. destruct H2 as [-> ->].
  unfold filter_step in Hf. destruct (given status) as [s|].
  - unfold by_status, ret in Hf. destruct (negb _); [discriminate|].
    now injection Hf as <- _.
  - now injection Hf as <- _.
Qed.

Lemma list_todos_total_count_witness :
  exists todos w1,
    _load_todos sample_env false two_todos_world = (Ok todos, w1) /\
    2 =
      match given (Some "pending") with
      | Some s => count_where (fun t => py_eq (dict_get t "status" PNone) (PStr s)) todos
      | None => Z.of_nat (length todos)
      end.
Proof.
  apply (list_todos_total_count sample_env (Some "pending") "id" "asc" 100 0
           two_todos_world (snd pending_run) pending_out 2 100 0).
  vm_compute. reflexivity.
Defined.
